(** * Voxelize: a shallow embedding of [src/app.js]

    The voxelizer of [app.js] dimensions a grid from the bounding box of the
    loaded model, samples the occupancy of every cell with twelve ray casts,
    and replaces the model by one cube per occupied cell.

    The embedding follows the JavaScript text function by function.
    - JavaScript numbers are kept abstract behind the interface [Number];
      the program is written once against it and run in two arithmetics:
      IEEE-754 binary64 (Rocq's primitive floats, what the browser computes)
      and exact rationals [Qc] (the arithmetic in which the algebra of the
      specification is meant).
    - The module-level variables [scene], [currentObject] and
      [voxelsPerUnit] live in a [World] record threaded by a state and
      error monad [M]; calls into three.js that matter to the specification
      are recorded in a call [log].
    - Loops [for (let i = 0; i <= size; i++)] are run with fuel, since the
      bound is a number (possibly [Infinity]). *)

From Stdlib Require Import List Bool Arith ZArith Lia QArith Qcanon Qround Qabs.
From Stdlib Require Import Floats Uint63.
From Stdlib Require String.
Import ListNotations.
Import String.StringSyntax.
Delimit Scope string_scope with string.

Set Implicit Arguments.
Set Warnings "-notation-for-abbreviation".
Close Scope Qc_scope.
Close Scope Q_scope.

(** ** Numbers *)

(** The operations of JavaScript numbers that [app.js] uses: [+ - * /],
    the comparisons [<] and [<=], [Math.ceil], and the values taken by an
    integer loop counter. *)
Class Number (num : Type) : Type := {
  num_add : num -> num -> num;
  num_sub : num -> num -> num;
  num_mul : num -> num -> num;
  num_div : num -> num -> num;
  num_ltb : num -> num -> bool;
  num_leb : num -> num -> bool;
  Math_ceil : num -> num;
  of_nat : nat -> num
}.

Declare Scope num_scope.
Delimit Scope num_scope with num.
Infix "+" := num_add : num_scope.
Infix "-" := num_sub : num_scope.
Infix "*" := num_mul : num_scope.
Infix "/" := num_div : num_scope.
Infix "<?" := num_ltb : num_scope.
Infix "<=?" := num_leb : num_scope.

(** The rational denoted by a finite number ([None] for [NaN] and the
    infinities).  Used in statements only, never by the program. *)
Class Valued (num : Type) : Type := to_Q : num -> option Q.

(** *** IEEE-754 binary64 *)

(** The rational value of a decoded double. *)
Definition SF2Q (f : spec_float) : option Q :=
  match f with
  | S754_zero _ => Some 0%Q
  | S754_finite s m e =>
      let q := match e with
               | Z0 => (Zpos m # 1)%Q
               | Zpos p => ((Zpos m * 2 ^ Zpos p)%Z # 1)%Q
               | Zneg p => (Zpos m # (2 ^ p))%Q
               end in
      Some (if s then Qopp q else q)
  | _ => None
  end.

(** The normal form, as a double of sign [s], of a positive integer below
    [2^53]: the mantissa is shifted to 53 bits. *)
Definition canonical (s : bool) (p : positive) : spec_float :=
  match (53 - Zpos (digits2_pos p))%Z with
  | Zpos k => S754_finite s (shift_pos k p) (Zneg k)
  | _ => S754_finite s p 0%Z
  end.

(** The double of sign [s] and magnitude [|z|], for [|z| < 2^53]. *)
Definition Z2F (s : bool) (z : Z) : float :=
  match z with
  | Z0 => if s then neg_zero else zero
  | Zpos n | Zneg n => SF2Prim (canonical s n)
  end.

(** A rational with the sign of a double. *)
Definition signed (s : bool) (q : Q) : Q := if s then Qopp q else q.

(** [Math.ceil] on doubles (ECMA-262, 21.3.2.10): [NaN], the zeros, the
    infinities and every double with a non-negative exponent (an integer)
    are returned as they are; a negative argument above [-1] gives [-0]. *)
Definition float_ceil (x : float) : float :=
  match Prim2SF x with
  | S754_finite s m (Zneg p) =>
      Z2F s (Qceiling (if s then Qopp (Zpos m # (2 ^ p))%Q else (Zpos m # (2 ^ p))%Q))
  | _ => x
  end.

(** A loop counter [i] is a double; for [i < 2^53] it is the integer. *)
Definition float_of_nat (n : nat) : float :=
  PrimFloat.of_uint63 (Uint63.of_Z (Z.of_nat n)).

#[export] Instance float_Number : Number float := {
  num_add := PrimFloat.add;
  num_sub := PrimFloat.sub;
  num_mul := PrimFloat.mul;
  num_div := PrimFloat.div;
  num_ltb := PrimFloat.ltb;
  num_leb := PrimFloat.leb;
  Math_ceil := float_ceil;
  of_nat := float_of_nat
}.

#[export] Instance float_Valued : Valued float := fun x => SF2Q (Prim2SF x).

(** The doubles that are numbers of finite magnitude. *)
Definition float_is_finite (d : float) : bool :=
  match Prim2SF d with
  | S754_zero _ | S754_finite _ _ _ => true
  | _ => false
  end.

(** *** Exact rationals *)

Definition Qc_of_Z (z : Z) : Qc := Q2Qc (inject_Z z).

Definition Qc_ltb (a b : Qc) : bool := negb (Qle_bool b a).
Definition Qc_leb (a b : Qc) : bool := Qle_bool a b.

#[export] Instance Qc_Number : Number Qc := {
  num_add := Qcplus;
  num_sub := Qcminus;
  num_mul := Qcmult;
  num_div := Qcdiv;
  num_ltb := Qc_ltb;
  num_leb := Qc_leb;
  Math_ceil := fun q => Qc_of_Z (Qceiling q);
  of_nat := fun n => Qc_of_Z (Z.of_nat n)
}.

#[export] Instance Qc_Valued : Valued Qc := fun q => Some (this q).

(** ** Data *)

Module Vector3.
Record t (num : Type) : Type := new { x : num; y : num; z : num }.
Arguments new {num} _ _ _.
End Vector3.

(** The object literal [{x, y, z}] returned by [getDimensions]. *)
Module Dimensions.
Record t (num : Type) : Type := mk { x : num; y : num; z : num }.
Arguments mk {num} _ _ _.
End Dimensions.

(** The object literal [{value, x, y, z}] stored in the grid. *)
Module Cell.
Record t (num : Type) : Type := mk { value : bool; x : num; y : num; z : num }.
Arguments mk {num} _ _ _ _.
End Cell.

(** [THREE.Box3]. *)
Module Box3.
Record t (num : Type) : Type := new { min : Vector3.t num; max : Vector3.t num }.
Arguments new {num} _ _.
End Box3.

(** An entry of the array returned by [Raycaster.intersectObject]; the
    program reads its [distance] only. *)
Record Intersection (num : Type) : Type := { distance : num }.

(** Geometries and materials are heap objects: they carry an identity. *)
Inductive Geometry (num : Type) : Type :=
| BoxGeometry (id : nat) (width height depth : num)
| BufferGeometry (id : nat).
Arguments BufferGeometry {num} _.

Definition geometry_id {num} (g : Geometry num) : nat :=
  match g with
  | BoxGeometry id _ _ _ => id
  | BufferGeometry id => id
  end.

Record Material : Type := { material_id : nat }.

(** [mesh.material] is one material or an array of materials. *)
Inductive MaterialSlot : Type :=
| OneMaterial (m : Material)
| MaterialArray (ms : list Material).

(** [THREE.Object3D]: groups, lights and meshes of the scene graph. *)
#[warnings="-register-all"]
Inductive Object3D (num : Type) : Type :=
| mkObject3D (uuid : nat) (isMesh : bool) (position : Vector3.t num)
    (geometry : option (Geometry num)) (material : option MaterialSlot)
    (children : list (Object3D num)).

Section Object3D_fields.
Context {num : Type}.
Definition uuid (o : Object3D num) := let 'mkObject3D u _ _ _ _ _ := o in u.
Definition isMesh (o : Object3D num) := let 'mkObject3D _ b _ _ _ _ := o in b.
Definition position (o : Object3D num) := let 'mkObject3D _ _ p _ _ _ := o in p.
Definition geometry (o : Object3D num) := let 'mkObject3D _ _ _ g _ _ := o in g.
Definition material (o : Object3D num) := let 'mkObject3D _ _ _ _ m _ := o in m.
Definition children (o : Object3D num) := let 'mkObject3D _ _ _ _ _ c := o in c.
End Object3D_fields.

(** Calls into three.js, in the order the program makes them. *)
Inductive Event : Type :=
| EvRaycast (target : nat)
| EvClone (source clone : nat)
| EvSceneRemove (object : nat)
| EvDisposeGeometry (geometry : nat)
| EvDisposeMaterial (material : nat)
| EvSceneAdd (object : nat).

(** The module-level variables of [app.js], the allocator of object
    identities, and the call log. *)
Record World (num : Type) : Type := {
  scene_children : list (Object3D num);
  currentObject : option (Object3D num);
  voxelsPerUnit : num;
  next_id : nat;
  log : list Event
}.

(** ** The state and error monad *)

Inductive Result (A : Type) : Type :=
| Ok (a : A)
| TypeError
| OutOfFuel.
Arguments TypeError {A}.
Arguments OutOfFuel {A}.

Definition M (num A : Type) : Type := World num -> Result (A * World num).

Definition ret {num A} (a : A) : M num A := fun w => Ok (a, w).

Definition bind {num A B} (c : M num A) (k : A -> M num B) : M num B :=
  fun w => match c w with
           | Ok (a, w') => k a w'
           | TypeError => TypeError
           | OutOfFuel => OutOfFuel
           end.

Notation "x <- c ;; k" := (bind c (fun x => k))
  (at level 61, c at next level, right associativity).
Notation "c ;;; k" := (bind c (fun _ => k))
  (at level 61, right associativity).

Definition throw_TypeError {num A} : M num A := fun _ => TypeError.
Definition gets {num A} (f : World num -> A) : M num A := fun w => Ok (f w, w).
Definition modify {num} (f : World num -> World num) : M num unit :=
  fun w => Ok (tt, f w).

(** ** JavaScript arrays *)

(** An array with holes; [None] is a slot that reads [undefined]. *)
Definition Array (A : Type) : Type := list (option A).

Definition arr_get {A} (a : Array A) (i : nat) : option A :=
  match nth_error a i with
  | Some (Some v) => Some v
  | _ => None
  end.

(** [a[i] = v]: overwrites inside the array, and extends it (leaving
    holes) when [i] is at or beyond its length. *)
Fixpoint arr_set {A} (i : nat) (v : A) (a : Array A) : Array A :=
  match i, a with
  | O, [] => [Some v]
  | O, _ :: t => Some v :: t
  | S i', [] => None :: arr_set i' v []
  | S i', h :: t => h :: arr_set i' v t
  end.

Definition Grid (num : Type) : Type := Array (Array (Array (Cell.t num))).

(** ** The program *)

Section Program.
Context {num : Type} {NUM : Number num}.
Local Open Scope num_scope.

(** *** three.js *)

(** The two geometric queries of three.js that depend on the triangles
    of the model are parameters: the world-space bounding box of an
    object, and the intersections of a ray (origin, direction) with an
    object and its descendants. *)
Variable Box3_setFromObject : Object3D num -> Box3.t num.
Variable Raycaster_intersectObject :
  Vector3.t num -> Vector3.t num -> Object3D num -> list (Intersection num).

(** [Box3.isEmpty] and [Box3.getSize], as three.js defines them. *)
Definition Box3_isEmpty (b : Box3.t num) : bool :=
  (Vector3.x (Box3.max b) <? Vector3.x (Box3.min b))
  || (Vector3.y (Box3.max b) <? Vector3.y (Box3.min b))
  || (Vector3.z (Box3.max b) <? Vector3.z (Box3.min b)).

Definition Box3_getSize (b : Box3.t num) : Vector3.t num :=
  if Box3_isEmpty b
  then Vector3.new (of_nat 0) (of_nat 0) (of_nat 0)
  else Vector3.new (Vector3.x (Box3.max b) - Vector3.x (Box3.min b))
                   (Vector3.y (Box3.max b) - Vector3.y (Box3.min b))
                   (Vector3.z (Box3.max b) - Vector3.z (Box3.min b)).

Definition log_event (e : Event) : M num unit :=
  modify (fun w => {| scene_children := scene_children w;
                      currentObject := currentObject w;
                      voxelsPerUnit := voxelsPerUnit w;
                      next_id := next_id w;
                      log := log w ++ [e] |}).

Definition set_scene_children (cs : list (Object3D num)) : M num unit :=
  modify (fun w => {| scene_children := cs;
                      currentObject := currentObject w;
                      voxelsPerUnit := voxelsPerUnit w;
                      next_id := next_id w;
                      log := log w |}).

(** The identity of a newly constructed object. *)
Definition fresh : M num nat :=
  fun w => Ok (next_id w,
               {| scene_children := scene_children w;
                  currentObject := currentObject w;
                  voxelsPerUnit := voxelsPerUnit w;
                  next_id := S (next_id w);
                  log := log w |}).

(** [raycaster.set(origin, direction);
    raycaster.intersectObject(currentObject, true)].  With
    [currentObject] undefined three.js dereferences it and throws. *)
Definition intersectObject (origin direction : Vector3.t num)
  : M num (list (Intersection num)) :=
  cur <- gets (@currentObject num) ;;
  match cur with
  | None => throw_TypeError
  | Some o =>
      log_event (EvRaycast (uuid o)) ;;;
      ret (Raycaster_intersectObject origin direction o)
  end.

(** [scene.add(object)]. *)
Definition scene_add (o : Object3D num) : M num unit :=
  cs <- gets (@scene_children num) ;;
  set_scene_children (cs ++ [o]) ;;;
  log_event (EvSceneAdd (uuid o)).

(** [scene.remove(object)]: the first child that is this object is
    spliced out; nothing happens when it is not a child. *)
Fixpoint remove_child (u : nat) (cs : list (Object3D num)) : list (Object3D num) :=
  match cs with
  | [] => []
  | c :: cs' => if Nat.eqb (uuid c) u then cs' else c :: remove_child u cs'
  end.

Definition scene_remove (o : Object3D num) : M num unit :=
  cs <- gets (@scene_children num) ;;
  set_scene_children (remove_child (uuid o) cs) ;;;
  log_event (EvSceneRemove (uuid o)).

(** [object.position.set(x, y, z)] on an object that the scene holds:
    the scene sees the mutation. *)
Definition with_position (p : Vector3.t num) (o : Object3D num) : Object3D num :=
  let 'mkObject3D u b _ g m cs := o in mkObject3D u b p g m cs.

Definition position_set (o : Object3D num) (p : Vector3.t num) : M num unit :=
  cs <- gets (@scene_children num) ;;
  set_scene_children
    (map (fun c => if Nat.eqb (uuid c) (uuid o) then with_position p c else c) cs).

(** [array.forEach(callback)]. *)
Fixpoint forEach {A} (l : list A) (callback : A -> M num unit) : M num unit :=
  match l with
  | [] => ret tt
  | a :: l' => callback a ;;; forEach l' callback
  end.

(** [object.traverse(callback)]: the callback is run on the object and
    then, recursively, on its children in order.  The variable that the
    callback assigns is threaded as an accumulator. *)
Fixpoint traverse {A} (callback : Object3D num -> A -> M num A)
    (o : Object3D num) (acc : A) : M num A :=
  acc' <- callback o acc ;;
  (fix each (cs : list (Object3D num)) (a : A) : M num A :=
     match cs with
     | [] => ret a
     | c :: cs' => a' <- traverse callback c a ;; each cs' a'
     end)
    (match o with mkObject3D _ _ _ _ _ cs => cs end) acc'.

(** [for (let i = start; i <= bound; i++) body]: the loop variable is
    an integer-valued number; [a] collects what the body assigns. *)
Fixpoint for_le {A} (fuel : nat) (i : nat) (bound : num)
    (body : nat -> A -> M num A) (a : A) : M num A :=
  match fuel with
  | O => fun _ => OutOfFuel
  | S fuel' =>
      if of_nat i <=? bound
      then a' <- body i a ;; for_le fuel' (S i) bound body a'
      else ret a
  end.

(** Reading [array[i]] to dereference it: [undefined] throws. *)
Definition deref {A} (a : Array A) (i : nat) : M num A :=
  match arr_get a i with
  | Some v => ret v
  | None => throw_TypeError
  end.

(** *** app.js *)

(** [function changeVoxelsPerUnit(size)].  The handler passes the text
    of the selected option; every use of [voxelsPerUnit] is an operand
    of [/] or [*], which convert it to a number, so the variable is
    modelled as holding that number. *)
Definition changeVoxelsPerUnit (size : num) : M num unit :=
  modify (fun w => {| scene_children := scene_children w;
                      currentObject := currentObject w;
                      voxelsPerUnit := size;
                      next_id := next_id w;
                      log := log w |}).

(** [function clearScene()]. *)
Definition dispose_material (m : MaterialSlot) : M num unit :=
  match m with
  | MaterialArray ms =>
      forEach ms (fun m => log_event (EvDisposeMaterial (material_id m)))
  | OneMaterial m => log_event (EvDisposeMaterial (material_id m))
  end.

Definition clearScene : M num unit :=
  snapshot <- gets (@scene_children num) ;;
  forEach snapshot (fun child =>
    if isMesh child then
      scene_remove child ;;;
      match geometry child with
      | Some g => log_event (EvDisposeGeometry (geometry_id g))
      | None => ret tt
      end ;;;
      match material child with
      | Some m => dispose_material m
      | None => ret tt
      end
    else ret tt).

(** [function getDimensions(object)]. *)
Definition getDimensions (object : Object3D num) : M num (Dimensions.t num) :=
  let boundingBoxSize := Box3_getSize (Box3_setFromObject object) in
  ret (Dimensions.mk (Math_ceil (Vector3.x boundingBoxSize))
                     (Math_ceil (Vector3.y boundingBoxSize))
                     (Math_ceil (Vector3.z boundingBoxSize))).

(** [function doesVoxelIntersectObject(x, y, z, size)]. *)
Definition xVector : Vector3.t num := Vector3.new (of_nat 1) (of_nat 0) (of_nat 0).
Definition yVector : Vector3.t num := Vector3.new (of_nat 0) (of_nat 1) (of_nat 0).
Definition zVector : Vector3.t num := Vector3.new (of_nat 0) (of_nat 0) (of_nat 1).

Definition leftFaceCorners (x y z halfSize : num) : list (Vector3.t num) :=
  [ Vector3.new (x - halfSize) (y - halfSize) (z - halfSize);
    Vector3.new (x - halfSize) (y - halfSize) (z + halfSize);
    Vector3.new (x - halfSize) (y + halfSize) (z - halfSize);
    Vector3.new (x - halfSize) (y + halfSize) (z + halfSize) ].

Definition bottomFaceCorners (x y z halfSize : num) : list (Vector3.t num) :=
  [ Vector3.new (x - halfSize) (y - halfSize) (z - halfSize);
    Vector3.new (x + halfSize) (y - halfSize) (z - halfSize);
    Vector3.new (x - halfSize) (y - halfSize) (z + halfSize);
    Vector3.new (x + halfSize) (y - halfSize) (z + halfSize) ].

Definition backFaceCorners (x y z halfSize : num) : list (Vector3.t num) :=
  [ Vector3.new (x - halfSize) (y - halfSize) (z - halfSize);
    Vector3.new (x + halfSize) (y - halfSize) (z - halfSize);
    Vector3.new (x - halfSize) (y + halfSize) (z - halfSize);
    Vector3.new (x + halfSize) (y + halfSize) (z - halfSize) ].

(** [intersects.length > 0 && intersects[0].distance <= size]. *)
Definition first_hit_within (intersects : list (Intersection num)) (size : num) : bool :=
  match intersects with
  | [] => false
  | hit :: _ => distance hit <=? size
  end.

(** One [for (let corner of corners)] loop; [true] is the early
    [return true], [false] means the loop ran to its end. *)
Fixpoint cast_from_corners (corners : list (Vector3.t num))
    (direction : Vector3.t num) (size : num) : M num bool :=
  match corners with
  | [] => ret false
  | corner :: rest =>
      intersects <- intersectObject corner direction ;;
      if first_hit_within intersects size
      then ret true
      else cast_from_corners rest direction size
  end.

Definition doesVoxelIntersectObject (x y z size : num) : M num bool :=
  let halfSize := size / of_nat 2 in
  hit <- cast_from_corners (leftFaceCorners x y z halfSize) xVector size ;;
  if hit then ret true else
  hit <- cast_from_corners (bottomFaceCorners x y z halfSize) yVector size ;;
  if hit then ret true else
  hit <- cast_from_corners (backFaceCorners x y z halfSize) zVector size ;;
  if hit then ret true else
  ret false.

(** [function calculateCoordinates(index, gridSize)]. *)
Definition calculateCoordinates (index gridSize : num) : M num num :=
  vpu <- gets (@voxelsPerUnit num) ;;
  let voxelSize := of_nat 1 / vpu in
  let halfGridSize := gridSize / of_nat 2 in
  let halfVoxelSize := voxelSize / of_nat 2 in
  ret ((index - halfGridSize) * voxelSize + halfVoxelSize).

(** [function calculateGrid(sizeX, sizeY, sizeZ)].  The arrays are
    shared by reference in JavaScript: [grid[i][j][k] = cell] changes
    the array that [grid[i][j]] is, which the value model writes back
    level by level. *)
Definition calculateGrid (fuel : nat) (sizeX sizeY sizeZ : num) : M num (Grid num) :=
  for_le fuel 0 sizeX (fun i grid =>
    let grid := arr_set i [] grid in
    for_le fuel 0 sizeY (fun j grid =>
      grid_i <- deref grid i ;;
      let grid := arr_set i (arr_set j [] grid_i) grid in
      for_le fuel 0 sizeZ (fun k grid =>
        x <- calculateCoordinates (of_nat i) sizeX ;;
        y <- calculateCoordinates (of_nat j) sizeY ;;
        z <- calculateCoordinates (of_nat k) sizeZ ;;
        grid_i <- deref grid i ;;
        grid_ij <- deref grid_i j ;;
        vpu <- gets (@voxelsPerUnit num) ;;
        value <- doesVoxelIntersectObject x y z (of_nat 1 / vpu) ;;
        ret (arr_set i (arr_set j (arr_set k (Cell.mk value x y z) grid_ij) grid_i) grid))
        grid)
      grid)
    [].

(** [new THREE.BoxGeometry(w, h, d)] and [new THREE.Mesh(geometry,
    material)]; an undefined material selects the constructor's default
    parameter, a new [MeshBasicMaterial]. *)
Definition new_BoxGeometry (w h d : num) : M num (Geometry num) :=
  id <- fresh ;; ret (BoxGeometry id w h d).

Definition new_Mesh (g : Geometry num) (m : option Material) : M num (Object3D num) :=
  m' <- match m with
        | Some m => ret m
        | None => id <- fresh ;; ret {| material_id := id |}
        end ;;
  id <- fresh ;;
  ret (mkObject3D id true (Vector3.new (of_nat 0) (of_nat 0) (of_nat 0))
         (Some g) (Some (OneMaterial m')) []).

(** [function drawGrid(sizeX, sizeY, sizeZ, grid, material)]. *)
Definition drawGrid (fuel : nat) (sizeX sizeY sizeZ : num)
    (grid : Grid num) (material : option Material) : M num unit :=
  for_le fuel 0 sizeX (fun i _ =>
    for_le fuel 0 sizeY (fun j _ =>
      for_le fuel 0 sizeZ (fun k _ =>
        grid_i <- deref grid i ;;
        grid_ij <- deref grid_i j ;;
        cell <- deref grid_ij k ;;
        if Cell.value cell then
          vpu <- gets (@voxelsPerUnit num) ;;
          geometry <- new_BoxGeometry (of_nat 1 / vpu) (of_nat 1 / vpu) (of_nat 1 / vpu) ;;
          voxel <- new_Mesh geometry material ;;
          scene_add voxel ;;;
          position_set voxel (Vector3.new (Cell.x cell) (Cell.y cell) (Cell.z cell))
        else ret tt)
        tt)
      tt)
    tt.

(** The callback of [currentObject.traverse] in [voxelize]:
    [if (child.isMesh && child.material) material = child.material.clone()].
    An array has no [clone] method: the call throws. *)
Definition capture_material (child : Object3D num) (captured : option Material)
  : M num (option Material) :=
  if isMesh child then
    match material child with
    | Some (OneMaterial m) =>
        id <- fresh ;;
        log_event (EvClone (material_id m) id) ;;;
        ret (Some {| material_id := id |})
    | Some (MaterialArray _) => throw_TypeError
    | None => ret captured
    end
  else ret captured.

(** [function voxelize()].  [getDimensions(undefined)] and
    [undefined.traverse] throw. *)
Definition voxelize (fuel : nat) : M num unit :=
  cur <- gets (@currentObject num) ;;
  dimensions <- match cur with
                | Some o => getDimensions o
                | None => throw_TypeError
                end ;;
  vpu <- gets (@voxelsPerUnit num) ;;
  let sizeX := Dimensions.x dimensions * vpu in
  let sizeY := Dimensions.y dimensions * vpu in
  let sizeZ := Dimensions.z dimensions * vpu in
  grid <- calculateGrid fuel sizeX sizeY sizeZ ;;
  cur <- gets (@currentObject num) ;;
  material <- match cur with
              | Some o => traverse capture_material o None
              | None => throw_TypeError
              end ;;
  cur <- gets (@currentObject num) ;;
  match cur with
  | Some o => scene_remove o ;;; clearScene
  | None => ret tt
  end ;;;
  drawGrid fuel sizeX sizeY sizeZ grid material.

End Program.


Unset Implicit Arguments.

(** *** app.js, continued: loading a model *)

Section Loader.
Context {num : Type} {NUM : Number num}.
Local Open Scope num_scope.

Variable Box3_setFromObject : Object3D num -> Box3.t num.

(** [Vector3.sub] and [Box3.getCenter], as three.js defines them:
    [getCenter] is [(min + max) * 0.5], and the origin for an empty box.
    The literal [0.5] is the number [1/2]. *)
Definition Vector3_sub (a v : Vector3.t num) : Vector3.t num :=
  Vector3.new (Vector3.x a - Vector3.x v)
              (Vector3.y a - Vector3.y v)
              (Vector3.z a - Vector3.z v).

Definition one_half : num := of_nat 1 / of_nat 2.

Definition Box3_getCenter (b : Box3.t num) : Vector3.t num :=
  if Box3_isEmpty b
  then Vector3.new (of_nat 0) (of_nat 0) (of_nat 0)
  else Vector3.new ((Vector3.x (Box3.min b) + Vector3.x (Box3.max b)) * one_half)
                   ((Vector3.y (Box3.min b) + Vector3.y (Box3.max b)) * one_half)
                   ((Vector3.z (Box3.min b) + Vector3.z (Box3.max b)) * one_half).

Definition set_currentObject (o : option (Object3D num)) : M num unit :=
  modify (fun w => {| scene_children := scene_children w;
                      currentObject := o;
                      voxelsPerUnit := voxelsPerUnit w;
                      next_id := next_id w;
                      log := log w |}).

(** [object.position.sub(v)] changes the object in place: the scene and
    the variable [currentObject] see the new position when they hold
    this object. *)
Definition position_sub (o : Object3D num) (v : Vector3.t num) : M num unit :=
  let p := Vector3_sub (position o) v in
  position_set o p ;;;
  cur <- gets (@currentObject num) ;;
  match cur with
  | Some c =>
      if Nat.eqb (uuid c) (uuid o)
      then set_currentObject (Some (with_position p c))
      else ret tt
  | None => ret tt
  end.

(** [function centerObject(object)]. *)
Definition centerObject (object : Object3D num) : M num unit :=
  let box := Box3_setFromObject object in
  let center := Box3_getCenter box in
  position_sub object center.

(** [const models]: the own properties of the table.  [models[name]]
    is the path of the name when the table has it.  For every other name
    it is a value that is no string: [undefined], or what every
    JavaScript object inherits (a function for [toString], the prototype
    for [__proto__]); [None] stands for these values. *)
Definition models : list (String.string * String.string) :=
  [ ("heart"%string, "/voxelize/models/heart.glb"%string);
    ("romboid"%string, "/voxelize/models/romboid.glb"%string);
    ("ring"%string, "/voxelize/models/ring.glb"%string);
    ("cone"%string, "/voxelize/models/cone.glb"%string);
    ("monkey"%string, "/voxelize/models/monkey.glb"%string);
    ("sphere"%string, "/voxelize/models/sphere.glb"%string) ].

Fixpoint models_get (name : String.string) (table : list (String.string * String.string))
  : option String.string :=
  match table with
  | [] => None
  | (key, path) :: rest => if String.eqb key name then Some path else models_get name rest
  end.

(** [loader.load(path, onLoad)].  [GLTFLoader.load] begins with the base
    of the URL, [url.lastIndexOf('/')], which throws a [TypeError] on a
    value that is no string; on a string it starts the request and
    returns.  The result is the URL requested. *)
Definition loader_load (path : option String.string) : M num String.string :=
  match path with
  | Some url => ret url
  | None => throw_TypeError
  end.

(** [function loadModel(name)], up to the return of [loader.load]; the
    callback runs later, when the file has been read. *)
Definition loadModel (name : String.string) : M num String.string :=
  let path := models_get name models in
  cur <- gets (@currentObject num) ;;
  match cur with
  | Some o => scene_remove o ;;; clearScene
  | None => ret tt
  end ;;;
  loader_load path.

(** The callback that [loadModel] hands to [loader.load], applied to
    [gltf.scene]:
    [currentObject = gltf.scene; centerObject(currentObject);
     scene.add(currentObject)]. *)
Definition loadModel_onLoad (gltf_scene : Object3D num) : M num unit :=
  set_currentObject (Some gltf_scene) ;;;
  cur <- gets (@currentObject num) ;;
  match cur with
  | Some o => centerObject o
  | None => throw_TypeError
  end ;;;
  cur <- gets (@currentObject num) ;;
  match cur with
  | Some o => scene_add o
  | None => ret tt
  end.

End Loader.

(** ** Specification vocabulary *)

Section Specification.
Context {num : Type} {NUM : Number num}.
Local Open Scope num_scope.

Variable Raycaster_intersectObject :
  Vector3.t num -> Vector3.t num -> Object3D num -> list (Intersection num).

(** The world with its call log replaced. *)
Definition with_log (l : list Event) (w : World num) : World num :=
  {| scene_children := scene_children w;
     currentObject := currentObject w;
     voxelsPerUnit := voxelsPerUnit w;
     next_id := next_id w;
     log := l |}.

(** The formula of the Coordinate Mapper, as the specification writes it. *)
Definition coordinate_formula (index gridSize density : num) : num :=
  let voxelSize := of_nat 1 / density in
  (index - gridSize / of_nat 2) * voxelSize + voxelSize / of_nat 2.

(** A ray from [origin] along [direction] hits the surface of [object]
    at a distance of at most [size]. *)
Definition hits_within (object : Object3D num)
    (origin direction : Vector3.t num) (size : num) : Prop :=
  exists hit, In hit (Raycaster_intersectObject origin direction object)
              /\ (distance hit <=? size) = true.

(** The corners of three faces of the cube of edge [size] centred at
    [(x, y, z)]: the left face lies in the plane [x - size/2], the bottom
    face in the plane [y - size/2], the back face in the plane
    [z - size/2]. *)
Definition left_face_corner (x y z size : num) (c : Vector3.t num) : Prop :=
  Vector3.x c = x - size / of_nat 2
  /\ (Vector3.y c = y - size / of_nat 2 \/ Vector3.y c = y + size / of_nat 2)
  /\ (Vector3.z c = z - size / of_nat 2 \/ Vector3.z c = z + size / of_nat 2).

Definition bottom_face_corner (x y z size : num) (c : Vector3.t num) : Prop :=
  Vector3.y c = y - size / of_nat 2
  /\ (Vector3.x c = x - size / of_nat 2 \/ Vector3.x c = x + size / of_nat 2)
  /\ (Vector3.z c = z - size / of_nat 2 \/ Vector3.z c = z + size / of_nat 2).

Definition back_face_corner (x y z size : num) (c : Vector3.t num) : Prop :=
  Vector3.z c = z - size / of_nat 2
  /\ (Vector3.x c = x - size / of_nat 2 \/ Vector3.x c = x + size / of_nat 2)
  /\ (Vector3.y c = y - size / of_nat 2 \/ Vector3.y c = y + size / of_nat 2).

Definition plusX : Vector3.t num := Vector3.new (of_nat 1) (of_nat 0) (of_nat 0).
Definition plusY : Vector3.t num := Vector3.new (of_nat 0) (of_nat 1) (of_nat 0).
Definition plusZ : Vector3.t num := Vector3.new (of_nat 0) (of_nat 0) (of_nat 1).

(** One of the twelve rays hits within [size]. *)
Definition twelve_rays_hit (object : Object3D num) (x y z size : num) : Prop :=
  exists c,
    (left_face_corner x y z size c /\ hits_within object c plusX size)
    \/ (bottom_face_corner x y z size c /\ hits_within object c plusY size)
    \/ (back_face_corner x y z size c /\ hits_within object c plusZ size).

(** three.js returns the intersections sorted by distance, nearest
    first. *)
Definition nearest_first : Prop :=
  forall origin direction object hit rest,
    Raycaster_intersectObject origin direction object = hit :: rest ->
    forall h, In h rest -> (distance hit <=? distance h) = true.

(** The order [<=] of the numbers that occur as distances is transitive. *)
Definition leb_transitive : Prop :=
  forall a b c : num, (a <=? b) = true -> (b <=? c) = true -> (a <=? c) = true.

(** What the rays cast from a list of corners find. *)
Definition any_first_hit (object : Object3D num) (corners : list (Vector3.t num))
    (direction : Vector3.t num) (size : num) : bool :=
  existsb (fun corner =>
             first_hit_within (Raycaster_intersectObject corner direction object) size)
          corners.

(** What the three loops of the sampler find, as a function. *)
Definition sampled (object : Object3D num) (x y z size : num) : bool :=
  any_first_hit object (leftFaceCorners x y z (size / of_nat 2)) xVector size
  || any_first_hit object (bottomFaceCorners x y z (size / of_nat 2)) yVector size
  || any_first_hit object (backFaceCorners x y z (size / of_nat 2)) zVector size.

(** The number of rays that a loop over corners casts: it stops at the
    first ray whose first hit is within [size]. *)
Fixpoint rays_until_hit (object : Object3D num) (corners : list (Vector3.t num))
    (direction : Vector3.t num) (size : num) : nat :=
  match corners with
  | [] => 0
  | corner :: rest =>
      if first_hit_within (Raycaster_intersectObject corner direction object) size
      then 1
      else S (rays_until_hit object rest direction size)
  end.

(** The number of rays that the sampler casts for one cell. *)
Definition rays_cast (object : Object3D num) (x y z size : num) : nat :=
  let halfSize := size / of_nat 2 in
  rays_until_hit object (leftFaceCorners x y z halfSize) xVector size
  + if any_first_hit object (leftFaceCorners x y z halfSize) xVector size then 0
    else rays_until_hit object (bottomFaceCorners x y z halfSize) yVector size
         + if any_first_hit object (bottomFaceCorners x y z halfSize) yVector size then 0
           else rays_until_hit object (backFaceCorners x y z halfSize) zVector size.

(** The world after [n] more ray casts at [object]. *)
Definition after_raycasts (object : Object3D num) (n : nat) (w : World num) : World num :=
  with_log (log w ++ repeat (EvRaycast (uuid object)) n) w.

(** The loop [for (let i = 0; i <= bound; i++)] runs [k] times: its
    test holds for the counters [0 .. k-1] and fails for [k]. *)
Definition trip_count (bound : num) (k : nat) : Prop :=
  (forall i, i < k -> (of_nat i <=? bound) = true)
  /\ (of_nat k <=? bound) = false.

(** [grid[i][j][k]], [None] when any level reads [undefined]. *)
Definition arr_get3 {A : Type} (grid : Array (Array (Array A))) (i j k : nat) : option A :=
  match arr_get grid i with
  | Some grid_i => match arr_get grid_i j with
                   | Some grid_ij => arr_get grid_ij k
                   | None => None
                   end
  | None => None
  end.

(** The dense array of [n] elements [f 0 .. f (n-1)], without holes. *)
Definition dense {A : Type} (n : nat) (f : nat -> A) : Array A :=
  map (fun i => Some (f i)) (seq 0 n).

Definition dense3 {A : Type} (nx ny nz : nat) (f : nat -> nat -> nat -> A)
  : Array (Array (Array A)) :=
  dense nx (fun i => dense ny (fun j => dense nz (fun k => f i j k))).

(** The cells of a grid, in index order, holes skipped. *)
Definition present {A : Type} (a : Array A) : list A :=
  flat_map (fun slot => match slot with Some v => [v] | None => [] end) a.

Definition grid_cells {A : Type} (grid : Array (Array (Array A))) : list A :=
  flat_map (fun grid_i => flat_map (@present A) (present grid_i)) (present grid).

(** The cell that the Grid Builder computes for the index [(i, j, k)]. *)
Definition cell_at (object : Object3D num) (density sizeX sizeY sizeZ : num)
    (i j k : nat) : Cell.t num :=
  let x := coordinate_formula (of_nat i) sizeX density in
  let y := coordinate_formula (of_nat j) sizeY density in
  let z := coordinate_formula (of_nat k) sizeZ density in
  Cell.mk (sampled object x y z (of_nat 1 / density)) x y z.

(** The cells of the index box [kx * ky * kz] of a grid, in the order of
    the loops. *)
Definition cell_list (grid : Grid num) (i j k : nat) : list (Cell.t num) :=
  match arr_get3 grid i j k with
  | Some cell => [cell]
  | None => []
  end.

Definition row_cells (grid : Grid num) (kz i j : nat) : list (Cell.t num) :=
  flat_map (cell_list grid i j) (seq 0 kz).

Definition plane_cells (grid : Grid num) (ky kz i : nat) : list (Cell.t num) :=
  flat_map (row_cells grid kz i) (seq 0 ky).

Definition cells_in (grid : Grid num) (kx ky kz : nat) : list (Cell.t num) :=
  flat_map (plane_cells grid ky kz) (seq 0 kx).

(** The cube that the Voxel Renderer makes for a cell: a mesh of a box
    geometry of edge [1/density] and of the given material, at the
    coordinates of the cell.  [id] and [id + 1] are the identities of the
    geometry and of the mesh. *)
Definition voxel_mesh (density : num) (m : Material) (id : nat) (cell : Cell.t num)
  : Object3D num :=
  mkObject3D (S id) true
    (Vector3.new (Cell.x cell) (Cell.y cell) (Cell.z cell))
    (Some (BoxGeometry id (of_nat 1 / density) (of_nat 1 / density) (of_nat 1 / density)))
    (Some (OneMaterial m)) [].

Fixpoint voxels_from (density : num) (m : Material) (id : nat)
    (cells : list (Cell.t num)) : list (Object3D num) :=
  match cells with
  | [] => []
  | cell :: rest => voxel_mesh density m id cell :: voxels_from density m (id + 2) rest
  end.

(** The world after the Voxel Renderer has gone through the cells
    [done]: one cube per occupied cell has been added to the scene. *)
Definition drawn (m : Material) (done : list (Cell.t num)) (w : World num) : World num :=
  let occupied := filter (@Cell.value num) done in
  let voxels := voxels_from (voxelsPerUnit w) m (next_id w) occupied in
  {| scene_children := scene_children w ++ voxels;
     currentObject := currentObject w;
     voxelsPerUnit := voxelsPerUnit w;
     next_id := next_id w + 2 * length occupied;
     log := log w ++ map (fun voxel => EvSceneAdd (uuid voxel)) voxels |}.

(** Identities are allocated in increasing order: the objects of the
    scene are older than the next identity. *)
Definition scene_ids_allocated (w : World num) : Prop :=
  Forall (fun o => uuid o < next_id w) (scene_children w).

(** The materials of the meshes of an object, in the order in which
    [traverse] visits them. *)
Fixpoint mesh_materials (o : Object3D num) : list MaterialSlot :=
  match o with
  | mkObject3D _ b _ _ m cs =>
      (if b then match m with Some slot => [slot] | None => [] end else [])
      ++ flat_map mesh_materials cs
  end.

(** Cloning the materials one after the other: each clone is a new
    material and replaces the captured one; an array stops the pass. *)
Fixpoint capture_slots (slots : list MaterialSlot) (captured : option Material)
    (w : World num) : Result (option Material * World num) :=
  match slots with
  | [] => Ok (captured, w)
  | OneMaterial m :: rest =>
      capture_slots rest (Some {| material_id := next_id w |})
        {| scene_children := scene_children w;
           currentObject := currentObject w;
           voxelsPerUnit := voxelsPerUnit w;
           next_id := S (next_id w);
           log := log w ++ [EvClone (material_id m) (next_id w)] |}
  | MaterialArray _ :: _ => TypeError
  end.

(** The clones of the materials [ms], made one after the other from the
    identity [id] on. *)
Fixpoint clone_events (id : nat) (ms : list Material) : list Event :=
  match ms with
  | [] => []
  | m :: rest => EvClone (material_id m) id :: clone_events (S id) rest
  end.

(** Every mesh of the object has a single material, and there is one. *)
Definition cloneable (o : Object3D num) : Prop :=
  mesh_materials o <> []
  /\ Forall (fun slot => exists m, slot = OneMaterial m) (mesh_materials o).

(** What [clearScene] does to one child of the scene. *)
Definition clear_events (child : Object3D num) : list Event :=
  if isMesh child then
    EvSceneRemove (uuid child)
    :: match geometry child with
       | Some g => [EvDisposeGeometry (geometry_id g)]
       | None => []
       end
    ++ match material child with
       | Some (MaterialArray ms) => map (fun m => EvDisposeMaterial (material_id m)) ms
       | Some (OneMaterial m) => [EvDisposeMaterial (material_id m)]
       | None => []
       end
  else [].

Definition cleared_children (snapshot cs : list (Object3D num)) : list (Object3D num) :=
  fold_left (fun cs child => if isMesh child then remove_child (uuid child) cs else cs)
            snapshot cs.

(** The world after [scene.remove(object); clearScene()]. *)
Definition cleared_world (object : Object3D num) (w : World num) : World num :=
  let rest := remove_child (uuid object) (scene_children w) in
  {| scene_children := cleared_children rest rest;
     currentObject := currentObject w;
     voxelsPerUnit := voxelsPerUnit w;
     next_id := next_id w;
     log := (log w ++ [EvSceneRemove (uuid object)]) ++ flat_map clear_events rest |}.

(** The children of the scene are distinct objects, as three.js keeps
    them: [add] detaches an object before it attaches it. *)
Definition distinct_children (w : World num) : Prop :=
  NoDup (map (@uuid num) (scene_children w)).

(** The children that are no meshes: lights and groups. *)
Definition not_meshes (cs : list (Object3D num)) : list (Object3D num) :=
  filter (fun c => negb (isMesh c)) cs.

(** The object as [centerObject] leaves it. *)
Definition centered (box : Object3D num -> Box3.t num) (o : Object3D num) : Object3D num :=
  with_position (Vector3_sub (position o) (Box3_getCenter (box o))) o.

(** The bounding box of an object follows the object when it is moved:
    three.js computes it from the world matrix, and the loaded object
    has no parent. *)
Definition Vector3_add (a v : Vector3.t num) : Vector3.t num :=
  Vector3.new (Vector3.x a + Vector3.x v)
              (Vector3.y a + Vector3.y v)
              (Vector3.z a + Vector3.z v).

Definition Box3_translate (v : Vector3.t num) (b : Box3.t num) : Box3.t num :=
  Box3.new (Vector3_add (Box3.min b) v) (Vector3_add (Box3.max b) v).

Definition box_follows_position (box : Object3D num -> Box3.t num) : Prop :=
  forall (o : Object3D num) (p : Vector3.t num),
    box (with_position p o) = Box3_translate (Vector3_sub p (position o)) (box o).

Definition is_raycast (e : Event) : Prop := exists u, e = EvRaycast u.
Definition is_clone (e : Event) : Prop := exists a b, e = EvClone a b.
Definition is_add (e : Event) : Prop := exists u, e = EvSceneAdd u.
Definition is_dispose (e : Event) : Prop :=
  exists r, e = EvDisposeGeometry r \/ e = EvDisposeMaterial r.

(** The extent of the grid on an axis: the dimension, which is the
    ceiling of the size of the bounding box, times the density. *)
Definition extent (size density : num) : num := Math_ceil size * density.

(** The worlds that differ from [w] by ray casts at its current object. *)
Definition sampled_from (w w' : World num) : Prop :=
  exists n, w' = with_log (log w ++ repeat (EvRaycast
                                             match currentObject w with
                                             | Some o => uuid o
                                             | None => 0%nat
                                             end) n) w.

(** The worlds that differ from [w] in the log by additions to the
    scene. *)
Definition rendered_from (w w' : World num) : Prop :=
  exists adds, log w' = log w ++ adds /\ Forall is_add adds.

(** The worlds that have grown from [w]: the current object is the one
    of [w], and the children of the scene that [w] did not have are
    newer than every object of [w]. *)
Definition grown_from (w w' : World num) : Prop :=
  currentObject w' = currentObject w
  /\ (next_id w <= next_id w')%nat
  /\ Forall (fun o => In (uuid o) (map (@uuid num) (scene_children w))
                      \/ (next_id w <= uuid o)%nat)
            (scene_children w').

(** The value a computation returns from a world, when it returns. *)
Definition eval {A : Type} (c : M num A) (w : World num) : option A :=
  match c w with
  | Ok (a, _) => Some a
  | _ => None
  end.

End Specification.

(** A world with nothing loaded, for statements about the Coordinate
    Mapper, which reads the density only. *)
Definition empty_world {num : Type} (density : num) : World num :=
  {| scene_children := [];
     currentObject := None;
     voxelsPerUnit := density;
     next_id := 0;
     log := [] |}.

(** [Math.ceil] is exact: the ceiling of a finite number is a number,
    and [Math.ceil] returns it. *)
Definition ceil_exact (num : Type) {NUM : Number num} {VAL : Valued num} : Prop :=
  forall (s : num) (q : Q),
    to_Q s = Some q ->
    exists r, to_Q (Math_ceil s) = Some r /\ (r == inject_Z (Qceiling q))%Q.

(** [d] is the ceiling of the size [s]: it is [s] when [s] is an integer
    and [floor(s) + 1] when it is not, and it is at least [s]. *)
Definition ceiling_of {num : Type} {VAL : Valued num} (s d : num) : Prop :=
  forall q : Q,
    to_Q s = Some q ->
    exists r : Q,
      to_Q d = Some r
      /\ (r == inject_Z (Qceiling q))%Q
      /\ ((inject_Z (Qfloor q) == q)%Q -> (r == q)%Q)
      /\ (~ (inject_Z (Qfloor q) == q)%Q -> (r == inject_Z (Qfloor q + 1))%Q)
      /\ (q <= r)%Q.

(** The subtraction [hi - lo] is exact: its result is the difference of
    the two numbers.  It is in exact arithmetic; in doubles it is when
    the difference is a double. *)
Definition exact_difference {num : Type} {NUM : Number num} {VAL : Valued num}
    (lo hi : num) : Prop :=
  forall a b : Q,
    to_Q lo = Some a -> to_Q hi = Some b ->
    exists q : Q, to_Q (hi - lo)%num = Some q /\ (q == b - a)%Q.

(** [d] is at least the true extent of the interval from [lo] to [hi],
    the difference of the two numbers. *)
Definition covers_extent {num : Type} {VAL : Valued num} (lo hi d : num) : Prop :=
  forall a b : Q,
    to_Q lo = Some a -> to_Q hi = Some b ->
    exists r : Q, to_Q d = Some r /\ (b - a <= r)%Q.

(** ** Scenarios *)

(** A model whose surface is that of an axis-aligned box: a group with
    one mesh (geometry 3, material 4), next to a light, in a scene of
    density [d].  The ray query reports the first point where an axis ray
    meets the surface of the box. *)
Section Scenario.
Context {num : Type} {NUM : Number num}.
Local Open Scope num_scope.

Definition box_first_hit (lo hi : Vector3.t num)
    (origin direction : Vector3.t num) (_ : Object3D num) : list (Intersection num) :=
  let inside (a l h : num) := (l <=? a) && (a <=? h) in
  let first (c l h : num) :=
    if c <=? l then [ {| distance := l - c |} ]
    else if c <=? h then [ {| distance := h - c |} ]
    else [] in
  if of_nat 1 <=? Vector3.x direction then
    if inside (Vector3.y origin) (Vector3.y lo) (Vector3.y hi)
       && inside (Vector3.z origin) (Vector3.z lo) (Vector3.z hi)
    then first (Vector3.x origin) (Vector3.x lo) (Vector3.x hi) else []
  else if of_nat 1 <=? Vector3.y direction then
    if inside (Vector3.x origin) (Vector3.x lo) (Vector3.x hi)
       && inside (Vector3.z origin) (Vector3.z lo) (Vector3.z hi)
    then first (Vector3.y origin) (Vector3.y lo) (Vector3.y hi) else []
  else
    if inside (Vector3.x origin) (Vector3.x lo) (Vector3.x hi)
       && inside (Vector3.y origin) (Vector3.y lo) (Vector3.y hi)
    then first (Vector3.z origin) (Vector3.z lo) (Vector3.z hi) else [].

Definition origin3 : Vector3.t num := Vector3.new (of_nat 0) (of_nat 0) (of_nat 0).

Definition light : Object3D num := mkObject3D 0 false origin3 None None [].

Definition model : Object3D num :=
  mkObject3D 1 false origin3 None None
    [ mkObject3D 2 true origin3 (Some (BufferGeometry 3))
        (Some (OneMaterial {| material_id := 4 |})) [] ].

Definition model_world (density : num) : World num :=
  {| scene_children := [light; model];
     currentObject := Some model;
     voxelsPerUnit := density;
     next_id := 5;
     log := [] |}.

(** A cube as the Voxel Renderer leaves it in the scene, and a scene
    after a pass: the light and two cubes that share a material. *)
Definition cube (gid mid : nat) : Object3D num :=
  mkObject3D (S gid) true origin3
    (Some (BoxGeometry gid (of_nat 1) (of_nat 1) (of_nat 1)))
    (Some (OneMaterial {| material_id := mid |})) [].

Definition cubes_world (density : num) : World num :=
  {| scene_children := [light; cube 6 5; cube 8 5];
     currentObject := Some model;
     voxelsPerUnit := density;
     next_id := 10;
     log := [] |}.

(** The scene before a model is loaded, and the world when a model has
    been read and not yet shown. *)
Definition start_world (density : num) : World num :=
  {| scene_children := [light];
     currentObject := None;
     voxelsPerUnit := density;
     next_id := 5;
     log := [] |}.

Definition detached_world (density : num) : World num :=
  {| scene_children := [light];
     currentObject := Some model;
     voxelsPerUnit := density;
     next_id := 5;
     log := [] |}.

(** A second model, a model of two meshes, and a model whose mesh has an
    array of materials. *)
Definition other_model : Object3D num :=
  mkObject3D 5 false origin3 None None
    [ mkObject3D 6 true origin3 (Some (BufferGeometry 7))
        (Some (OneMaterial {| material_id := 8 |})) [] ].

Definition two_mesh_model : Object3D num :=
  mkObject3D 1 false origin3 None None
    [ mkObject3D 2 true origin3 (Some (BufferGeometry 3))
        (Some (OneMaterial {| material_id := 4 |})) [];
      mkObject3D 5 true origin3 (Some (BufferGeometry 6))
        (Some (OneMaterial {| material_id := 7 |})) [] ].

Definition array_model : Object3D num :=
  mkObject3D 1 false origin3 None None
    [ mkObject3D 2 true origin3 (Some (BufferGeometry 3))
        (Some (MaterialArray [ {| material_id := 4 |}; {| material_id := 5 |} ])) [] ].

Definition world_of (o : Object3D num) (density : num) : World num :=
  {| scene_children := [light; o];
     currentObject := Some o;
     voxelsPerUnit := density;
     next_id := 10;
     log := [] |}.

Definition corner (a b c : nat) : Vector3.t num :=
  Vector3.new (of_nat a) (of_nat b) (of_nat c).

(** A bounding box that follows the position of the object: the box
    [[lo, hi]] about the position. *)
Definition box_about (lo hi : Vector3.t num) (o : Object3D num) : Box3.t num :=
  Box3.new (Vector3_add lo (position o)) (Vector3_add hi (position o)).

End Scenario.

(** The unit cube centred at the origin, a plate of zero thickness in
    the plane [z = 0], and a block of size [1.5 x 1 x 0.25]. *)
Definition unit_cube_lo : Vector3.t float :=
  Vector3.new (-0.5)%float (-0.5)%float (-0.5)%float.
Definition unit_cube_hi : Vector3.t float := Vector3.new 0.5%float 0.5%float 0.5%float.
Definition plate_lo : Vector3.t float := Vector3.new (-0.5)%float (-0.5)%float 0%float.
Definition plate_hi : Vector3.t float := Vector3.new 0.5%float 0.5%float 0%float.
Definition block_lo : Vector3.t float := Vector3.new 0%float 0%float 0%float.
Definition block_hi : Vector3.t float := Vector3.new 1.5%float 1%float 0.25%float.

(** Two consecutive coordinates of an axis in doubles, for the density
    [d] and the grid size [g]: the second is above the first, and their
    difference is within [tol] of [1/d]. *)
Definition spacing_within (tol : Q) (d g i : nat) : bool :=
  let c0 := coordinate_formula (num := float) (of_nat i) (of_nat g) (of_nat d) in
  let c1 := coordinate_formula (num := float) (of_nat (S i)) (of_nat g) (of_nat d) in
  (c0 <? c1)%num
  && match to_Q c0, to_Q c1 with
     | Some q0, Some q1 => Qle_bool (Qabs (q1 - q0 - (1 # Pos.of_nat d))%Q) tol
     | _, _ => false
     end.

(** The same for every density from 1 to [D], every grid size up to [G]
    and every index of the grid but the last. *)
Definition spacing_within_upto (tol : Q) (D G : nat) : bool :=
  forallb (fun d =>
    forallb (fun g =>
      forallb (spacing_within tol d g) (seq 0 g))
      (seq 0 (S G)))
    (seq 1 D).

(** The smallest positive double, and a grid size of [2^60] cells. *)
Definition tiny_density : float := 0x1p-1074%float.
Definition huge_gridSize : float := 0x1p+60%float.

(** A bar from [x = 0.1] to [x = 3.1], the doubles nearest to the two
    decimals; the difference of the two doubles is [3 + 3/2^55]. *)
Definition bar_lo : Vector3.t float :=
  Vector3.new 0x1.999999999999ap-4%float 0%float 0%float.
Definition bar_hi : Vector3.t float :=
  Vector3.new 0x1.8cccccccccccdp+1%float 1%float 1%float.

Definition box_of (lo hi : Vector3.t float) (_ : Object3D float) : Box3.t float :=
  Box3.new lo hi.

(** A group without children, the box that three.js computes for an
    object without geometry ([Box3.makeEmpty]: from [+Infinity] to
    [-Infinity]), and a ray caster that hits nothing. *)
Definition empty_group : Object3D float := mkObject3D 1 false origin3 None None [].

Definition empty_box (_ : Object3D float) : Box3.t float :=
  Box3.new (Vector3.new infinity infinity infinity)
           (Vector3.new neg_infinity neg_infinity neg_infinity).

Definition no_hit (_ _ : Vector3.t float) (_ : Object3D float)
  : list (Intersection float) := [].

(** A grid of one row of two cells, the first occupied. *)
Definition two_cells : Grid float :=
  [ Some [ Some [ Some (Cell.mk true 0%float 0%float 0%float);
                  Some (Cell.mk false 0%float 0%float 1%float) ] ] ].

(** ** Proofs *)

(** *** Doubles *)

(** The order of doubles is transitive. *)
Lemma SFleb_trans (x y z : spec_float) :
  SFleb x y = true -> SFleb y z = true -> SFleb x z = true.
Proof.
  unfold SFleb, SFcompare.
  destruct x as [sx|sx| |sx mx ex], y as [sy|sy| |sy my ey], z as [sz|sz| |sz mz ez];
    try destruct sx; try destruct sy; try destruct sz; simpl;
    try reflexivity; try discriminate.
  all: change (Pos.compare_cont Eq) with Pos.compare.
  all: destruct (Z.compare_spec ex ey), (Z.compare_spec ey ez), (Z.compare_spec ex ez);
      try lia; simpl; try reflexivity; try discriminate; subst.
  all: destruct (Pos.compare_spec mx my), (Pos.compare_spec my mz), (Pos.compare_spec mx mz);
      try lia; simpl; try reflexivity; try discriminate.
Qed.

Lemma float_leb_transitive : leb_transitive (num := float).
Proof.
  intros a b c. simpl. rewrite !FloatAxioms.leb_spec. apply SFleb_trans.
Qed.

(** The strict order of doubles is transitive and irreflexive. *)
Lemma SFltb_trans (x y z : spec_float) :
  SFltb x y = true -> SFltb y z = true -> SFltb x z = true.
Proof.
  unfold SFltb, SFcompare.
  destruct x as [sx|sx| |sx mx ex], y as [sy|sy| |sy my ey], z as [sz|sz| |sz mz ez];
    try destruct sx; try destruct sy; try destruct sz; simpl;
    try reflexivity; try discriminate.
  all: change (Pos.compare_cont Eq) with Pos.compare.
  all: destruct (Z.compare_spec ex ey), (Z.compare_spec ey ez), (Z.compare_spec ex ez);
      try lia; simpl; try reflexivity; try discriminate; subst.
  all: destruct (Pos.compare_spec mx my), (Pos.compare_spec my mz), (Pos.compare_spec mx mz);
      try lia; simpl; try reflexivity; try discriminate.
Qed.

Lemma SFltb_irrefl (x : spec_float) : SFltb x x = false.
Proof.
  unfold SFltb, SFcompare.
  destruct x as [s|s| |s m e]; try destruct s; simpl; try reflexivity.
  all: rewrite Z.compare_refl; change (Pos.compare_cont Eq) with Pos.compare;
    rewrite Pos.compare_refl; reflexivity.
Qed.

Lemma float_ltb_trans (a b c : float) :
  PrimFloat.ltb a b = true -> PrimFloat.ltb b c = true -> PrimFloat.ltb a c = true.
Proof. rewrite !FloatAxioms.ltb_spec. apply SFltb_trans. Qed.

Lemma float_ltb_irrefl (a : float) : PrimFloat.ltb a a = false.
Proof. rewrite FloatAxioms.ltb_spec. apply SFltb_irrefl. Qed.

(** Bits of integers. *)
Lemma digits2_pos_size (p : positive) : digits2_pos p = Pos.size p.
Proof. induction p; simpl; congruence. Qed.

Lemma shift_pos_succ (k n : positive) : shift_pos (Pos.succ k) n = xO (shift_pos k n).
Proof. unfold shift_pos. apply Pos.iter_succ. Qed.

Lemma digits2_pos_shift (k n : positive) :
  digits2_pos (shift_pos k n) = (digits2_pos n + k)%positive.
Proof.
  induction k using Pos.peano_ind.
  - simpl. rewrite Pos.add_1_r. reflexivity.
  - rewrite shift_pos_succ. simpl. rewrite IHk. lia.
Qed.

Lemma shift_pos_value (k n : positive) : shift_pos k n = (n * 2 ^ k)%positive.
Proof.
  induction k using Pos.peano_ind.
  - simpl. lia.
  - rewrite shift_pos_succ, IHk, Pos.pow_succ_r. lia.
Qed.


Lemma digits2_pos_bound (n : positive) (d : positive) :
  (Zpos n < 2 ^ Zpos d)%Z -> (Zpos (digits2_pos n) <= Zpos d)%Z.
Proof.
  intros Hn. rewrite digits2_pos_size.
  pose proof (Pos.size_le n) as Hle.
  assert (H2 : (2 ^ Zpos (Pos.size n) <= 2 * Zpos n)%Z).
  { change 2%Z with (Zpos 2) at 1. rewrite <- Pos2Z.inj_pow. lia. }
  assert (H3 : (2 ^ Zpos (Pos.size n) < 2 ^ (Zpos d + 1))%Z).
  { rewrite Z.pow_add_r by lia. lia. }
  apply Z.pow_lt_mono_r_iff in H3; lia.
Qed.

Lemma valid_binary_normal (s : bool) (m : positive) (e : Z) :
  Zpos (digits2_pos m) = 53%Z -> (-52 <= e <= 0)%Z ->
  valid_binary (S754_finite s m e) = true.
Proof.
  intros Hd He.
  unfold SpecFloat.valid_binary, bounded, canonical_mantissa, fexp, emin, prec, emax.
  apply andb_true_iff. split; [apply Z.eqb_eq | apply Z.leb_le]; lia.
Qed.



Lemma canonical_valid (s : bool) (p : positive) :
  (Zpos p < 2 ^ 53)%Z -> valid_binary (canonical s p) = true.
Proof.
  intros Hp. pose proof (digits2_pos_bound p 53 Hp) as Hd. unfold canonical.
  destruct (53 - Zpos (digits2_pos p))%Z as [|k|k] eqn:Hk; try lia;
    apply valid_binary_normal; try rewrite digits2_pos_shift; lia.
Qed.

Lemma canonical_finite (s : bool) (p : positive) :
  exists m e, canonical s p = S754_finite s m e.
Proof.
  unfold canonical. destruct (53 - Zpos (digits2_pos p))%Z; eexists _, _; reflexivity.
Qed.

Lemma canonical_value (s : bool) (p : positive) :
  exists r, SF2Q (canonical s p) = Some r /\ (r == signed s (inject_Z (Zpos p)))%Q.
Proof.
  unfold canonical. destruct (53 - Zpos (digits2_pos p))%Z as [|k|k].
  - eexists. split; reflexivity.
  - eexists. split; [reflexivity|].
    assert (Hq : (Zpos (shift_pos k p) # 2 ^ k == inject_Z (Zpos p))%Q).
    { unfold Qeq, inject_Z. simpl. rewrite shift_pos_value. lia. }
    unfold signed. destruct s; rewrite Hq; reflexivity.
  - eexists. split; reflexivity.
Qed.

(** What [Z2F] builds decodes to the normal form. *)
Lemma Prim2SF_Z2F (s : bool) (z : Z) :
  (Z.abs z < 2 ^ 53)%Z ->
  Prim2SF (Z2F s z) = match z with
                      | Z0 => S754_zero s
                      | Zpos n | Zneg n => canonical s n
                      end.
Proof.
  intros Hz. destruct z as [|n|n]; simpl Z.abs in Hz; unfold Z2F.
  - destruct s; reflexivity.
  - apply Prim2SF_SF2Prim, canonical_valid. exact Hz.
  - apply Prim2SF_SF2Prim, canonical_valid. exact Hz.
Qed.

Lemma Z2F_value (s : bool) (z : Z) :
  (Z.abs z < 2 ^ 53)%Z ->
  exists r, SF2Q (Prim2SF (Z2F s z)) = Some r /\ (r == signed s (inject_Z (Z.abs z)))%Q.
Proof.
  intros Hz. rewrite Prim2SF_Z2F by exact Hz. destruct z as [|n|n]; simpl Z.abs.
  - exists 0%Q. split; [reflexivity | destruct s; reflexivity].
  - apply canonical_value.
  - apply canonical_value.
Qed.

Lemma finite_mantissa_bound (x : float) (s : bool) (m : positive) (e : Z) :
  Prim2SF x = S754_finite s m e -> (Zpos m < 2 ^ 53)%Z.
Proof.
  intros E. pose proof (Prim2SF_valid x) as Hv. rewrite E in Hv.
  unfold SpecFloat.valid_binary, bounded, canonical_mantissa, fexp, emin, prec, emax in Hv.
  apply andb_true_iff in Hv as [Hc _]. apply Z.eqb_eq in Hc.
  assert (Hd : (Zpos (digits2_pos m) <= 53)%Z) by lia.
  rewrite digits2_pos_size in Hd.
  pose proof (Pos.size_gt m) as Hgt.
  assert (H1 : (Zpos m < 2 ^ Zpos (Pos.size m))%Z).
  { change 2%Z with (Zpos 2). rewrite <- Pos2Z.inj_pow. lia. }
  eapply Z.lt_le_trans; [exact H1|]. apply Z.pow_le_mono_r; lia.
Qed.

Lemma Qceiling_int (z : Z) : Qceiling (z # 1) = z.
Proof. apply (Qceiling_Z z). Qed.

Lemma Qceiling_opp_int (z : Z) : Qceiling (- (z # 1)) = (- z)%Z.
Proof. apply (Qceiling_Z (- z)). Qed.

(** [Math.ceil] on a double with a fractional part: the integer it
    returns is below [2^53] and on the side of zero that the sign says. *)
Lemma float_ceil_fraction (x : float) (s : bool) (m p : positive) :
  Prim2SF x = S754_finite s m (Zneg p) ->
  let z := Qceiling (if s then (- (Zpos m # 2 ^ p))%Q else (Zpos m # 2 ^ p)%Q) in
  float_ceil x = Z2F s z
  /\ (Z.abs z < 2 ^ 53)%Z
  /\ (if s then z <= 0 else 1 <= z)%Z.
Proof.
  intros E z. pose proof (finite_mantissa_bound x s m _ E) as Hm.
  split; [unfold float_ceil; rewrite E; reflexivity|].
  assert (Hz : (if s then - Zpos m <= z <= 0 else 1 <= z <= Zpos m)%Z).
  { subst z. unfold Qceiling, Qfloor.
    destruct s; cbv [Qopp Qnum Qden]; cbv beta iota zeta; cbn [Z.opp].
    - assert (0 <= Zpos m / Zpos (2 ^ p) <= Zpos m)%Z; [|lia].
      split; [apply Z.div_pos; lia|].
      apply Z.div_le_upper_bound; [lia|]. nia.
    - assert (- Zpos m <= Zneg m / Zpos (2 ^ p) <= -1)%Z; [|lia].
      split.
      + apply Z.div_le_lower_bound; [lia|]. nia.
      + assert (Zneg m / Zpos (2 ^ p) < 0)%Z; [|lia].
        apply Z.div_lt_upper_bound; lia. }
  destruct s; lia.
Qed.

(** [Math.ceil] is exact on doubles. *)
Lemma float_ceil_exact (x : float) (q : Q) :
  SF2Q (Prim2SF x) = Some q ->
  exists r, SF2Q (Prim2SF (float_ceil x)) = Some r /\ (r == inject_Z (Qceiling q))%Q.
Proof.
  destruct (Prim2SF x) as [s|s| |s m e] eqn:E; try discriminate.
  - intros [= <-]. unfold float_ceil. rewrite !E. exists 0%Q. split; reflexivity.
  - destruct e as [|p|p]; intros [= <-].
    + unfold float_ceil. rewrite !E. eexists. split; [reflexivity|].
      destruct s; cbv beta iota zeta.
      * rewrite Qceiling_opp_int. reflexivity.
      * rewrite Qceiling_int. reflexivity.
    + unfold float_ceil. rewrite !E. eexists. split; [reflexivity|].
      destruct s; cbv beta iota zeta.
      * rewrite Qceiling_opp_int. reflexivity.
      * rewrite Qceiling_int. reflexivity.
    + destruct (float_ceil_fraction x s m p E) as (-> & Habs & Hsign).
      destruct (Z2F_value s _ Habs) as (r & Hr & Hreq).
      exists r. split; [exact Hr|]. rewrite Hreq. unfold signed.
      destruct s.
      * rewrite Z.abs_neq by lia. unfold Qopp, inject_Z. simpl. rewrite Z.opp_involutive.
        reflexivity.
      * rewrite Z.abs_eq by lia. reflexivity.
Qed.

Lemma float_ceil_is_exact : ceil_exact float.
Proof. intros s q. apply float_ceil_exact. Qed.

(** Integers as doubles: the loop counters below [2^53] are exact, and
    they compare as the integers do. *)
Lemma binary_round_aux_exact (m : positive) (e : Z) :
  Zpos (digits2_pos m) = 53%Z -> (-1074 <= e <= 971)%Z ->
  binary_round_aux prec emax false (Zpos m) e loc_Exact = S754_finite false m e.
Proof.
  intros Hd He. unfold binary_round_aux, shr_fexp.
  cbn [Zdigits2 shr_record_of_loc].
  assert (Hf : (fexp prec emax (Zpos (digits2_pos m) + e) - e = 0)%Z).
  { unfold fexp, emin, prec, emax. lia. }
  rewrite Hf. cbn [shr shr_m loc_of_shr_record round_nearest_even Zdigits2 shr_record_of_loc].
  rewrite Hf. cbn [shr shr_m].
  destruct (Z.leb_spec e (emax - prec)) as [_ | Hgt]; [reflexivity|].
  unfold emax, prec in Hgt. lia.
Qed.

Lemma Prim2SF_of_pos (p : positive) :
  (Zpos p < 2 ^ 53)%Z ->
  Prim2SF (PrimFloat.of_uint63 (Uint63.of_Z (Zpos p))) = canonical false p.
Proof.
  intros Hp. rewrite of_uint63_spec, Uint63.of_Z_spec.
  rewrite Z.mod_small by (unfold wB; simpl; lia).
  unfold binary_normalize, binary_round, canonical.
  pose proof (digits2_pos_bound p 53 Hp) as Hd.
  assert (Hf : fexp prec emax (Zpos (digits2_pos p) + 0) = (Zpos (digits2_pos p) - 53)%Z).
  { unfold fexp, emin, prec, emax. lia. }
  rewrite Hf. unfold shl_align.
  destruct (53 - Zpos (digits2_pos p))%Z as [|k|k] eqn:Hk; try lia.
  - replace (Zpos (digits2_pos p) - 53 - 0)%Z with 0%Z by lia.
    apply binary_round_aux_exact; lia.
  - replace (Zpos (digits2_pos p) - 53 - 0)%Z with (Zneg k) by lia.
    fold (shift_pos k p).
    replace (Zpos (digits2_pos p) - 53)%Z with (Zneg k) by lia.
    apply binary_round_aux_exact; [rewrite digits2_pos_shift|]; lia.
Qed.

Lemma size_lt_lt (p q : positive) :
  (Pos.size p < Pos.size q)%positive -> (p < q)%positive.
Proof.
  intros Hs.
  pose proof (Pos.size_gt p) as Hp. pose proof (Pos.size_le q) as Hq.
  assert (Hp' : (Zpos p < 2 ^ Zpos (Pos.size p))%Z).
  { change 2%Z with (Zpos 2). rewrite <- Pos2Z.inj_pow. lia. }
  assert (Hq' : (2 ^ Zpos (Pos.size q) <= 2 * Zpos q)%Z).
  { change 2%Z with (Zpos 2) at 1. rewrite <- Pos2Z.inj_pow. lia. }
  assert (Hpow : (2 ^ (Zpos (Pos.size p) + 1) <= 2 ^ Zpos (Pos.size q))%Z).
  { apply Z.pow_le_mono_r; lia. }
  rewrite Z.pow_add_r in Hpow by lia. lia.
Qed.

Lemma canonical_compare (p q : positive) :
  (Zpos p < 2 ^ 53)%Z -> (Zpos q < 2 ^ 53)%Z ->
  SFcompare (canonical false p) (canonical false q) = Some (Pos.compare p q).
Proof.
  intros Hp Hq.
  pose proof (digits2_pos_bound p 53 Hp) as Hdp.
  pose proof (digits2_pos_bound q 53 Hq) as Hdq.
  assert (Hcmp : (Zpos (digits2_pos p) < Zpos (digits2_pos q))%Z -> Pos.compare p q = Lt).
  { intros Hk. apply Pos.compare_lt_iff. apply size_lt_lt.
    rewrite <- (digits2_pos_size p), <- (digits2_pos_size q). lia. }
  assert (Hcmp' : (Zpos (digits2_pos q) < Zpos (digits2_pos p))%Z -> Pos.compare p q = Gt).
  { intros Hk. apply Pos.compare_gt_iff. apply size_lt_lt.
    rewrite <- (digits2_pos_size p), <- (digits2_pos_size q). lia. }
  unfold canonical.
  destruct (53 - Zpos (digits2_pos p))%Z as [|kp|kp] eqn:Ekp; try lia;
    destruct (53 - Zpos (digits2_pos q))%Z as [|kq|kq] eqn:Ekq; try lia;
    cbn [SFcompare].
  - reflexivity.
  - rewrite Hcmp' by lia. reflexivity.
  - rewrite Hcmp by lia. reflexivity.
  - change (Zneg kp ?= Zneg kq)%Z with (CompOpp (kp ?= kq)%positive).
    destruct (Pos.compare_spec kp kq) as [-> | Hlt | Hlt]; cbn [CompOpp].
    + rewrite !shift_pos_value. change (Pos.compare_cont Eq) with Pos.compare.
      rewrite Pos.mul_compare_mono_r. reflexivity.
    + rewrite Hcmp' by lia. reflexivity.
    + rewrite Hcmp by lia. reflexivity.
Qed.

Lemma Prim2SF_float_of_nat (n : nat) :
  (Z.of_nat n < 2 ^ 53)%Z ->
  Prim2SF (float_of_nat n)
  = match n with
    | O => S754_zero false
    | S _ => canonical false (Pos.of_nat n)
    end.
Proof.
  intros Hn. destruct n as [|n].
  - vm_compute. reflexivity.
  - unfold float_of_nat.
    replace (Z.of_nat (S n)) with (Zpos (Pos.of_nat (S n))) in * by lia.
    apply Prim2SF_of_pos. exact Hn.
Qed.

Lemma float_of_nat_leb (i n : nat) :
  (Z.of_nat i < 2 ^ 53)%Z -> (Z.of_nat n < 2 ^ 53)%Z ->
  PrimFloat.leb (float_of_nat i) (float_of_nat n) = (i <=? n).
Proof.
  intros Hi Hn. rewrite FloatAxioms.leb_spec, !Prim2SF_float_of_nat by assumption.
  unfold SFleb. destruct i as [|i], n as [|n].
  - reflexivity.
  - destruct (canonical_finite false (Pos.of_nat (S n))) as (m & e & ->). reflexivity.
  - destruct (canonical_finite false (Pos.of_nat (S i))) as (m & e & ->). reflexivity.
  - rewrite canonical_compare by lia.
    destruct (Pos.compare_spec (Pos.of_nat (S i)) (Pos.of_nat (S n))) as [H | H | H];
      symmetry; [apply Nat.leb_le | apply Nat.leb_le | apply Nat.leb_gt]; lia.
Qed.

(** Signs of products. *)
Lemma Prim2SF_one : Prim2SF (float_of_nat 1) = S754_finite false 4503599627370496 (-52).
Proof. vm_compute. reflexivity. Qed.

Lemma Prim2SF_zero : Prim2SF (float_of_nat 0) = S754_zero false.
Proof. vm_compute. reflexivity. Qed.

Lemma binary_round_aux_negative (mx ex : Z) (lx : location) (m : positive) (e : Z) :
  SFleb (S754_finite false m e) (binary_round_aux prec emax true mx ex lx) = false.
Proof.
  unfold binary_round_aux.
  destruct (shr_fexp prec emax mx ex lx) as [mrs' e'].
  destruct (shr_fexp prec emax _ e' loc_Exact) as [mrs'' e''].
  destruct (shr_m mrs'') as [|p|p]; [reflexivity | | reflexivity].
  destruct (Z.leb e'' (emax - prec)); reflexivity.
Qed.

(** A number that is not negative times a number that is not positive is
    below one: zero, negative, or not a number. *)
Lemma float_mul_nonpositive (a d : float) :
  PrimFloat.ltb a (float_of_nat 0) = false ->
  PrimFloat.leb d (float_of_nat 0) = true ->
  PrimFloat.leb (float_of_nat 1) (PrimFloat.mul a d) = false.
Proof.
  rewrite FloatAxioms.ltb_spec, !FloatAxioms.leb_spec, FloatAxioms.mul_spec, Prim2SF_one, Prim2SF_zero.
  unfold SF64mul, SFmul.
  destruct (Prim2SF a) as [sa|sa| |sa ma ea], (Prim2SF d) as [sd|sd| |sd md ed];
    try destruct sa; try destruct sd; simpl; intros Ha Hd;
    try reflexivity; try discriminate.
  apply binary_round_aux_negative.
Qed.

Lemma float_mul_zero (s d : float) :
  PrimFloat.eqb s (float_of_nat 0) = true ->
  float_is_finite d = true ->
  exists b, Prim2SF (PrimFloat.mul s d) = S754_zero b.
Proof.
  rewrite FloatAxioms.eqb_spec, FloatAxioms.mul_spec, Prim2SF_zero. unfold float_is_finite, SF64mul, SFmul.
  destruct (Prim2SF s) as [ss|ss| |ss ms es], (Prim2SF d) as [sd|sd| |sd md ed];
    try destruct ss; try destruct sd; simpl; intros Hs Hd;
    try discriminate; eexists; reflexivity.
Qed.

(** Signs of differences and of ceilings. *)
(** The mantissa aligned to a smaller exponent. *)
Lemma shl_align_value (m : positive) (e e' : Z) :
  (e' <= e)%Z ->
  Zpos (fst (shl_align m e e')) = (Zpos m * 2 ^ (e - e'))%Z.
Proof.
  intros He. unfold shl_align.
  destruct (e' - e)%Z as [|d|d] eqn:Hd; try lia; cbn [fst].
  - replace (e - e')%Z with 0%Z by lia. lia.
  - fold (shift_pos d m). rewrite shift_pos_value.
    replace (e - e')%Z with (Zpos d) by lia.
    rewrite Pos2Z.inj_mul, Pos2Z.inj_pow. reflexivity.
Qed.

(** Of two valid doubles, the one of larger exponent has the larger
    magnitude. *)
Lemma aligned_gt (ma mb : positive) (ea eb : Z) :
  bounded prec emax ma ea = true -> bounded prec emax mb eb = true ->
  (eb < ea)%Z ->
  (Zpos mb < Zpos ma * 2 ^ (ea - eb))%Z.
Proof.
  unfold bounded, canonical_mantissa, fexp, emin, prec, emax.
  intros Ha Hb Hlt.
  apply andb_true_iff in Ha as [Ha _]. apply andb_true_iff in Hb as [Hb _].
  apply Z.eqb_eq in Ha, Hb.
  assert (Hda : Zpos (digits2_pos ma) = 53%Z) by lia.
  assert (Hdb : (Zpos (digits2_pos mb) <= 53)%Z) by lia.
  rewrite digits2_pos_size in Hda, Hdb.
  pose proof (Pos.size_le ma) as Hsa. pose proof (Pos.size_gt mb) as Hsb.
  assert (Hsa' : (2 ^ Zpos (Pos.size ma) <= 2 * Zpos ma)%Z).
  { change 2%Z with (Zpos 2) at 1. rewrite <- Pos2Z.inj_pow. lia. }
  assert (Hsb' : (Zpos mb < 2 ^ Zpos (Pos.size mb))%Z).
  { change 2%Z with (Zpos 2). rewrite <- Pos2Z.inj_pow. lia. }
  rewrite Hda in Hsa'.
  assert (Hpb : (2 ^ Zpos (Pos.size mb) <= 2 ^ 53)%Z) by (apply Z.pow_le_mono_r; lia).
  assert (Hpe : (2 ^ 1 <= 2 ^ (ea - eb))%Z) by (apply Z.pow_le_mono_r; lia).
  change (2 ^ 1)%Z with 2%Z in Hpe. nia.
Qed.

Lemma binary_round_aux_not_negative (mx ex : Z) (lx : location) :
  SFltb (binary_round_aux prec emax false mx ex lx) (S754_zero false) = false.
Proof.
  unfold binary_round_aux.
  destruct (shr_fexp prec emax mx ex lx) as [mrs' e'].
  destruct (shr_fexp prec emax _ e' loc_Exact) as [mrs'' e''].
  destruct (shr_m mrs'') as [|p|p]; [reflexivity | | reflexivity].
  destruct (Z.leb e'' (emax - prec)); reflexivity.
Qed.

Lemma binary_normalize_not_negative (d e : Z) :
  (0 <= d)%Z ->
  SFltb (binary_normalize prec emax d e false) (S754_zero false) = false.
Proof.
  intros Hd. destruct d as [|p|p]; [reflexivity | | lia].
  unfold binary_normalize, binary_round.
  destruct (shl_align p e _) as [mz ez]. apply binary_round_aux_not_negative.
Qed.

(** A difference [x - y] with [x] not below [y] is not negative. *)
Lemma SFsub_not_negative (x y : spec_float) :
  valid_binary x = true -> valid_binary y = true ->
  SFltb x y = false ->
  SFltb (SFsub prec emax x y) (S754_zero false) = false.
Proof.
  intros Hx Hy Hlt.
  destruct x as [sx|sx| |sx mx ex], y as [sy|sy| |sy my ey];
    try (repeat match goal with s : bool |- _ => destruct s end;
         first [reflexivity | discriminate Hlt]).
  cbn [SFsub]. apply binary_normalize_not_negative.
  cbn [SpecFloat.valid_binary] in Hx, Hy.
  rewrite !shl_align_value by lia.
  unfold SFltb, SFcompare in Hlt.
  destruct sx, sy; cbn [cond_Zopp]; try discriminate Hlt; try lia.
  - (* both negative *)
    destruct (Z.compare_spec ex ey) as [-> | Hee | Hee]; try discriminate Hlt.
    + rewrite Z.min_id, Z.sub_diag, !Z.mul_1_r.
      change (Pos.compare_cont Eq) with Pos.compare in Hlt.
      destruct (Pos.compare_spec mx my); try discriminate Hlt; lia.
    + rewrite Z.min_l by lia. rewrite Z.sub_diag, Z.mul_1_r.
      pose proof (aligned_gt my mx ey ex Hy Hx Hee). lia.
  - (* both positive *)
    destruct (Z.compare_spec ex ey) as [-> | Hee | Hee]; try discriminate Hlt.
    + rewrite Z.min_id, Z.sub_diag, !Z.mul_1_r.
      change (Pos.compare_cont Eq) with Pos.compare in Hlt.
      destruct (Pos.compare_spec mx my); try discriminate Hlt; lia.
    + rewrite Z.min_r by lia. rewrite Z.sub_diag, Z.mul_1_r.
      pose proof (aligned_gt mx my ex ey Hx Hy Hee). lia.
Qed.

Lemma float_sub_not_negative (x y : float) :
  PrimFloat.ltb x y = false ->
  PrimFloat.ltb (PrimFloat.sub x y) (float_of_nat 0) = false.
Proof.
  intros Hlt. rewrite FloatAxioms.ltb_spec in Hlt |- *.
  rewrite FloatAxioms.sub_spec, Prim2SF_zero.
  apply SFsub_not_negative; [apply Prim2SF_valid | apply Prim2SF_valid | exact Hlt].
Qed.

Lemma float_ceil_not_negative (x : float) :
  PrimFloat.ltb x (float_of_nat 0) = false ->
  PrimFloat.ltb (float_ceil x) (float_of_nat 0) = false.
Proof.
  intros Hx. destruct (Prim2SF x) as [s|s| |s m [|p|p]] eqn:E;
    try (unfold float_ceil; rewrite E; exact Hx).
  destruct (float_ceil_fraction x s m p E) as (-> & Habs & Hsign).
  rewrite FloatAxioms.ltb_spec, Prim2SF_zero in Hx |- *. rewrite E in Hx.
  destruct s; [discriminate Hx|].
  rewrite Prim2SF_Z2F by exact Habs.
  destruct (Qceiling _) as [|n|n]; try lia.
  destruct (canonical_finite false n) as (m' & e' & ->). reflexivity.
Qed.

(** *** The Occupancy Sampler *)

Section Sampler.
Context {num : Type} {NUM : Number num}.
Local Open Scope num_scope.

Variable Raycaster_intersectObject :
  Vector3.t num -> Vector3.t num -> Object3D num -> list (Intersection num).

Notation cast_from_corners := (cast_from_corners Raycaster_intersectObject).
Notation doesVoxelIntersectObject := (doesVoxelIntersectObject Raycaster_intersectObject).
Notation any_first_hit := (any_first_hit Raycaster_intersectObject).
Notation hits_within := (hits_within Raycaster_intersectObject).
Notation sampled := (sampled Raycaster_intersectObject).

Lemma with_log_log (w : World num) : with_log (log w) w = w.
Proof. destruct w; reflexivity. Qed.

Lemma with_log_twice (l l' : list Event) (w : World num) :
  with_log l' (with_log l w) = with_log l' w.
Proof. reflexivity. Qed.

(** A loop over corners casts some rays at the current object, changes
    nothing else, and returns whether one of them had its first hit
    within [size]. *)
Lemma cast_from_corners_run (object : Object3D num) (corners : list (Vector3.t num))
    (direction : Vector3.t num) (size : num) (w : World num) :
  currentObject w = Some object ->
  exists n,
    cast_from_corners corners direction size w
    = Ok (any_first_hit object corners direction size,
          with_log (log w ++ repeat (EvRaycast (uuid object)) n) w).
Proof.
  revert w. induction corners as [|corner rest IH]; intros w Hcur.
  - exists 0. simpl. rewrite app_nil_r, with_log_log. reflexivity.
  - simpl. unfold bind at 1. unfold intersectObject, bind, gets.
    rewrite Hcur. simpl.
    destruct (first_hit_within _ size) eqn:Hfirst.
    + exists 1. reflexivity.
    + destruct (IH (with_log (log w ++ [EvRaycast (uuid object)]) w) Hcur) as [n Hn].
      exists (S n). simpl. unfold with_log in Hn |- *. simpl in Hn.
      rewrite Hn. simpl. rewrite <- app_assoc. reflexivity.
Qed.

Lemma after_raycasts_0 (object : Object3D num) (w : World num) :
  after_raycasts object 0 w = w.
Proof. unfold after_raycasts. simpl. rewrite app_nil_r. apply with_log_log. Qed.

Lemma after_raycasts_add (object : Object3D num) (m n : nat) (w : World num) :
  after_raycasts object n (after_raycasts object m w) = after_raycasts object (m + n) w.
Proof.
  unfold after_raycasts, with_log. simpl. rewrite repeat_app, app_assoc. reflexivity.
Qed.

(** The function returns the disjunction of its three loops. *)
Lemma doesVoxelIntersectObject_run (object : Object3D num) (x y z size : num)
    (w : World num) :
  currentObject w = Some object ->
  exists n,
    doesVoxelIntersectObject x y z size w
    = Ok (sampled object x y z size, after_raycasts object n w).
Proof.
  intros Hcur. unfold doesVoxelIntersectObject, sampled, after_raycasts.
  destruct (cast_from_corners_run object (leftFaceCorners x y z (size / of_nat 2))
              xVector size w Hcur) as [n1 H1].
  unfold bind at 1. rewrite H1.
  destruct (any_first_hit object (leftFaceCorners _ _ _ _) _ _).
  { exists n1. reflexivity. }
  set (w1 := with_log _ w).
  destruct (cast_from_corners_run object (bottomFaceCorners x y z (size / of_nat 2))
              yVector size w1 Hcur) as [n2 H2].
  unfold bind at 1. rewrite H2.
  destruct (any_first_hit object (bottomFaceCorners _ _ _ _) _ _).
  { exists (n1 + n2)%nat. subst w1. unfold with_log. simpl.
    rewrite repeat_app, !app_assoc. reflexivity. }
  set (w2 := with_log _ w1).
  destruct (cast_from_corners_run object (backFaceCorners x y z (size / of_nat 2))
              zVector size w2 Hcur) as [n3 H3].
  unfold bind at 1. rewrite H3.
  exists (n1 + n2 + n3)%nat. subst w2 w1.
  destruct (any_first_hit object (backFaceCorners _ _ _ _) _ _);
    unfold with_log; simpl; rewrite !repeat_app, !app_assoc; reflexivity.
Qed.

(** With the hits sorted, the first hit is within [size] exactly when
    some hit is. *)
Lemma first_hit_within_iff (object : Object3D num)
    (origin direction : Vector3.t num) (size : num) :
  nearest_first Raycaster_intersectObject -> leb_transitive (num := num) ->
  first_hit_within (Raycaster_intersectObject origin direction object) size = true
  <-> hits_within object origin direction size.
Proof.
  intros Hsorted Htrans. unfold hits_within.
  destruct (Raycaster_intersectObject origin direction object) as [|hit rest] eqn:E; simpl.
  - split; [discriminate | intros (h & [] & _)].
  - split.
    + intros Hd. exists hit. auto.
    + intros (h & [<- | Hin] & Hd); [exact Hd|].
      eapply Htrans; [|exact Hd]. eapply Hsorted; eauto.
Qed.

Lemma leftFaceCorners_spec (x y z size : num) (c : Vector3.t num) :
  In c (leftFaceCorners x y z (size / of_nat 2)) <-> left_face_corner x y z size c.
Proof.
  unfold left_face_corner. simpl. split.
  - intros [<-|[<-|[<-|[<-|[]]]]]; simpl; auto.
  - destruct c as [cx cy cz]. simpl. intros (-> & [-> | ->] & [-> | ->]); auto.
Qed.

Lemma bottomFaceCorners_spec (x y z size : num) (c : Vector3.t num) :
  In c (bottomFaceCorners x y z (size / of_nat 2)) <-> bottom_face_corner x y z size c.
Proof.
  unfold bottom_face_corner. simpl. split.
  - intros [<-|[<-|[<-|[<-|[]]]]]; simpl; auto.
  - destruct c as [cx cy cz]. simpl. intros (-> & [-> | ->] & [-> | ->]); auto.
Qed.

Lemma backFaceCorners_spec (x y z size : num) (c : Vector3.t num) :
  In c (backFaceCorners x y z (size / of_nat 2)) <-> back_face_corner x y z size c.
Proof.
  unfold back_face_corner. simpl. split.
  - intros [<-|[<-|[<-|[<-|[]]]]]; simpl; auto.
  - destruct c as [cx cy cz]. simpl. intros (-> & [-> | ->] & [-> | ->]); auto.
Qed.

Lemma any_first_hit_iff (object : Object3D num) (corners : list (Vector3.t num))
    (direction : Vector3.t num) (size : num) :
  nearest_first Raycaster_intersectObject -> leb_transitive (num := num) ->
  any_first_hit object corners direction size = true
  <-> exists c, In c corners /\ hits_within object c direction size.
Proof.
  intros Hsorted Htrans. unfold any_first_hit. rewrite existsb_exists.
  split; intros (c & Hin & Hc); exists c; split; auto;
    apply (first_hit_within_iff object c direction size Hsorted Htrans); exact Hc.
Qed.

(** C1. For every cell centre [(x, y, z)] and edge [size], the Occupancy
    Sampler returns [true] if and only if at least one of the twelve rays
    (from the four corners of the left face along +X, of the bottom face
    along +Y, of the back face along +Z) hits the surface of the object
    at a distance of at most [size]; otherwise it returns [false].  The
    hits of a ray are sorted by distance, as three.js returns them. *)
Theorem doesVoxelIntersectObject_twelve_rays
    (object : Object3D num) (x y z size : num) (w : World num) :
  nearest_first Raycaster_intersectObject ->
  leb_transitive (num := num) ->
  currentObject w = Some object ->
  exists (occupied : bool) (w' : World num),
    doesVoxelIntersectObject x y z size w = Ok (occupied, w')
    /\ (occupied = true <-> twelve_rays_hit Raycaster_intersectObject object x y z size)
    /\ (occupied = false <-> ~ twelve_rays_hit Raycaster_intersectObject object x y z size).
Proof.
  intros Hsorted Htrans Hcur.
  destruct (doesVoxelIntersectObject_run object x y z size w Hcur) as [n Hrun].
  eexists _, _. split; [exact Hrun|].
  assert (Hiff : sampled object x y z size = true
          <-> twelve_rays_hit Raycaster_intersectObject object x y z size).
  { unfold sampled. rewrite !orb_true_iff, !any_first_hit_iff by assumption.
    unfold twelve_rays_hit. split.
    - intros [[(c & Hin & Hc) | (c & Hin & Hc)] | (c & Hin & Hc)]; exists c.
      + left. split; [apply leftFaceCorners_spec; exact Hin | exact Hc].
      + right; left. split; [apply bottomFaceCorners_spec; exact Hin | exact Hc].
      + right; right. split; [apply backFaceCorners_spec; exact Hin | exact Hc].
    - intros (c & [(Hin & Hc) | [(Hin & Hc) | (Hin & Hc)]]).
      + left; left. exists c. split; [apply leftFaceCorners_spec; exact Hin | exact Hc].
      + left; right. exists c. split; [apply bottomFaceCorners_spec; exact Hin | exact Hc].
      + right. exists c. split; [apply backFaceCorners_spec; exact Hin | exact Hc]. }
  split; [exact Hiff|].
  rewrite <- Hiff. destruct (sampled object x y z size); split; intros; congruence.
Qed.

End Sampler.

(** *** Exact rationals *)

Lemma Qc_of_Z_add (a b : Z) : Qc_of_Z (a + b) = (Qc_of_Z a + Qc_of_Z b)%Qc.
Proof.
  apply Qc_is_canon. unfold Qc_of_Z, Qcplus, Q2Qc. cbn [this]. rewrite !Qred_correct.
  unfold inject_Z, Qeq, Qplus. simpl. ring.
Qed.

Lemma Qc_ltb_lt (a b : Qc) : Qc_ltb a b = true <-> (a < b)%Qc.
Proof.
  unfold Qc_ltb, Qclt. rewrite negb_true_iff, <- not_true_iff_false, Qle_bool_iff.
  split; [apply Qnot_le_lt | apply Qlt_not_le].
Qed.

Lemma Qc_leb_le (a b : Qc) : Qc_leb a b = true <-> (a <= b)%Qc.
Proof. unfold Qc_leb, Qcle. apply Qle_bool_iff. Qed.

Lemma Qc_of_Z_lt (a b : Z) : (Qc_of_Z a < Qc_of_Z b)%Qc <-> (a < b)%Z.
Proof.
  unfold Qclt, Qc_of_Z, Q2Qc. cbn [this]. rewrite !Qred_correct, <- Zlt_Qlt. reflexivity.
Qed.

Lemma Qc_of_Z_le (a b : Z) : (Qc_of_Z a <= Qc_of_Z b)%Qc <-> (a <= b)%Z.
Proof.
  unfold Qcle, Qc_of_Z, Q2Qc. cbn [this]. rewrite !Qred_correct, <- Zle_Qle. reflexivity.
Qed.

Lemma Qc_plus_lt_r (a b c : Qc) : (a < b)%Qc -> (a + c < b + c)%Qc.
Proof.
  unfold Qclt, Qcplus, Q2Qc. cbn [this]. rewrite !Qred_correct. intros. now apply Qplus_lt_l.
Qed.

Lemma Qc_inv_pos (d : Qc) : (Q2Qc 0 < d)%Qc -> (Q2Qc 0 < Qc_of_Z 1 / d)%Qc.
Proof.
  unfold Qclt, Qcdiv, Qcmult, Qcinv, Qc_of_Z, Q2Qc. cbn [this]. rewrite !Qred_correct.
  intros H. rewrite Qmult_1_l. now apply Qinv_lt_0_compat.
Qed.

Lemma Qc_pos_nonzero (d : Qc) : (Q2Qc 0 < d)%Qc -> d <> Q2Qc 0.
Proof. intros H ->. exact (Qclt_not_eq _ _ H eq_refl). Qed.

Lemma Qc_of_nat_S (i : nat) :
  of_nat (num := Qc) (S i) = (of_nat i + of_nat 1)%num.
Proof.
  simpl. rewrite <- Qc_of_Z_add. f_equal. lia.
Qed.


(** The formula over the rationals: its step, its order, its mirror. *)
Lemma Qc_formula_step (i g d : Qc) :
  d <> Q2Qc 0 ->
  (coordinate_formula (i + of_nat 1) g d - coordinate_formula i g d
   = of_nat 1 / d)%num.
Proof.
  intros Hd. unfold coordinate_formula. simpl.
  change (Qc_of_Z 1) with 1%Qc. change (Qc_of_Z 2) with (1 + 1)%Qc.
  field. split; [exact Hd | discriminate].
Qed.

Lemma Qc_formula_lt (i j g d : Qc) :
  (Q2Qc 0 < d)%Qc -> (i < j)%Qc ->
  (coordinate_formula i g d < coordinate_formula j g d)%Qc.
Proof.
  intros Hd Hij. unfold coordinate_formula. simpl.
  apply Qc_plus_lt_r. apply Qcmult_lt_compat_r; [apply Qc_inv_pos; exact Hd|].
  unfold Qcminus. apply Qc_plus_lt_r. exact Hij.
Qed.


(** *** The Coordinate Mapper *)

Section Mapper.
Context {num : Type} {NUM : Number num}.
Local Open Scope num_scope.

Lemma calculateCoordinates_run (index gridSize : num) (w : World num) :
  calculateCoordinates index gridSize w
  = Ok (coordinate_formula index gridSize (voxelsPerUnit w), w).
Proof. reflexivity. Qed.

Lemma eval_calculateCoordinates (index gridSize : num) (w : World num) :
  eval (calculateCoordinates index gridSize) w
  = Some (coordinate_formula index gridSize (voxelsPerUnit w)).
Proof. reflexivity. Qed.

(** C3. For every index and grid size, with [voxelSize = 1/density],
    the Coordinate Mapper returns exactly
    [(index - gridSize/2) * voxelSize + voxelSize/2]; it always returns,
    it leaves every variable of the program as it was, and its result is
    a function of the index, the grid size and the density alone: two
    worlds of the same density give the same coordinate. *)
Theorem calculateCoordinates_formula (index gridSize : num) :
  (forall w : World num,
      calculateCoordinates index gridSize w
      = Ok ((index - gridSize / of_nat 2) * (of_nat 1 / voxelsPerUnit w)
            + (of_nat 1 / voxelsPerUnit w) / of_nat 2,
            w))
  /\ (forall w1 w2 : World num,
         voxelsPerUnit w1 = voxelsPerUnit w2 ->
         eval (calculateCoordinates index gridSize) w1
         = eval (calculateCoordinates index gridSize) w2).
Proof.
  split.
  - intros w. reflexivity.
  - intros w1 w2 Hd. rewrite !eval_calculateCoordinates, Hd. reflexivity.
Qed.

End Mapper.



(** C4 fails in the arithmetic of the program.  At the default density 6
    and grid size 6, the coordinates of the indices 0 and 1 are
    [-0.41666666666666669] and [-0.25]; their difference is
    [0.16666666666666669], which is not the double [1/6].  The
    coordinates are not always strictly increasing, nor distinct, either:
    at the density 1 and a grid size of [2^60] the indices 0 and 1 have
    the same coordinate, [-2^59]; at the smallest positive density and
    the grid size 6 the indices 4 and 5 have the same coordinate,
    [Infinity]. *)
Lemma calculateCoordinates_spacing_rounds :
  ((of_nat 0 <? voxelsPerUnit (empty_world 6%float))%num = true
   /\ exists c0 c1 : float,
        eval (calculateCoordinates (of_nat 0) (of_nat 6)) (empty_world 6%float) = Some c0
        /\ eval (calculateCoordinates (of_nat 1) (of_nat 6)) (empty_world 6%float) = Some c1
        /\ PrimFloat.eqb (c1 - c0)%num (of_nat 1 / 6%float)%num = false
        /\ (c1 - c0)%num <> (of_nat 1 / 6%float)%num)
  /\ ((of_nat 0 <? voxelsPerUnit (empty_world 1%float))%num = true
      /\ exists c0 c1 : float,
           eval (calculateCoordinates (of_nat 0) huge_gridSize) (empty_world 1%float)
           = Some c0
           /\ eval (calculateCoordinates (of_nat 1) huge_gridSize) (empty_world 1%float)
              = Some c1
           /\ c0 = c1
           /\ (c0 <? c1)%num = false)
  /\ ((of_nat 0 <? voxelsPerUnit (empty_world tiny_density))%num = true
      /\ exists c4 c5 : float,
           eval (calculateCoordinates (of_nat 4) (of_nat 6)) (empty_world tiny_density)
           = Some c4
           /\ eval (calculateCoordinates (of_nat 5) (of_nat 6)) (empty_world tiny_density)
              = Some c5
           /\ c4 = c5
           /\ c5 = infinity
           /\ (c4 <? c5)%num = false).
Proof.
  split; [|split].
  - split; [reflexivity|].
    eexists _, _. split; [reflexivity|]. split; [reflexivity|].
    split; [vm_compute; reflexivity|].
    intros H. apply (f_equal (fun a => PrimFloat.eqb a (of_nat 1 / 6%float)%num)) in H.
    vm_compute in H. discriminate H.
  - split; [reflexivity|].
    eexists _, _. split; [reflexivity|]. split; [reflexivity|].
    split; vm_compute; reflexivity.
  - split; [reflexivity|].
    eexists _, _. split; [reflexivity|]. split; [reflexivity|].
    split; [vm_compute; reflexivity|]. split; vm_compute; reflexivity.
Qed.


(** *** Arrays *)

Section Arrays.
Context {A : Type}.

Lemma arr_set_append (l : Array A) (v : A) :
  arr_set (length l) v l = l ++ [Some v].
Proof. induction l as [|h t IH]; simpl; [reflexivity | rewrite IH; reflexivity]. Qed.

Lemma arr_set_last (l : Array A) (old : option A) (v : A) :
  arr_set (length l) v (l ++ [old]) = l ++ [Some v].
Proof. induction l as [|h t IH]; simpl; [reflexivity | rewrite IH; reflexivity]. Qed.

Lemma arr_get_last (l : Array A) (v : A) :
  arr_get (l ++ [Some v]) (length l) = Some v.
Proof.
  unfold arr_get. rewrite nth_error_app2 by lia. rewrite Nat.sub_diag. reflexivity.
Qed.

Lemma arr_set_append_at {l : Array A} (i : nat) (v : A) :
  length l = i -> arr_set i v l = l ++ [Some v].
Proof. intros <-. apply arr_set_append. Qed.

Lemma arr_set_last_at {l : Array A} (i : nat) (old : option A) (v : A) :
  length l = i -> arr_set i v (l ++ [old]) = l ++ [Some v].
Proof. intros <-. apply arr_set_last. Qed.

Lemma arr_get_last_at {l : Array A} (i : nat) (v : A) :
  length l = i -> arr_get (l ++ [Some v]) i = Some v.
Proof. intros <-. apply arr_get_last. Qed.

Lemma dense_length (n : nat) (f : nat -> A) : length (dense n f) = n.
Proof. unfold dense. rewrite length_map, length_seq. reflexivity. Qed.

Lemma dense_S (n : nat) (f : nat -> A) : dense (S n) f = dense n f ++ [Some (f n)].
Proof. unfold dense. rewrite seq_S, map_app. reflexivity. Qed.

Lemma arr_get_dense (n : nat) (f : nat -> A) (i : nat) :
  arr_get (dense n f) i = if i <? n then Some (f i) else None.
Proof.
  unfold arr_get, dense. destruct (Nat.ltb_spec i n) as [Hlt | Hge].
  - rewrite nth_error_map, nth_error_seq.
    apply Nat.ltb_lt in Hlt. rewrite Hlt. reflexivity.
  - rewrite (proj2 (nth_error_None _ _)); [reflexivity|].
    rewrite length_map, length_seq. exact Hge.
Qed.

Lemma present_dense (n : nat) (f : nat -> A) : present (dense n f) = map f (seq 0 n).
Proof.
  unfold present, dense. induction (seq 0 n) as [|i l IH]; simpl; [reflexivity|].
  rewrite IH. reflexivity.
Qed.

End Arrays.

Lemma arr_get3_dense3 {A : Type} (nx ny nz : nat) (f : nat -> nat -> nat -> A)
    (i j k : nat) :
  arr_get3 (dense3 nx ny nz f) i j k
  = if (i <? nx) && (j <? ny) && (k <? nz) then Some (f i j k) else None.
Proof.
  unfold arr_get3, dense3. rewrite arr_get_dense.
  destruct (i <? nx); [|reflexivity]. rewrite arr_get_dense.
  destruct (j <? ny); [|reflexivity]. rewrite arr_get_dense. reflexivity.
Qed.

Lemma length_flat_map_const {A B : Type} (f : A -> list B) (l : list A) (n : nat) :
  (forall a, In a l -> length (f a) = n) -> length (flat_map f l) = length l * n.
Proof.
  induction l as [|a l IH]; intros Hf; simpl; [reflexivity|].
  rewrite length_app, Hf, IH; [reflexivity | | left; reflexivity].
  intros b Hb. apply Hf. right. exact Hb.
Qed.

Lemma grid_cells_dense3_length {A : Type} (nx ny nz : nat) (f : nat -> nat -> nat -> A) :
  length (grid_cells (dense3 nx ny nz f)) = nx * ny * nz.
Proof.
  unfold grid_cells, dense3. rewrite present_dense.
  rewrite (length_flat_map_const _ _ (ny * nz)).
  - rewrite length_map, length_seq. lia.
  - intros row Hrow. apply in_map_iff in Hrow as (i & <- & _).
    rewrite present_dense. rewrite (length_flat_map_const _ _ nz).
    + rewrite length_map, length_seq. reflexivity.
    + intros col Hcol. apply in_map_iff in Hcol as (j & <- & _).
      rewrite present_dense, length_map, length_seq. reflexivity.
Qed.

(** *** Loops *)

Section Loops.
Context {num : Type} {NUM : Number num}.
Local Open Scope num_scope.

Lemma bind_Ok {A B : Type} {c : M num A} (k : A -> M num B) {w w' : World num} {a : A} :
  c w = Ok (a, w') -> bind c k w = k a w'.
Proof. intros H. unfold bind. rewrite H. reflexivity. Qed.

(** A loop that runs [k] times and whose body keeps an invariant ends,
    given fuel for [k] tests and one more, in a state of the invariant. *)
Lemma for_le_from {A : Type} (P : nat -> A -> World num -> Prop)
    (bound : num) (k : nat) (body : nat -> A -> M num A) :
  trip_count bound k ->
  (forall i a w, (i < k)%nat -> P i a w ->
     exists a' w', body i a w = Ok (a', w') /\ P (S i) a' w') ->
  forall fuel i a w, (i <= k)%nat -> (k - i < fuel)%nat -> P i a w ->
  exists a' w', for_le fuel i bound body a w = Ok (a', w') /\ P k a' w'.
Proof.
  intros [Hin Hout] Hstep. induction fuel as [|fuel IH]; intros i a w Hik Hfuel HP.
  - lia.
  - simpl. destruct (Nat.eq_dec i k) as [-> | Hne].
    + rewrite Hout. exists a, w. split; [reflexivity | exact HP].
    + rewrite Hin by lia.
      destruct (Hstep i a w ltac:(lia) HP) as (a1 & w1 & Hbody & HP1).
      rewrite (bind_Ok _ Hbody). apply IH; [lia | lia | exact HP1].
Qed.

Lemma for_le_inv {A : Type} (P : nat -> A -> World num -> Prop)
    (bound : num) (k fuel : nat) (body : nat -> A -> M num A) (a : A) (w : World num) :
  trip_count bound k -> (k < fuel)%nat -> P 0%nat a w ->
  (forall i a w, (i < k)%nat -> P i a w ->
     exists a' w', body i a w = Ok (a', w') /\ P (S i) a' w') ->
  exists a' w', for_le fuel 0 bound body a w = Ok (a', w') /\ P k a' w'.
Proof.
  intros Htrip Hfuel HP Hstep.
  apply (for_le_from P bound k body Htrip Hstep); [lia | lia | exact HP].
Qed.

(** Whatever a loop returns, it reached it through its body: a property
    that every run of the body keeps holds at the end. *)
Lemma for_le_keeps {A : Type} (P : A -> World num -> Prop)
    (bound : num) (body : nat -> A -> M num A) :
  (forall i a w a' w', P a w -> body i a w = Ok (a', w') -> P a' w') ->
  forall fuel i a w a' w',
    P a w -> for_le fuel i bound body a w = Ok (a', w') -> P a' w'.
Proof.
  intros Hstep. induction fuel as [|fuel IH]; intros i a w a' w' HP Hrun.
  - discriminate Hrun.
  - simpl in Hrun. destruct (of_nat i <=? bound).
    + unfold bind in Hrun. destruct (body i a w) as [[a1 w1]| |] eqn:Hbody;
        try discriminate Hrun.
      eapply IH; [|exact Hrun]. eapply Hstep; eauto.
    + injection Hrun as <- <-. exact HP.
Qed.

(** A bound that one does not reach lets the loop run at most once. *)
Lemma trip_count_at_most_one (bound : num) :
  (of_nat 1 <=? bound) = false ->
  trip_count bound (if of_nat 0 <=? bound then 1%nat else 0%nat).
Proof.
  intros H1. destruct (of_nat 0 <=? bound) eqn:H0; split.
  - intros i Hi. replace i with 0%nat by lia. exact H0.
  - exact H1.
  - intros i Hi. lia.
  - exact H0.
Qed.

Lemma trip_count_unique (bound : num) (k k' : nat) :
  trip_count bound k -> trip_count bound k' -> k = k'.
Proof.
  intros [Hin Hout] [Hin' Hout'].
  destruct (Nat.lt_trichotomy k k') as [Hlt | [Heq | Hlt]]; [|exact Heq|].
  - rewrite (Hin' k Hlt) in Hout. discriminate Hout.
  - rewrite (Hin k' Hlt) in Hout'. discriminate Hout'.
Qed.

End Loops.

(** *** The Grid Builder *)

Section GridBuilder.
Context {num : Type} {NUM : Number num}.
Local Open Scope num_scope.

Variable Raycaster_intersectObject :
  Vector3.t num -> Vector3.t num -> Object3D num -> list (Intersection num).

Notation doesVoxelIntersectObject := (doesVoxelIntersectObject Raycaster_intersectObject).
Notation calculateGrid := (calculateGrid Raycaster_intersectObject).
Notation cell_at := (cell_at Raycaster_intersectObject).
Notation sampled := (sampled Raycaster_intersectObject).

(** With loops of [kx], [ky] and [kz] rounds, the Grid Builder returns
    the dense [kx * ky * kz] array of the cells [cell_at], having cast
    rays at the current object and changed nothing else. *)
Lemma calculateGrid_run (object : Object3D num) (w : World num)
    (sizeX sizeY sizeZ : num) (kx ky kz fuel : nat) :
  currentObject w = Some object ->
  trip_count sizeX kx -> trip_count sizeY ky -> trip_count sizeZ kz ->
  (kx < fuel)%nat -> (ky < fuel)%nat -> (kz < fuel)%nat ->
  exists n,
    calculateGrid fuel sizeX sizeY sizeZ w
    = Ok (dense3 kx ky kz (cell_at object (voxelsPerUnit w) sizeX sizeY sizeZ),
          after_raycasts object n w).
Proof.
  intros Hcur Hx Hy Hz Hfx Hfy Hfz.
  set (cell := cell_at object (voxelsPerUnit w) sizeX sizeY sizeZ).
  set (plane := fun i => dense ky (fun j => dense kz (cell i j))).
  unfold calculateGrid.
  destruct (for_le_inv
              (fun i grid w' => grid = dense i plane
                                /\ exists n, w' = after_raycasts object n w)
              sizeX kx fuel
              (fun i grid =>
                 let grid := arr_set i [] grid in
                 for_le fuel 0 sizeY (fun j grid =>
                   grid_i <- deref grid i ;;
                   let grid := arr_set i (arr_set j [] grid_i) grid in
                   for_le fuel 0 sizeZ (fun k grid =>
                     x <- calculateCoordinates (of_nat i) sizeX ;;
                     y <- calculateCoordinates (of_nat j) sizeY ;;
                     z <- calculateCoordinates (of_nat k) sizeZ ;;
                     grid_i <- deref grid i ;;
                     grid_ij <- deref grid_i j ;;
                     vpu <- gets (@voxelsPerUnit num) ;;
                     value <- doesVoxelIntersectObject x y z (of_nat 1 / vpu) ;;
                     ret (arr_set i (arr_set j (arr_set k (Cell.mk value x y z) grid_ij)
                                       grid_i) grid))
                     grid)
                   grid)
              [] w Hx Hfx) as (grid & w' & Hrun & -> & n & ->).
  - split; [reflexivity|]. exists 0%nat. symmetry. apply after_raycasts_0.
  - (* one round of the loop on [i] *)
    intros i grid0 w0 Hi (-> & n0 & ->). cbv zeta.
    rewrite (arr_set_append_at _ _ (dense_length i plane)).
    set (D := dense i plane).
    assert (HD : length D = i) by apply dense_length.
    destruct (for_le_inv
                (fun j grid w' =>
                   grid = D ++ [Some (dense j (fun j => dense kz (cell i j)))]
                   /\ exists n, w' = after_raycasts object n w)
                sizeY ky fuel
                (fun j grid =>
                   grid_i <- deref grid i ;;
                   let grid := arr_set i (arr_set j [] grid_i) grid in
                   for_le fuel 0 sizeZ (fun k grid =>
                     x <- calculateCoordinates (of_nat i) sizeX ;;
                     y <- calculateCoordinates (of_nat j) sizeY ;;
                     z <- calculateCoordinates (of_nat k) sizeZ ;;
                     grid_i <- deref grid i ;;
                     grid_ij <- deref grid_i j ;;
                     vpu <- gets (@voxelsPerUnit num) ;;
                     value <- doesVoxelIntersectObject x y z (of_nat 1 / vpu) ;;
                     ret (arr_set i (arr_set j (arr_set k (Cell.mk value x y z) grid_ij)
                                       grid_i) grid))
                     grid)
                (D ++ [Some []]) (after_raycasts object n0 w) Hy Hfy)
      as (grid1 & w1 & Hrun1 & -> & n1 & ->).
    + split; [reflexivity|]. exists n0. reflexivity.
    + (* one round of the loop on [j] *)
      intros j grid1 w1 Hj (-> & n1 & ->).
      set (R := dense j (fun j => dense kz (cell i j))).
      assert (HR : length R = j) by apply dense_length.
      unfold deref at 1. rewrite (arr_get_last_at _ _ HD).
      unfold bind at 1, ret at 1. cbv zeta.
      rewrite (arr_set_append_at _ _ HR), (arr_set_last_at _ _ _ HD).
      destruct (for_le_inv
                  (fun k grid w' =>
                     grid = D ++ [Some (R ++ [Some (dense k (cell i j))])]
                     /\ exists n, w' = after_raycasts object n w)
                  sizeZ kz fuel
                  (fun k grid =>
                     x <- calculateCoordinates (of_nat i) sizeX ;;
                     y <- calculateCoordinates (of_nat j) sizeY ;;
                     z <- calculateCoordinates (of_nat k) sizeZ ;;
                     grid_i <- deref grid i ;;
                     grid_ij <- deref grid_i j ;;
                     vpu <- gets (@voxelsPerUnit num) ;;
                     value <- doesVoxelIntersectObject x y z (of_nat 1 / vpu) ;;
                     ret (arr_set i (arr_set j (arr_set k (Cell.mk value x y z) grid_ij)
                                       grid_i) grid))
                  (D ++ [Some (R ++ [Some []])]) (after_raycasts object n1 w) Hz Hfz)
        as (grid2 & w2 & Hrun2 & -> & n2 & ->).
      * split; [reflexivity|]. exists n1. reflexivity.
      * (* one round of the loop on [k] *)
        intros k grid2 w2 Hk (-> & n2 & ->).
        set (C := dense k (cell i j)).
        assert (HC : length C = k) by apply dense_length.
        rewrite !(bind_Ok _ (calculateCoordinates_run _ _ _)).
        unfold deref at 1. rewrite (arr_get_last_at _ _ HD).
        unfold bind at 1, ret at 1.
        unfold deref at 1. rewrite (arr_get_last_at _ _ HR).
        unfold bind at 1, ret at 1.
        unfold bind at 1, gets at 1.
        destruct (doesVoxelIntersectObject_run Raycaster_intersectObject object
                    (coordinate_formula (of_nat i) sizeX
                       (voxelsPerUnit (after_raycasts object n2 w)))
                    (coordinate_formula (of_nat j) sizeY
                       (voxelsPerUnit (after_raycasts object n2 w)))
                    (coordinate_formula (of_nat k) sizeZ
                       (voxelsPerUnit (after_raycasts object n2 w)))
                    (of_nat 1 / voxelsPerUnit (after_raycasts object n2 w))
                    (after_raycasts object n2 w) Hcur) as [n3 Hn3].
        rewrite (bind_Ok _ Hn3). unfold ret.
        eexists _, _. split; [reflexivity|]. split.
        -- rewrite (arr_set_append_at _ _ HC), (arr_set_last_at _ _ _ HR),
             (arr_set_last_at _ _ _ HD).
           subst C. rewrite dense_S. reflexivity.
        -- exists (n2 + n3)%nat. apply after_raycasts_add.
      * eexists _, _. split; [exact Hrun2|]. split.
        -- subst R. rewrite dense_S. reflexivity.
        -- exists n2. reflexivity.
    + eexists _, _. split; [exact Hrun1|]. split.
      * subst D. rewrite dense_S. reflexivity.
      * exists n1. reflexivity.
  - exists n. exact Hrun.
Qed.

Lemma eval_doesVoxelIntersectObject (object : Object3D num) (x y z size : num)
    (w : World num) :
  currentObject w = Some object ->
  eval (doesVoxelIntersectObject x y z size) w = Some (sampled object x y z size).
Proof.
  intros Hcur. unfold eval.
  destruct (doesVoxelIntersectObject_run Raycaster_intersectObject object x y z size w Hcur)
    as [n ->]. reflexivity.
Qed.

(** C2. For non-negative integer extents [(sizeX, sizeY, sizeZ)] the
    Grid Builder returns a dense grid of exactly
    [(sizeX+1)*(sizeY+1)*(sizeZ+1)] cells: [grid[i][j][k]] is defined
    exactly for [0 <= i <= sizeX], [0 <= j <= sizeY], [0 <= k <= sizeZ];
    the coordinates of that cell are the Coordinate Mapper's results for
    [(i, sizeX)], [(j, sizeY)], [(k, sizeZ)], and its flag is the
    Occupancy Sampler's result at those coordinates with cell size
    [1/density].  The extents are integers that the loop counters reach
    and pass exactly ([trip_count]). *)
Theorem calculateGrid_dense (object : Object3D num) (w : World num)
    (sizeX sizeY sizeZ fuel : nat) :
  currentObject w = Some object ->
  trip_count (of_nat sizeX) (S sizeX) ->
  trip_count (of_nat sizeY) (S sizeY) ->
  trip_count (of_nat sizeZ) (S sizeZ) ->
  (S sizeX < fuel)%nat -> (S sizeY < fuel)%nat -> (S sizeZ < fuel)%nat ->
  exists (grid : Grid num) (w' : World num),
    calculateGrid fuel (of_nat sizeX) (of_nat sizeY) (of_nat sizeZ) w = Ok (grid, w')
    /\ length (grid_cells grid) = ((sizeX + 1) * (sizeY + 1) * (sizeZ + 1))%nat
    /\ (forall i j k,
          arr_get3 grid i j k <> None <-> (i <= sizeX /\ j <= sizeY /\ k <= sizeZ)%nat)
    /\ (forall i j k, (i <= sizeX)%nat -> (j <= sizeY)%nat -> (k <= sizeZ)%nat ->
          exists cell,
            arr_get3 grid i j k = Some cell
            /\ eval (calculateCoordinates (of_nat i) (of_nat sizeX)) w = Some (Cell.x cell)
            /\ eval (calculateCoordinates (of_nat j) (of_nat sizeY)) w = Some (Cell.y cell)
            /\ eval (calculateCoordinates (of_nat k) (of_nat sizeZ)) w = Some (Cell.z cell)
            /\ eval (doesVoxelIntersectObject (Cell.x cell) (Cell.y cell) (Cell.z cell)
                       (of_nat 1 / voxelsPerUnit w)) w
               = Some (Cell.value cell)).
Proof.
  intros Hcur Hx Hy Hz Hfx Hfy Hfz.
  destruct (calculateGrid_run object w _ _ _ _ _ _ fuel Hcur Hx Hy Hz Hfx Hfy Hfz)
    as [n Hrun].
  eexists _, _. split; [exact Hrun|]. split; [|split].
  - rewrite grid_cells_dense3_length, !Nat.add_1_r. reflexivity.
  - intros i j k. rewrite arr_get3_dense3.
    destruct (Nat.ltb_spec i (S sizeX)), (Nat.ltb_spec j (S sizeY)),
      (Nat.ltb_spec k (S sizeZ)); simpl; split; intros H'; try lia; try discriminate;
      try (exfalso; apply H'; reflexivity).
  - intros i j k Hi Hj Hk. rewrite arr_get3_dense3.
    rewrite (proj2 (Nat.ltb_lt i (S sizeX))), (proj2 (Nat.ltb_lt j (S sizeY))),
      (proj2 (Nat.ltb_lt k (S sizeZ))) by lia.
    eexists. split; [reflexivity|]. rewrite !eval_calculateCoordinates.
    unfold cell_at. cbn [Cell.x Cell.y Cell.z Cell.value].
    rewrite (eval_doesVoxelIntersectObject object _ _ _ _ w Hcur).
    repeat split; reflexivity.
Qed.

End GridBuilder.

(** The counters of the loops are exact in the rationals for every
    extent, and in doubles for every extent below [2^53 - 1]. *)
Lemma Qc_trip_count (n : nat) : trip_count (of_nat (num := Qc) n) (S n).
Proof.
  split.
  - intros i Hi. apply Qc_leb_le. apply Qc_of_Z_le. lia.
  - apply not_true_iff_false. intros H. apply Qc_leb_le in H.
    apply (proj1 (Qc_of_Z_le (Z.of_nat (S n)) (Z.of_nat n))) in H. lia.
Qed.

Lemma float_trip_count (n : nat) :
  (Z.of_nat n + 1 < 2 ^ 53)%Z -> trip_count (of_nat (num := float) n) (S n).
Proof.
  intros Hn. split.
  - intros i Hi. simpl. rewrite float_of_nat_leb by lia. apply Nat.leb_le. lia.
  - simpl. rewrite float_of_nat_leb by lia. apply Nat.leb_gt. lia.
Qed.

(** *** The spacing of the grid *)

(** In doubles, for the densities from 1 to 16 and the grid sizes up to
    64, by evaluation of the formula at every index. *)
Lemma spacing_checked : spacing_within_upto (1 # 562949953421312) 16 64 = true.
Proof. vm_compute. reflexivity. Qed.

Lemma spacing_within_upto_at (tol : Q) (D G d g i : nat) :
  spacing_within_upto tol D G = true ->
  1 <= d <= D -> g <= G -> i < g ->
  spacing_within tol d g i = true.
Proof.
  intros Hall Hd Hg Hi. unfold spacing_within_upto in Hall.
  rewrite forallb_forall in Hall.
  specialize (Hall d ltac:(apply in_seq; lia)).
  rewrite forallb_forall in Hall.
  specialize (Hall g ltac:(apply in_seq; lia)).
  rewrite forallb_forall in Hall.
  apply Hall. apply in_seq. lia.
Qed.

Lemma float_formula_step (d g i : nat) :
  1 <= d <= 16 -> g <= 64 -> i < g ->
  (coordinate_formula (num := float) (of_nat i) (of_nat g) (of_nat d)
   <? coordinate_formula (of_nat (S i)) (of_nat g) (of_nat d))%num = true
  /\ exists q0 q1 : Q,
       to_Q (coordinate_formula (num := float) (of_nat i) (of_nat g) (of_nat d)) = Some q0
       /\ to_Q (coordinate_formula (num := float) (of_nat (S i)) (of_nat g) (of_nat d))
          = Some q1
       /\ (Qabs (q1 - q0 - (1 # Pos.of_nat d)) <= 1 # 562949953421312)%Q.
Proof.
  intros Hd Hg Hi.
  pose proof (spacing_within_upto_at _ 16 64 d g i spacing_checked Hd Hg Hi) as H.
  unfold spacing_within in H. cbv zeta in H.
  apply andb_true_iff in H as [Hlt Hq]. split; [exact Hlt|].
  destruct (to_Q (coordinate_formula (num := float) (of_nat i) (of_nat g) (of_nat d)))
    as [q0|]; [|discriminate Hq].
  destruct (to_Q (coordinate_formula (num := float) (of_nat (S i)) (of_nat g) (of_nat d)))
    as [q1|]; [|discriminate Hq].
  exists q0, q1. split; [reflexivity|]. split; [reflexivity|].
  apply Qle_bool_iff. exact Hq.
Qed.

Lemma float_formula_lt (d g : nat) :
  1 <= d <= 16 -> g <= 64 ->
  forall i j : nat, i < j -> j <= g ->
    (coordinate_formula (num := float) (of_nat i) (of_nat g) (of_nat d)
     <? coordinate_formula (of_nat j) (of_nat g) (of_nat d))%num = true.
Proof.
  intros Hd Hg i j. induction j as [|j IH]; intros Hij Hj; [lia|].
  destruct (Nat.eq_dec i j) as [-> | Hne].
  - apply (float_formula_step d g j Hd Hg). lia.
  - simpl. eapply float_ltb_trans.
    + apply IH; lia.
    + apply (float_formula_step d g j Hd Hg). lia.
Qed.

Lemma float_formula_inj (d g i j : nat) :
  1 <= d <= 16 -> g <= 64 -> i <= g -> j <= g ->
  coordinate_formula (num := float) (of_nat i) (of_nat g) (of_nat d)
  = coordinate_formula (of_nat j) (of_nat g) (of_nat d) ->
  i = j.
Proof.
  intros Hd Hg Hi Hj Heq.
  destruct (Nat.lt_trichotomy i j) as [Hij | [Hij | Hij]]; [|exact Hij|].
  - pose proof (float_formula_lt d g Hd Hg i j Hij Hj) as Hlt.
    rewrite Heq in Hlt. simpl in Hlt. rewrite float_ltb_irrefl in Hlt. discriminate Hlt.
  - pose proof (float_formula_lt d g Hd Hg j i Hij Hi) as Hlt.
    rewrite Heq in Hlt. simpl in Hlt. rewrite float_ltb_irrefl in Hlt. discriminate Hlt.
Qed.

(** C4, as amended.  In exact rational arithmetic, for a fixed grid size
    and a positive density the Coordinate Mapper is evenly spaced and
    strictly increasing in the index: [coord(i+1) - coord(i) = 1/density]
    for every index [i]; consequently it is injective in the index, so
    that two cells of a grid built for integer extents that have the
    same coordinates have the same index triple.  In the doubles of the
    program, for the integer densities from 1 to 16 and the integer grid
    sizes up to 64, the coordinates of the indices [0 .. gridSize] are
    strictly increasing, the difference of two consecutive ones is
    within [2^-49] of [1/density], distinct indices have distinct
    coordinates, and two cells of a grid that have the same coordinates
    have the same index triple. *)
Theorem calculateCoordinates_evenly_spaced_exact
    (w : World Qc) (gridSize : Qc) (v : World float) (density : nat) :
  (of_nat 0 <? voxelsPerUnit w)%num = true ->
  voxelsPerUnit v = of_nat density ->
  1 <= density <= 16 ->
  ((forall i : nat, exists c0 c1 : Qc,
       eval (calculateCoordinates (of_nat i) gridSize) w = Some c0
       /\ eval (calculateCoordinates (of_nat (S i)) gridSize) w = Some c1
       /\ (c1 - c0 = of_nat 1 / voxelsPerUnit w)%num)
   /\ (forall (i j : nat) (ci cj : Qc),
          eval (calculateCoordinates (of_nat i) gridSize) w = Some ci ->
          eval (calculateCoordinates (of_nat j) gridSize) w = Some cj ->
          i < j -> (ci <? cj)%num = true)
   /\ (forall (i j : nat) (ci cj : Qc),
          eval (calculateCoordinates (of_nat i) gridSize) w = Some ci ->
          eval (calculateCoordinates (of_nat j) gridSize) w = Some cj ->
          ci = cj -> i = j)
   /\ (forall (intersect : Vector3.t Qc -> Vector3.t Qc -> Object3D Qc
                           -> list (Intersection Qc))
              (object : Object3D Qc) (sizeX sizeY sizeZ fuel : nat)
              (grid : Grid Qc) (w' : World Qc),
          currentObject w = Some object ->
          S sizeX < fuel -> S sizeY < fuel -> S sizeZ < fuel ->
          calculateGrid intersect fuel (of_nat sizeX) (of_nat sizeY) (of_nat sizeZ) w
          = Ok (grid, w') ->
          forall (i j k i' j' k' : nat) (c c' : Cell.t Qc),
            arr_get3 grid i j k = Some c ->
            arr_get3 grid i' j' k' = Some c' ->
            Cell.x c = Cell.x c' -> Cell.y c = Cell.y c' -> Cell.z c = Cell.z c' ->
            i = i' /\ j = j' /\ k = k'))
  /\ ((forall g i : nat,
         g <= 64 -> i < g ->
         exists (c0 c1 : float) (q0 q1 : Q),
           eval (calculateCoordinates (of_nat i) (of_nat g)) v = Some c0
           /\ eval (calculateCoordinates (of_nat (S i)) (of_nat g)) v = Some c1
           /\ (c0 <? c1)%num = true
           /\ to_Q c0 = Some q0
           /\ to_Q c1 = Some q1
           /\ (Qabs (q1 - q0 - (1 # Pos.of_nat density)) <= 1 # 562949953421312)%Q)
      /\ (forall (g i j : nat) (ci cj : float),
             g <= 64 -> i < j -> j <= g ->
             eval (calculateCoordinates (of_nat i) (of_nat g)) v = Some ci ->
             eval (calculateCoordinates (of_nat j) (of_nat g)) v = Some cj ->
             (ci <? cj)%num = true)
      /\ (forall (g i j : nat) (ci cj : float),
             g <= 64 -> i <= g -> j <= g ->
             eval (calculateCoordinates (of_nat i) (of_nat g)) v = Some ci ->
             eval (calculateCoordinates (of_nat j) (of_nat g)) v = Some cj ->
             ci = cj -> i = j)
      /\ (forall (intersect : Vector3.t float -> Vector3.t float -> Object3D float
                              -> list (Intersection float))
                 (object : Object3D float) (sizeX sizeY sizeZ fuel : nat)
                 (grid : Grid float) (v' : World float),
             currentObject v = Some object ->
             sizeX <= 64 -> sizeY <= 64 -> sizeZ <= 64 ->
             S sizeX < fuel -> S sizeY < fuel -> S sizeZ < fuel ->
             calculateGrid intersect fuel (of_nat sizeX) (of_nat sizeY) (of_nat sizeZ) v
             = Ok (grid, v') ->
             forall (i j k i' j' k' : nat) (c c' : Cell.t float),
               arr_get3 grid i j k = Some c ->
               arr_get3 grid i' j' k' = Some c' ->
               Cell.x c = Cell.x c' -> Cell.y c = Cell.y c' -> Cell.z c = Cell.z c' ->
               i = i' /\ j = j' /\ k = k')).
Proof.
  intros Hpos Hv Hd. split.
  - apply Qc_ltb_lt in Hpos.
    assert (Hlt : forall (g : Qc) (i j : nat), i < j ->
              (coordinate_formula (of_nat i) g (voxelsPerUnit w)
               < coordinate_formula (of_nat j) g (voxelsPerUnit w))%Qc).
    { intros g i j Hij. apply Qc_formula_lt; [exact Hpos|].
      apply Qc_of_Z_lt. lia. }
    assert (Hinj : forall (g : Qc) (i j : nat),
              coordinate_formula (of_nat i) g (voxelsPerUnit w)
              = coordinate_formula (of_nat j) g (voxelsPerUnit w) -> i = j).
    { intros g i j Heq.
      destruct (Nat.lt_trichotomy i j) as [Hij | [Hij | Hij]]; [|exact Hij|].
      - exfalso. apply (Qclt_not_eq _ _ (Hlt g i j Hij)). exact Heq.
      - exfalso. apply (Qclt_not_eq _ _ (Hlt g j i Hij)). symmetry. exact Heq. }
    split; [|split; [|split]].
    + intros i. eexists _, _. rewrite !eval_calculateCoordinates.
      split; [reflexivity|]. split; [reflexivity|].
      rewrite Qc_of_nat_S. apply Qc_formula_step. apply Qc_pos_nonzero. exact Hpos.
    + intros i j ci cj. rewrite !eval_calculateCoordinates.
      intros [= <-] [= <-] Hij. apply Qc_ltb_lt. apply Hlt. exact Hij.
    + intros i j ci cj. rewrite !eval_calculateCoordinates.
      intros [= <-] [= <-] Heq. apply (Hinj gridSize). exact Heq.
    + intros intersect object sizeX sizeY sizeZ fuel grid w' Hcur Hfx Hfy Hfz Hrun
        i j k i' j' k' c c' Hc Hc' Ex Ey Ez.
      destruct (calculateGrid_run intersect object w _ _ _ _ _ _ fuel Hcur
                  (Qc_trip_count sizeX) (Qc_trip_count sizeY) (Qc_trip_count sizeZ)
                  Hfx Hfy Hfz) as [n Hdense].
      rewrite Hdense in Hrun. injection Hrun as <- _.
      rewrite arr_get3_dense3 in Hc, Hc'.
      destruct ((i <? S sizeX) && (j <? S sizeY) && (k <? S sizeZ)); [|discriminate Hc].
      destruct ((i' <? S sizeX) && (j' <? S sizeY) && (k' <? S sizeZ)); [|discriminate Hc'].
      injection Hc as <-. injection Hc' as <-.
      unfold cell_at in Ex, Ey, Ez. cbn [Cell.x Cell.y Cell.z] in Ex, Ey, Ez.
      repeat split; eapply Hinj; eassumption.
  - split; [|split; [|split]].
    + intros g i Hg Hi.
      destruct (float_formula_step density g i Hd Hg Hi) as (Hlt & q0 & q1 & H0 & H1 & Hq).
      eexists _, _, q0, q1. rewrite !eval_calculateCoordinates, Hv.
      split; [reflexivity|]. split; [reflexivity|]. split; [exact Hlt|].
      split; [exact H0|]. split; [exact H1 | exact Hq].
    + intros g i j ci cj Hg Hij Hj. rewrite !eval_calculateCoordinates, Hv.
      intros [= <-] [= <-]. apply (float_formula_lt density g Hd Hg i j Hij Hj).
    + intros g i j ci cj Hg Hi Hj. rewrite !eval_calculateCoordinates, Hv.
      intros [= <-] [= <-] Heq. exact (float_formula_inj density g i j Hd Hg Hi Hj Heq).
    + intros intersect object sizeX sizeY sizeZ fuel grid v' Hcur Hsx Hsy Hsz Hfx Hfy Hfz
        Hrun i j k i' j' k' c c' Hc Hc' Ex Ey Ez.
      destruct (calculateGrid_run intersect object v _ _ _ _ _ _ fuel Hcur
                  (float_trip_count sizeX ltac:(lia)) (float_trip_count sizeY ltac:(lia))
                  (float_trip_count sizeZ ltac:(lia)) Hfx Hfy Hfz) as [n Hdense].
      rewrite Hdense in Hrun. injection Hrun as <- _.
      rewrite arr_get3_dense3 in Hc, Hc'.
      destruct (i <? S sizeX) eqn:Hi; [|discriminate Hc].
      destruct (j <? S sizeY) eqn:Hj; [|discriminate Hc].
      destruct (k <? S sizeZ) eqn:Hk; [|discriminate Hc].
      destruct (i' <? S sizeX) eqn:Hi'; [|discriminate Hc'].
      destruct (j' <? S sizeY) eqn:Hj'; [|discriminate Hc'].
      destruct (k' <? S sizeZ) eqn:Hk'; [|discriminate Hc'].
      apply Nat.ltb_lt in Hi, Hj, Hk, Hi', Hj', Hk'.
      injection Hc as <-. injection Hc' as <-.
      unfold cell_at in Ex, Ey, Ez. cbn [Cell.x Cell.y Cell.z] in Ex, Ey, Ez.
      rewrite Hv in Ex, Ey, Ez.
      split; [|split].
      * apply (float_formula_inj density sizeX i i' Hd Hsx); [lia | lia | exact Ex].
      * apply (float_formula_inj density sizeY j j' Hd Hsy); [lia | lia | exact Ey].
      * apply (float_formula_inj density sizeZ k k' Hd Hsz); [lia | lia | exact Ez].
Qed.

Lemma calculateCoordinates_evenly_spaced_exact_witness :
  (of_nat 0 <? voxelsPerUnit (empty_world (Qc_of_Z 6)))%num = true
  /\ (exists c0 c1 : Qc,
        eval (calculateCoordinates (of_nat 0) (of_nat 6)) (empty_world (Qc_of_Z 6)) = Some c0
        /\ eval (calculateCoordinates (of_nat 1) (of_nat 6)) (empty_world (Qc_of_Z 6))
           = Some c1
        /\ (c1 - c0 = of_nat 1 / Qc_of_Z 6)%num)
  /\ exists c0 c1 : float,
       eval (calculateCoordinates (of_nat 0) (of_nat 6)) (empty_world (of_nat 6)) = Some c0
       /\ eval (calculateCoordinates (of_nat 1) (of_nat 6)) (empty_world (of_nat 6))
          = Some c1
       /\ (c0 <? c1)%num = true.
Proof.
  split; [reflexivity|].
  destruct (calculateCoordinates_evenly_spaced_exact
              (empty_world (Qc_of_Z 6)) (of_nat 6) (empty_world (of_nat 6)) 6
              eq_refl ltac:(reflexivity) ltac:(lia))
    as [(Hexact & _) (Hstep & _)].
  split; [exact (Hexact 0)|].
  destruct (Hstep 6 0 ltac:(lia) ltac:(lia)) as (c0 & c1 & _ & _ & H0 & H1 & Hlt & _).
  exists c0, c1. split; [exact H0|]. split; [exact H1 | exact Hlt].
Defined.

(** *** The Dimension Calculator *)

Lemma Qceiling_cases (q : Q) :
  ((inject_Z (Qfloor q) == q)%Q -> (inject_Z (Qceiling q) == q)%Q)
  /\ (~ (inject_Z (Qfloor q) == q)%Q -> Qceiling q = (Qfloor q + 1)%Z)
  /\ (q <= inject_Z (Qceiling q))%Q.
Proof.
  split; [|split].
  - intros Hint. rewrite <- Hint at 1. rewrite Qceiling_Z. exact Hint.
  - intros Hfrac.
    assert (Hlo : (inject_Z (Qfloor q) < q)%Q).
    { apply Qnot_le_lt. intros Hle. apply Hfrac. apply Qle_antisym; [apply Qfloor_le | exact Hle]. }
    assert (H1 : (Qfloor q < Qceiling q)%Z).
    { rewrite Zlt_Qlt. eapply Qlt_le_trans; [exact Hlo | apply Qle_ceiling]. }
    assert (H2 : (Qceiling q - 1 < Qfloor q + 1)%Z).
    { rewrite Zlt_Qlt. eapply Qlt_trans; [apply Qceiling_lt | apply Qlt_floor]. }
    lia.
  - apply Qle_ceiling.
Qed.

Lemma Qc_ceil_is_exact : ceil_exact Qc.
Proof.
  intros s q [= <-]. exists (Qred (inject_Z (Qceiling s))).
  split; [reflexivity | apply Qred_correct].
Qed.

Section Dimensions.
Context {num : Type} {NUM : Number num} {VAL : Valued num}.
Local Open Scope num_scope.

Variable Box3_setFromObject : Object3D num -> Box3.t num.

Notation getDimensions := (getDimensions Box3_setFromObject).

Lemma ceil_exact_ceiling_of (s : num) : ceil_exact num -> ceiling_of s (Math_ceil s).
Proof.
  intros Hceil q Hq. destruct (Hceil s q Hq) as (r & Hr & Hreq).
  destruct (Qceiling_cases q) as (Hint & Hfrac & Hle).
  exists r. split; [exact Hr|]. split; [exact Hreq|]. split; [|split].
  - intros H. rewrite Hreq. apply Hint. exact H.
  - intros H. rewrite Hreq, (Hfrac H). reflexivity.
  - rewrite Hreq. exact Hle.
Qed.

(** The ceiling of an exact difference is at least the true extent. *)
Lemma ceiling_covers_extent (lo hi d : num) :
  ceiling_of (hi - lo) d -> exact_difference lo hi -> covers_extent lo hi d.
Proof.
  intros Hceil Hexact a b Ha Hb.
  destruct (Hexact a b Ha Hb) as (q & Hq & Heq).
  destruct (Hceil q Hq) as (r & Hr & _ & _ & _ & Hle).
  exists r. split; [exact Hr|]. rewrite <- Heq. exact Hle.
Qed.

(** C5, as amended.  For every object with a non-empty bounding box, the
    Dimension Calculator returns on each axis the ceiling of the size
    [s] that [Box3.getSize] computes on that axis, the number [max - min]
    of the arithmetic of the program: [s] itself when [s] is an integer,
    [floor(s) + 1] when it is not, hence at least [s]; and it leaves
    every variable of the program as it was.  On an axis where the
    subtraction is exact, as it is in exact arithmetic, the result is at
    least the true extent, the difference of the two bounds.
    [Math.ceil] is taken to be exact, as it is on doubles and on
    rationals. *)
Theorem getDimensions_ceiling (object : Object3D num) (w : World num) :
  ceil_exact num ->
  Box3_isEmpty (Box3_setFromObject object) = false ->
  exists dims : Dimensions.t num,
    getDimensions object w = Ok (dims, w)
    /\ ceiling_of (Vector3.x (Box3.max (Box3_setFromObject object))
                   - Vector3.x (Box3.min (Box3_setFromObject object)))
                  (Dimensions.x dims)
    /\ ceiling_of (Vector3.y (Box3.max (Box3_setFromObject object))
                   - Vector3.y (Box3.min (Box3_setFromObject object)))
                  (Dimensions.y dims)
    /\ ceiling_of (Vector3.z (Box3.max (Box3_setFromObject object))
                   - Vector3.z (Box3.min (Box3_setFromObject object)))
                  (Dimensions.z dims)
    /\ (exact_difference (Vector3.x (Box3.min (Box3_setFromObject object)))
                         (Vector3.x (Box3.max (Box3_setFromObject object))) ->
        covers_extent (Vector3.x (Box3.min (Box3_setFromObject object)))
                      (Vector3.x (Box3.max (Box3_setFromObject object)))
                      (Dimensions.x dims))
    /\ (exact_difference (Vector3.y (Box3.min (Box3_setFromObject object)))
                         (Vector3.y (Box3.max (Box3_setFromObject object))) ->
        covers_extent (Vector3.y (Box3.min (Box3_setFromObject object)))
                      (Vector3.y (Box3.max (Box3_setFromObject object)))
                      (Dimensions.y dims))
    /\ (exact_difference (Vector3.z (Box3.min (Box3_setFromObject object)))
                         (Vector3.z (Box3.max (Box3_setFromObject object))) ->
        covers_extent (Vector3.z (Box3.min (Box3_setFromObject object)))
                      (Vector3.z (Box3.max (Box3_setFromObject object)))
                      (Dimensions.z dims)).
Proof.
  intros Hceil Hbox. eexists. split; [reflexivity|].
  unfold Box3_getSize. rewrite Hbox. cbn [Dimensions.x Dimensions.y Dimensions.z
                                          Vector3.x Vector3.y Vector3.z].
  repeat match goal with |- _ /\ _ => split end;
    first [ apply ceil_exact_ceiling_of; exact Hceil
          | intros Hexact; apply ceiling_covers_extent;
            [apply ceil_exact_ceiling_of; exact Hceil | exact Hexact] ].
Qed.

End Dimensions.

(** *** The Voxel Renderer *)

Section Renderer.
Context {num : Type} {NUM : Number num}.
Local Open Scope num_scope.

Lemma flat_map_seq_S {A : Type} (f : nat -> list A) (n : nat) :
  flat_map f (seq 0 (S n)) = flat_map f (seq 0 n) ++ f n.
Proof. rewrite seq_S, flat_map_app. simpl. rewrite app_nil_r. reflexivity. Qed.

Lemma voxels_from_snoc (d : num) (m : Material) (id : nat)
    (cells : list (Cell.t num)) (cell : Cell.t num) :
  voxels_from d m id (cells ++ [cell])
  = voxels_from d m id cells ++ [voxel_mesh d m (id + 2 * length cells) cell].
Proof.
  revert id. induction cells as [|c cells IH]; intros id; simpl.
  - rewrite Nat.add_0_r. reflexivity.
  - rewrite IH. replace (id + 2 + 2 * length cells)%nat
      with (id + 2 * S (length cells))%nat by lia.
    reflexivity.
Qed.

Lemma voxels_from_length (d : num) (m : Material) (id : nat) (cells : list (Cell.t num)) :
  length (voxels_from d m id cells) = length cells.
Proof.
  revert id. induction cells as [|c cells IH]; intros id; simpl;
    [reflexivity | rewrite IH; reflexivity].
Qed.

Lemma voxels_from_ids (d : num) (m : Material) (id : nat) (cells : list (Cell.t num)) :
  Forall (fun o => (uuid o < id + 2 * length cells)%nat) (voxels_from d m id cells).
Proof.
  revert id. induction cells as [|c cells IH]; intros id; simpl; constructor.
  - unfold voxel_mesh, uuid. lia.
  - eapply Forall_impl; [|apply IH]. cbv beta. intros o Ho. lia.
Qed.

Lemma position_set_others (u : nat) (p : Vector3.t num) (l : list (Object3D num)) :
  Forall (fun o => (uuid o < u)%nat) l ->
  map (fun c => if Nat.eqb (uuid c) u then with_position p c else c) l = l.
Proof.
  induction 1 as [|o l Ho _ IH]; simpl; [reflexivity|].
  rewrite IH. destruct (Nat.eqb_spec (uuid o) u); [lia | reflexivity].
Qed.

(** One round of the innermost loop of [drawGrid], on a cell that the
    grid holds. *)
Lemma drawGrid_cell (m : Material) (w0 : World num) (done : list (Cell.t num))
    (cell : Cell.t num) :
  scene_ids_allocated w0 ->
  (if Cell.value cell then
     vpu <- gets (@voxelsPerUnit num) ;;
     geometry <- new_BoxGeometry (of_nat 1 / vpu) (of_nat 1 / vpu) (of_nat 1 / vpu) ;;
     voxel <- new_Mesh geometry (Some m) ;;
     scene_add voxel ;;;
     position_set voxel (Vector3.new (Cell.x cell) (Cell.y cell) (Cell.z cell))
   else ret tt) (drawn m done w0)
  = Ok (tt, drawn m (done ++ [cell]) w0).
Proof.
  intros Hids. unfold drawn. rewrite filter_app. simpl filter.
  destruct (Cell.value cell) eqn:Hv.
  - set (occupied := filter (@Cell.value num) done).
    rewrite voxels_from_snoc, length_app. simpl length.
    replace (next_id w0 + 2 * (length occupied + 1))%nat
      with (S (S (next_id w0 + 2 * length occupied))) by lia.
    assert (H1 : Forall (fun o => (uuid o < S (next_id w0 + 2 * length occupied))%nat)
                   (scene_children w0)).
    { eapply Forall_impl; [|exact Hids]. cbv beta. intros o Ho. lia. }
    assert (H2 : Forall (fun o => (uuid o < S (next_id w0 + 2 * length occupied))%nat)
                   (voxels_from (voxelsPerUnit w0) m (next_id w0) occupied)).
    { eapply Forall_impl; [|apply voxels_from_ids]. cbv beta. intros o Ho. lia. }
    revert H1 H2. generalize (next_id w0 + 2 * length occupied)%nat. intros n H1 H2.
    unfold bind, gets, new_BoxGeometry, new_Mesh, fresh, ret, scene_add, position_set,
      set_scene_children, log_event, modify, bind, gets. simpl.
    rewrite !map_app. simpl. rewrite Nat.eqb_refl.
    rewrite (position_set_others _ _ _ H1), (position_set_others _ _ _ H2).
    unfold voxel_mesh. simpl. rewrite <- !app_assoc. reflexivity.
  - rewrite !app_nil_r. reflexivity.
Qed.

(** With loops of [kx], [ky], [kz] rounds over a grid that holds a cell
    at every index of the box, the renderer ends in the world [drawn]. *)
Lemma drawGrid_run (grid : Grid num) (m : Material) (w : World num)
    (sizeX sizeY sizeZ : num) (kx ky kz fuel : nat) :
  trip_count sizeX kx -> trip_count sizeY ky -> trip_count sizeZ kz ->
  (kx < fuel)%nat -> (ky < fuel)%nat -> (kz < fuel)%nat ->
  (forall i j k, (i < kx)%nat -> (j < ky)%nat -> (k < kz)%nat ->
                 arr_get3 grid i j k <> None) ->
  scene_ids_allocated w ->
  drawGrid fuel sizeX sizeY sizeZ grid (Some m) w
  = Ok (tt, drawn m (cells_in grid kx ky kz) w).
Proof.
  intros Hx Hy Hz Hfx Hfy Hfz Hgrid Hids. unfold drawGrid.
  destruct (for_le_inv
              (fun i (_ : unit) w' => w' = drawn m (cells_in grid i ky kz) w)
              sizeX kx fuel
              (fun i (_ : unit) =>
                 for_le fuel 0 sizeY (fun j _ =>
                   for_le fuel 0 sizeZ (fun k _ =>
                     grid_i <- deref grid i ;;
                     grid_ij <- deref grid_i j ;;
                     cell <- deref grid_ij k ;;
                     if Cell.value cell then
                       vpu <- gets (@voxelsPerUnit num) ;;
                       geometry <- new_BoxGeometry (of_nat 1 / vpu) (of_nat 1 / vpu)
                                     (of_nat 1 / vpu) ;;
                       voxel <- new_Mesh geometry (Some m) ;;
                       scene_add voxel ;;;
                       position_set voxel
                         (Vector3.new (Cell.x cell) (Cell.y cell) (Cell.z cell))
                     else ret tt)
                     tt)
                   tt)
              tt w Hx Hfx) as ([] & w' & Hrun & ->).
  - unfold drawn. simpl. rewrite !app_nil_r, Nat.add_0_r. destruct w; reflexivity.
  - intros i [] w1 Hi ->.
    destruct (for_le_inv
                (fun j (_ : unit) w' =>
                   w' = drawn m (cells_in grid i ky kz
                                 ++ flat_map (row_cells grid kz i) (seq 0 j)) w)
                sizeY ky fuel
                (fun j (_ : unit) =>
                   for_le fuel 0 sizeZ (fun k _ =>
                     grid_i <- deref grid i ;;
                     grid_ij <- deref grid_i j ;;
                     cell <- deref grid_ij k ;;
                     if Cell.value cell then
                       vpu <- gets (@voxelsPerUnit num) ;;
                       geometry <- new_BoxGeometry (of_nat 1 / vpu) (of_nat 1 / vpu)
                                     (of_nat 1 / vpu) ;;
                       voxel <- new_Mesh geometry (Some m) ;;
                       scene_add voxel ;;;
                       position_set voxel
                         (Vector3.new (Cell.x cell) (Cell.y cell) (Cell.z cell))
                     else ret tt)
                     tt)
                tt (drawn m (cells_in grid i ky kz) w) Hy Hfy) as ([] & w2 & Hrun2 & ->).
    + simpl. rewrite app_nil_r. reflexivity.
    + intros j [] w2 Hj ->.
      destruct (for_le_inv
                  (fun k (_ : unit) w' =>
                     w' = drawn m ((cells_in grid i ky kz
                                    ++ flat_map (row_cells grid kz i) (seq 0 j))
                                   ++ flat_map (cell_list grid i j) (seq 0 k)) w)
                  sizeZ kz fuel
                  (fun k (_ : unit) =>
                     grid_i <- deref grid i ;;
                     grid_ij <- deref grid_i j ;;
                     cell <- deref grid_ij k ;;
                     if Cell.value cell then
                       vpu <- gets (@voxelsPerUnit num) ;;
                       geometry <- new_BoxGeometry (of_nat 1 / vpu) (of_nat 1 / vpu)
                                     (of_nat 1 / vpu) ;;
                       voxel <- new_Mesh geometry (Some m) ;;
                       scene_add voxel ;;;
                       position_set voxel
                         (Vector3.new (Cell.x cell) (Cell.y cell) (Cell.z cell))
                     else ret tt)
                  tt (drawn m (cells_in grid i ky kz
                               ++ flat_map (row_cells grid kz i) (seq 0 j)) w) Hz Hfz)
        as ([] & w3 & Hrun3 & ->).
      * simpl. rewrite app_nil_r. reflexivity.
      * intros k [] w3 Hk ->.
        assert (Hcell : exists grid_i grid_ij cell,
                   arr_get grid i = Some grid_i /\ arr_get grid_i j = Some grid_ij
                   /\ arr_get grid_ij k = Some cell).
        { pose proof (Hgrid i j k Hi Hj Hk) as Hcell. unfold arr_get3 in Hcell.
          destruct (arr_get grid i) as [grid_i|] eqn:Ei; [|congruence].
          destruct (arr_get grid_i j) as [grid_ij|] eqn:Ej; [|congruence].
          destruct (arr_get grid_ij k) as [cell|] eqn:Ek; [|congruence].
          exists grid_i, grid_ij, cell. auto. }
        destruct Hcell as (grid_i & grid_ij & cell & Ei & Ej & Ek).
        assert (Hlist : cell_list grid i j k = [cell]).
        { unfold cell_list, arr_get3. rewrite Ei, Ej, Ek. reflexivity. }
        rewrite flat_map_seq_S, Hlist.
        unfold deref. rewrite Ei. unfold bind at 1, ret at 1.
        rewrite Ej. unfold bind at 1, ret at 1.
        rewrite Ek. unfold bind at 1, ret at 1.
        eexists tt, _. split; [|reflexivity].
        rewrite app_assoc. apply drawGrid_cell. exact Hids.
      * exists tt. eexists. split; [exact Hrun3|].
        rewrite flat_map_seq_S, app_assoc. reflexivity.
    + exists tt. eexists. split; [exact Hrun2|].
      unfold cells_in at 2. rewrite flat_map_seq_S. reflexivity.
  - exact Hrun.
Qed.

Lemma voxels_from_Forall2 (d : num) (m : Material) (id : nat) (cells : list (Cell.t num)) :
  Forall2 (fun cell voxel =>
             isMesh voxel = true
             /\ position voxel = Vector3.new (Cell.x cell) (Cell.y cell) (Cell.z cell)
             /\ (exists gid, geometry voxel
                             = Some (BoxGeometry gid (of_nat 1 / d) (of_nat 1 / d)
                                       (of_nat 1 / d)))
             /\ material voxel = Some (OneMaterial m))
          cells (voxels_from d m id cells).
Proof.
  revert id. induction cells as [|c cells IH]; intros id; simpl; constructor.
  - simpl. repeat split. exists id. reflexivity.
  - apply IH.
Qed.

(** C7. Given an occupancy grid that holds a cell at every index of the
    box that the loops visit, the Voxel Renderer adds to the scene
    exactly one cube mesh per cell whose flag is [true], in index order,
    and nothing for the other cells; each cube has edge [1/density], is
    positioned at the stored coordinates of its cell, and all cubes
    share the one material given. *)
Theorem drawGrid_one_cube_per_occupied_cell (grid : Grid num) (m : Material)
    (w : World num) (sizeX sizeY sizeZ : num) (kx ky kz fuel : nat) :
  trip_count sizeX kx -> trip_count sizeY ky -> trip_count sizeZ kz ->
  (kx < fuel)%nat -> (ky < fuel)%nat -> (kz < fuel)%nat ->
  (forall i j k, (i < kx)%nat -> (j < ky)%nat -> (k < kz)%nat ->
                 arr_get3 grid i j k <> None) ->
  scene_ids_allocated w ->
  exists (w' : World num) (voxels : list (Object3D num)),
    drawGrid fuel sizeX sizeY sizeZ grid (Some m) w = Ok (tt, w')
    /\ scene_children w' = scene_children w ++ voxels
    /\ length voxels = length (filter (@Cell.value num) (cells_in grid kx ky kz))
    /\ Forall2 (fun cell voxel =>
                  isMesh voxel = true
                  /\ position voxel
                     = Vector3.new (Cell.x cell) (Cell.y cell) (Cell.z cell)
                  /\ (exists gid, geometry voxel
                                  = Some (BoxGeometry gid
                                            (of_nat 1 / voxelsPerUnit w)
                                            (of_nat 1 / voxelsPerUnit w)
                                            (of_nat 1 / voxelsPerUnit w)))
                  /\ material voxel = Some (OneMaterial m))
               (filter (@Cell.value num) (cells_in grid kx ky kz)) voxels.
Proof.
  intros Hx Hy Hz Hfx Hfy Hfz Hgrid Hids.
  eexists _, _. split.
  { apply (drawGrid_run grid m w sizeX sizeY sizeZ kx ky kz fuel); assumption. }
  split; [reflexivity|]. split.
  - apply voxels_from_length.
  - apply voxels_from_Forall2.
Qed.

End Renderer.

(** *** The pipeline *)

Section Pipeline.
Context {num : Type} {NUM : Number num}.
Local Open Scope num_scope.

Variable Box3_setFromObject : Object3D num -> Box3.t num.
Variable Raycaster_intersectObject :
  Vector3.t num -> Vector3.t num -> Object3D num -> list (Intersection num).

Notation doesVoxelIntersectObject := (doesVoxelIntersectObject Raycaster_intersectObject).
Notation calculateGrid := (calculateGrid Raycaster_intersectObject).
Notation cell_at := (cell_at Raycaster_intersectObject).
Notation getDimensions := (getDimensions Box3_setFromObject).
Notation voxelize := (voxelize Box3_setFromObject Raycaster_intersectObject).

(** Induction on the scene graph. *)
Lemma Object3D_ind' (P : Object3D num -> Prop) :
  (forall u b p g m cs, Forall P cs -> P (mkObject3D u b p g m cs)) ->
  forall o, P o.
Proof.
  intros H. fix IH 1. intros [u b p g m cs]. apply H.
  induction cs as [|c cs IHcs]; constructor; [apply IH | exact IHcs].
Qed.

Lemma capture_slots_app (l1 l2 : list MaterialSlot) (acc : option Material)
    (w : World num) :
  capture_slots (l1 ++ l2) acc w
  = match capture_slots l1 acc w with
    | Ok (a, w') => capture_slots l2 a w'
    | TypeError => TypeError
    | OutOfFuel => OutOfFuel
    end.
Proof.
  revert acc w. induction l1 as [|[m | ms] l1 IH]; intros acc w; simpl;
    [reflexivity | apply IH | reflexivity].
Qed.

(** The traversal of [voxelize] clones the materials of the meshes in
    order. *)
Lemma traverse_capture (o : Object3D num) :
  forall (acc : option Material) (w : World num),
    traverse capture_material o acc w = capture_slots (mesh_materials o) acc w.
Proof.
  induction o as [u b p g m cs IH] using Object3D_ind'. intros acc w.
  assert (Hcs : forall acc w,
            (fix each (cs : list (Object3D num)) (a : option Material)
               : M num (option Material) :=
               match cs with
               | [] => ret a
               | c :: cs' => a' <- traverse capture_material c a ;; each cs' a'
               end) cs acc w
            = capture_slots (flat_map mesh_materials cs) acc w).
  { clear acc w. induction IH as [|c cs Hc _ IHcs]; intros acc w; [reflexivity|].
    simpl flat_map. rewrite capture_slots_app, <- Hc.
    unfold bind at 1. destruct (traverse capture_material c acc w) as [[a w']| |];
      [apply IHcs | reflexivity | reflexivity]. }
  simpl traverse. simpl mesh_materials. rewrite capture_slots_app.
  unfold bind at 1, capture_material. simpl isMesh. simpl material.
  destruct b; [|apply Hcs].
  destruct m as [[mm | ms]|]; simpl; [apply Hcs | reflexivity | apply Hcs].
Qed.

Lemma capture_slots_Ok (slots : list MaterialSlot) :
  forall (acc a : option Material) (w w' : World num),
    capture_slots slots acc w = Ok (a, w') ->
    scene_children w' = scene_children w
    /\ currentObject w' = currentObject w
    /\ voxelsPerUnit w' = voxelsPerUnit w
    /\ (next_id w <= next_id w')%nat
    /\ exists evs, log w' = log w ++ evs /\ Forall is_clone evs.
Proof.
  induction slots as [|[m | ms] slots IH]; intros acc a w w' Hrun; simpl in Hrun.
  - injection Hrun as <- <-. repeat split; try lia. exists []. rewrite app_nil_r. auto.
  - apply IH in Hrun as (Hs & Hc & Hv & Hn & evs & Hl & Hevs). simpl in *.
    repeat split; try assumption; try lia.
    exists (EvClone (material_id m) (next_id w) :: evs). split.
    + rewrite Hl, <- app_assoc. reflexivity.
    + constructor; [eexists _, _; reflexivity | exact Hevs].
  - discriminate Hrun.
Qed.

Lemma capture_slots_cloneable (slots : list MaterialSlot) :
  Forall (fun slot => exists m, slot = OneMaterial m) slots ->
  forall (acc : option Material) (w : World num),
    exists a w', capture_slots slots acc w = Ok (a, w')
                 /\ (slots <> [] \/ acc <> None -> a <> None).
Proof.
  induction 1 as [|slot slots [m ->] _ IH]; intros acc w; simpl.
  - eexists _, _. split; [reflexivity|]. intros [H | H]; [congruence | exact H].
  - destruct (IH (Some {| material_id := next_id w |})
                {| scene_children := scene_children w;
                   currentObject := currentObject w;
                   voxelsPerUnit := voxelsPerUnit w;
                   next_id := S (next_id w);
                   log := log w ++ [EvClone (material_id m) (next_id w)] |})
      as (a & w' & Hrun & Ha).
    exists a, w'. split; [exact Hrun|]. intros _. apply Ha. right. discriminate.
Qed.

(** [scene.remove(object); clearScene()]. *)
Lemma dispose_material_run (slot : MaterialSlot) (w : World num) :
  dispose_material slot w
  = Ok (tt, with_log (log w ++ match slot with
                               | MaterialArray ms =>
                                   map (fun m => EvDisposeMaterial (material_id m)) ms
                               | OneMaterial m => [EvDisposeMaterial (material_id m)]
                               end) w).
Proof.
  destruct slot as [m | ms]; [reflexivity|]. simpl.
  revert w. induction ms as [|m ms IH]; intros w; simpl.
  - rewrite app_nil_r, with_log_log. reflexivity.
  - unfold bind, log_event, modify. rewrite IH. unfold with_log. simpl.
    rewrite <- app_assoc. reflexivity.
Qed.

Lemma clearScene_forEach (snapshot : list (Object3D num)) :
  forall w : World num,
    forEach snapshot (fun child =>
      if isMesh child then
        scene_remove child ;;;
        match geometry child with
        | Some g => log_event (EvDisposeGeometry (geometry_id g))
        | None => ret tt
        end ;;;
        match material child with
        | Some m => dispose_material m
        | None => ret tt
        end
      else ret tt) w
    = Ok (tt, {| scene_children := cleared_children snapshot (scene_children w);
                 currentObject := currentObject w;
                 voxelsPerUnit := voxelsPerUnit w;
                 next_id := next_id w;
                 log := log w ++ flat_map clear_events snapshot |}).
Proof.
  induction snapshot as [|child snapshot IH]; intros w.
  - simpl. rewrite app_nil_r. destruct w; reflexivity.
  - simpl forEach. unfold bind at 1. simpl flat_map.
    unfold clear_events at 1. unfold cleared_children. simpl fold_left.
    destruct (isMesh child).
    + unfold scene_remove, bind, gets, set_scene_children, log_event, modify.
      simpl. destruct (geometry child) as [g|]; simpl;
        (destruct (material child) as [slot|]; simpl;
         [rewrite dispose_material_run | idtac]);
        rewrite IH; unfold with_log; simpl; rewrite <- ?app_assoc; reflexivity.
    + simpl. rewrite IH. reflexivity.
Qed.

Lemma remove_then_clear (object : Object3D num) (w : World num) :
  (scene_remove object ;;; clearScene) w = Ok (tt, cleared_world object w).
Proof.
  unfold clearScene, scene_remove, bind, gets, set_scene_children, log_event, modify.
  simpl. rewrite clearScene_forEach. reflexivity.
Qed.

(** Whatever the sampler returns, it has only cast rays at the current
    object. *)
Lemma doesVoxelIntersectObject_Ok (x y z size : num) (w w' : World num) (b : bool) :
  doesVoxelIntersectObject x y z size w = Ok (b, w') ->
  exists object n, currentObject w = Some object /\ w' = after_raycasts object n w.
Proof.
  intros Hrun. destruct (currentObject w) as [object|] eqn:Hcur.
  - destruct (doesVoxelIntersectObject_run Raycaster_intersectObject object x y z size w
                Hcur) as [n Hn].
    rewrite Hn in Hrun. injection Hrun as _ <-. exists object, n. split; reflexivity.
  - unfold doesVoxelIntersectObject, leftFaceCorners in Hrun. simpl in Hrun.
    unfold bind, intersectObject, bind, gets in Hrun. rewrite Hcur in Hrun.
    discriminate Hrun.
Qed.

Lemma sampled_from_refl (w : World num) : sampled_from w w.
Proof. exists 0%nat. simpl. rewrite app_nil_r, with_log_log. reflexivity. Qed.

Lemma sampled_from_step (w w1 w2 : World num) (b : bool) (x y z size : num) :
  sampled_from w w1 ->
  doesVoxelIntersectObject x y z size w1 = Ok (b, w2) ->
  sampled_from w w2.
Proof.
  intros [n ->] Hrun.
  apply doesVoxelIntersectObject_Ok in Hrun as (object & n' & Hcur & ->).
  simpl in Hcur. exists (n + n')%nat.
  unfold after_raycasts, with_log. simpl. rewrite Hcur, repeat_app, app_assoc.
  reflexivity.
Qed.

Ltac step_deref H :=
  unfold bind at 1 in H; unfold deref at 1 in H;
  match type of H with
  | context [match ?e with Some _ => _ | None => _ end] =>
      destruct e; [unfold ret at 1 in H | unfold throw_TypeError in H; discriminate H]
  end.

Lemma calculateGrid_keeps (fuel : nat) (sizeX sizeY sizeZ : num)
    (w w' : World num) (grid : Grid num) :
  calculateGrid fuel sizeX sizeY sizeZ w = Ok (grid, w') -> sampled_from w w'.
Proof.
  unfold calculateGrid.
  apply (for_le_keeps (fun _ w1 => sampled_from w w1)); [|apply sampled_from_refl].
  intros i g0 w0 g1 w1 H0. cbv zeta.
  apply (for_le_keeps (fun _ w1 => sampled_from w w1)); [|exact H0].
  clear. intros j g0 w0 g1 w1 H0 Hrun.
  step_deref Hrun. cbv zeta in Hrun. revert Hrun.
  apply (for_le_keeps (fun _ w1 => sampled_from w w1)); [|exact H0].
  clear. intros k g0 w0 g1 w1 H0 Hrun.
  rewrite !(bind_Ok _ (calculateCoordinates_run _ _ _)) in Hrun.
  step_deref Hrun. step_deref Hrun.
  unfold bind at 1, gets at 1 in Hrun.
  unfold bind at 1 in Hrun.
  destruct (doesVoxelIntersectObject _ _ _ _ w0) as [[b w2]| |] eqn:Hdoes;
    try discriminate Hrun.
  injection Hrun as _ <-. eapply sampled_from_step; eauto.
Qed.

(** Whatever the renderer returns, it has only added objects to the
    scene. *)
Lemma drawGrid_keeps (fuel : nat) (sizeX sizeY sizeZ : num) (grid : Grid num)
    (material : option Material) (w w' : World num) :
  drawGrid fuel sizeX sizeY sizeZ grid material w = Ok (tt, w') -> rendered_from w w'.
Proof.
  unfold drawGrid.
  assert (Hrefl : rendered_from w w) by (exists []; rewrite app_nil_r; auto).
  apply (for_le_keeps (fun (_ : unit) w1 => rendered_from w w1)); [|exact Hrefl].
  clear. intros i u0 w0 u1 w1 H0.
  apply (for_le_keeps (fun _ w1 => rendered_from w w1)); [|exact H0].
  clear. intros j u0 w0 u1 w1 H0.
  apply (for_le_keeps (fun _ w1 => rendered_from w w1)); [|exact H0].
  clear. intros k u0 w0 u1 w1 H0 Hrun.
  step_deref Hrun. step_deref Hrun. step_deref Hrun.
  match type of Hrun with context [Cell.value ?c] => destruct (Cell.value c) end.
  - destruct H0 as (adds & Hlog & Hadds).
    destruct material as [m|];
      unfold bind, gets, new_BoxGeometry, new_Mesh, fresh, ret, scene_add, position_set,
        set_scene_children, log_event, modify, bind, gets in Hrun; simpl in Hrun;
      injection Hrun as _ <-;
      (eexists (adds ++ [EvSceneAdd _]); split;
       [simpl; rewrite Hlog, app_assoc; reflexivity
       | apply Forall_app; split; [exact Hadds|];
         constructor; [eexists; reflexivity | constructor]]).
  - injection Hrun as _ <-. exact H0.
Qed.

Lemma grown_from_refl (w : World num) : grown_from w w.
Proof.
  split; [reflexivity|]. split; [lia|].
  apply Forall_forall. intros o Ho. left. apply in_map. exact Ho.
Qed.

Lemma moved_keeps_ids (P : nat -> Prop) (u : nat) (p : Vector3.t num)
    (cs : list (Object3D num)) :
  Forall (fun o => P (uuid o)) cs ->
  Forall (fun o => P (uuid o))
    (map (fun c => if Nat.eqb (uuid c) u then with_position p c else c) cs).
Proof.
  induction 1 as [|c cs Hc _ IH]; simpl; constructor; [|exact IH].
  destruct (Nat.eqb (uuid c) u); [|exact Hc].
  destruct c; exact Hc.
Qed.

(** Whatever the renderer returns, the objects that it has added to the
    scene are new, and the current object is the one it was. *)
Lemma drawGrid_grows (fuel : nat) (sizeX sizeY sizeZ : num) (grid : Grid num)
    (material : option Material) (w w' : World num) :
  drawGrid fuel sizeX sizeY sizeZ grid material w = Ok (tt, w') -> grown_from w w'.
Proof.
  unfold drawGrid.
  apply (for_le_keeps (fun (_ : unit) w1 => grown_from w w1)); [|apply grown_from_refl].
  intros i u0 w0 u1 w1 H0.
  apply (for_le_keeps (fun _ w1 => grown_from w w1)); [|exact H0].
  clear. intros j u0 w0 u1 w1 H0.
  apply (for_le_keeps (fun _ w1 => grown_from w w1)); [|exact H0].
  clear. intros k u0 w0 u1 w1 H0 Hrun.
  step_deref Hrun. step_deref Hrun. step_deref Hrun.
  match type of Hrun with context [Cell.value ?c] => destruct (Cell.value c) end.
  - destruct H0 as (Hcur & Hn & Hall).
    destruct material as [m|];
      unfold bind, gets, new_BoxGeometry, new_Mesh, fresh, ret, scene_add, position_set,
        set_scene_children, log_event, modify, bind, gets in Hrun; simpl in Hrun;
      injection Hrun as _ <-;
      (split; [exact Hcur|]; split; [simpl; lia|]; simpl;
       apply (moved_keeps_ids
                (fun u => In u (map (@uuid num) (scene_children w)) \/ (next_id w <= u)%nat));
       apply Forall_app; split; [exact Hall|];
       constructor; [right; simpl; lia | constructor]).
  - injection Hrun as _ <-. exact H0.
Qed.

Lemma remove_child_Forall (P : Object3D num -> Prop) (u : nat) (cs : list (Object3D num)) :
  Forall P cs -> Forall P (remove_child u cs).
Proof.
  induction 1 as [|c cs Hc Hcs IH]; simpl; [constructor|].
  destruct (Nat.eqb (uuid c) u); [exact Hcs | constructor; assumption].
Qed.

Lemma cleared_children_Forall (P : Object3D num -> Prop)
    (snapshot cs : list (Object3D num)) :
  Forall P cs -> Forall P (cleared_children snapshot cs).
Proof.
  unfold cleared_children. revert cs.
  induction snapshot as [|child snapshot IH]; intros cs Hcs; simpl; [exact Hcs|].
  apply IH. destruct (isMesh child); [apply remove_child_Forall|]; exact Hcs.
Qed.

(** The pass under known trip counts: it returns, and the world it
    returns is the one [drawn] over the cleared scene. *)
Lemma voxelize_run (object : Object3D num) (w : World num) (kx ky kz fuel : nat) :
  currentObject w = Some object ->
  cloneable object ->
  scene_ids_allocated w ->
  trip_count (extent (Vector3.x (Box3_getSize (Box3_setFromObject object)))
                (voxelsPerUnit w)) kx ->
  trip_count (extent (Vector3.y (Box3_getSize (Box3_setFromObject object)))
                (voxelsPerUnit w)) ky ->
  trip_count (extent (Vector3.z (Box3_getSize (Box3_setFromObject object)))
                (voxelsPerUnit w)) kz ->
  (kx < fuel)%nat -> (ky < fuel)%nat -> (kz < fuel)%nat ->
  exists (n : nat) (m : Material) (w2 : World num) (grid : Grid num),
    calculateGrid fuel
      (extent (Vector3.x (Box3_getSize (Box3_setFromObject object))) (voxelsPerUnit w))
      (extent (Vector3.y (Box3_getSize (Box3_setFromObject object))) (voxelsPerUnit w))
      (extent (Vector3.z (Box3_getSize (Box3_setFromObject object))) (voxelsPerUnit w))
      w
    = Ok (grid, after_raycasts object n w)
    /\ length (grid_cells grid) = (kx * ky * kz)%nat
    /\ capture_slots (mesh_materials object) None (after_raycasts object n w)
       = Ok (Some m, w2)
    /\ voxelize fuel w
       = Ok (tt, drawn m (cells_in grid kx ky kz) (cleared_world object w2)).
Proof.
  intros Hcur [Hne Hone] Hids Hx Hy Hz Hfx Hfy Hfz.
  destruct (calculateGrid_run Raycaster_intersectObject object w _ _ _ kx ky kz fuel
              Hcur Hx Hy Hz Hfx Hfy Hfz) as [n Hgrid].
  destruct (capture_slots_cloneable _ Hone None (after_raycasts object n w))
    as (captured & w2 & Hcap & Hsome).
  destruct captured as [m|]; [|exfalso; apply Hsome; [left; exact Hne | reflexivity]].
  exists n, m, w2. eexists. split; [exact Hgrid|].
  split; [apply grid_cells_dense3_length|]. split; [exact Hcap|].
  pose proof (capture_slots_Ok _ _ _ _ _ Hcap) as (Hs & Hc & Hv & Hn & _).
  simpl in Hs, Hc, Hv, Hn.
  unfold voxelize.
  unfold bind at 1, gets at 1. rewrite Hcur.
  unfold bind at 1, getDimensions at 1, ret at 1.
  unfold bind at 1, gets at 1. cbv zeta.
  cbn [Dimensions.x Dimensions.y Dimensions.z]. fold (extent
    (Vector3.x (Box3_getSize (Box3_setFromObject object))) (voxelsPerUnit w)).
  fold (extent (Vector3.y (Box3_getSize (Box3_setFromObject object))) (voxelsPerUnit w)).
  fold (extent (Vector3.z (Box3_getSize (Box3_setFromObject object))) (voxelsPerUnit w)).
  rewrite (bind_Ok _ Hgrid).
  unfold bind at 1, gets at 1. simpl currentObject. rewrite Hcur.
  unfold bind at 1. rewrite traverse_capture, Hcap.
  unfold bind at 1, gets at 1. rewrite Hc, Hcur.
  unfold bind at 1. rewrite remove_then_clear.
  apply drawGrid_run; try assumption.
  - intros i j k Hi Hj Hk. rewrite arr_get3_dense3.
    rewrite (proj2 (Nat.ltb_lt i kx) Hi), (proj2 (Nat.ltb_lt j ky) Hj),
      (proj2 (Nat.ltb_lt k kz) Hk). discriminate.
  - unfold scene_ids_allocated, cleared_world. simpl.
    apply cleared_children_Forall, remove_child_Forall. rewrite Hs.
    eapply Forall_impl; [|exact Hids]. cbv beta. intros o Ho. lia.
Qed.

End Pipeline.

(** *** Degenerate inputs, in doubles *)

Lemma float_zero_trip_count (r : float) (b : bool) :
  Prim2SF r = S754_zero b -> trip_count (num := float) r 1.
Proof.
  intros Hr. split.
  - intros i Hi. replace i with 0%nat by lia. simpl.
    rewrite FloatAxioms.leb_spec, Hr, Prim2SF_zero. destruct b; reflexivity.
  - simpl. rewrite FloatAxioms.leb_spec, Hr, Prim2SF_one. destruct b; reflexivity.
Qed.

Lemma float_ceil_zero (s : float) :
  PrimFloat.eqb s (float_of_nat 0) = true -> float_ceil s = s.
Proof.
  rewrite FloatAxioms.eqb_spec, Prim2SF_zero. unfold float_ceil.
  destruct (Prim2SF s) as [ss|ss| |ss ms es]; try reflexivity.
  destruct ss; discriminate.
Qed.

(** A zero size gives a zero extent, and one layer of cells. *)
Lemma float_zero_extent (s d : float) :
  PrimFloat.eqb s (float_of_nat 0) = true ->
  float_is_finite d = true ->
  trip_count (num := float) (extent s d) 1.
Proof.
  intros Hs Hd. unfold extent. simpl. rewrite (float_ceil_zero s Hs).
  destruct (float_mul_zero s d Hs Hd) as [b Hb].
  exact (float_zero_trip_count _ b Hb).
Qed.

(** A density that is not positive gives extents below one. *)
Lemma float_nonpositive_extent (s d : float) :
  PrimFloat.ltb (float_ceil s) (float_of_nat 0) = false ->
  PrimFloat.leb d (float_of_nat 0) = true ->
  exists k, (k <= 1)%nat /\ trip_count (num := float) (extent s d) k.
Proof.
  intros Hs Hd.
  pose proof (float_mul_nonpositive (float_ceil s) d Hs Hd) as H1.
  exists (if (of_nat 0 <=? extent s d)%num then 1%nat else 0%nat). split.
  - destruct (of_nat 0 <=? extent s d)%num; lia.
  - apply trip_count_at_most_one. exact H1.
Qed.

(** The sizes of a bounding box are not negative: an empty box has size
    zero, and in any other box no [max] is below its [min]. *)
Lemma float_size_not_negative (b : Box3.t float) :
  PrimFloat.ltb (float_ceil (Vector3.x (Box3_getSize b))) (float_of_nat 0) = false
  /\ PrimFloat.ltb (float_ceil (Vector3.y (Box3_getSize b))) (float_of_nat 0) = false
  /\ PrimFloat.ltb (float_ceil (Vector3.z (Box3_getSize b))) (float_of_nat 0) = false.
Proof.
  unfold Box3_getSize. destruct (Box3_isEmpty b) eqn:Hbox.
  - repeat split; vm_compute; reflexivity.
  - unfold Box3_isEmpty in Hbox.
    apply orb_false_elim in Hbox. destruct Hbox as [Hbox Hz].
    apply orb_false_elim in Hbox. destruct Hbox as [Hx Hy].
    repeat split; apply float_ceil_not_negative, float_sub_not_negative; assumption.
Qed.

Lemma float_div_zero (d : float) :
  PrimFloat.eqb d (float_of_nat 0) = true ->
  float_is_finite (PrimFloat.div (float_of_nat 1) d) = false.
Proof.
  unfold float_is_finite.
  rewrite FloatAxioms.eqb_spec, FloatAxioms.div_spec, Prim2SF_zero, Prim2SF_one.
  destruct (Prim2SF d) as [sd|sd| |sd md ed]; try destruct sd; simpl;
    try discriminate; reflexivity.
Qed.

Section Degenerate.
Local Open Scope num_scope.

Variable Box3_setFromObject : Object3D float -> Box3.t float.
Variable Raycaster_intersectObject :
  Vector3.t float -> Vector3.t float -> Object3D float -> list (Intersection float).

Notation calculateGrid := (calculateGrid Raycaster_intersectObject).
Notation voxelize := (voxelize Box3_setFromObject Raycaster_intersectObject).
Notation size_of object := (Box3_getSize (Box3_setFromObject object)).

(** C8, as amended. With a density that is zero or negative the pass
    raises no error.  Every extent [ceil(size) * density] is then below
    one, so each loop runs at most once: the pass returns, and the grid
    it builds has at most one cell.  With density zero the cell size
    [1/density] is the result of a division by zero, an infinity. *)
Theorem voxelize_nonpositive_density (object : Object3D float) (w : World float)
    (fuel : nat) :
  currentObject w = Some object ->
  cloneable object ->
  scene_ids_allocated w ->
  (voxelsPerUnit w <=? of_nat 0) = true ->
  (2 <= fuel)%nat ->
  exists (w' w1 : World float) (grid : Grid float),
    voxelize fuel w = Ok (tt, w')
    /\ calculateGrid fuel
         (extent (Vector3.x (size_of object)) (voxelsPerUnit w))
         (extent (Vector3.y (size_of object)) (voxelsPerUnit w))
         (extent (Vector3.z (size_of object)) (voxelsPerUnit w)) w
       = Ok (grid, w1)
    /\ (length (grid_cells grid) <= 1)%nat
    /\ (PrimFloat.eqb (voxelsPerUnit w) (of_nat 0) = true ->
        float_is_finite (of_nat 1 / voxelsPerUnit w) = false).
Proof.
  intros Hcur Hclone Hids Hd Hfuel.
  destruct (float_size_not_negative (Box3_setFromObject object)) as (Hsx & Hsy & Hsz).
  destruct (float_nonpositive_extent _ _ Hsx Hd) as (kx & Hkx & Hx).
  destruct (float_nonpositive_extent _ _ Hsy Hd) as (ky & Hky & Hy).
  destruct (float_nonpositive_extent _ _ Hsz Hd) as (kz & Hkz & Hz).
  destruct (voxelize_run Box3_setFromObject Raycaster_intersectObject object w
              kx ky kz fuel Hcur Hclone Hids Hx Hy Hz ltac:(lia) ltac:(lia) ltac:(lia))
    as (n & m & w2 & grid & Hgrid & Hlen & _ & Hrun).
  eexists _, _, grid. split; [exact Hrun|]. split; [exact Hgrid|]. split.
  - rewrite Hlen. destruct kx as [|[|kx]], ky as [|[|ky]], kz as [|[|kz]]; simpl; lia.
  - apply float_div_zero.
Qed.

(** C9, as amended. With a bounding box of zero volume (a size of zero
    on some axis) and a finite density the pass raises no error: when
    its loops run [kx], [ky] and [kz] times it returns, the grid it
    builds has [kx * ky * kz] cells, and a loop over an axis of size
    zero runs exactly once, so that the grid has one layer of cells
    along that axis. *)
Theorem voxelize_zero_volume (object : Object3D float) (w : World float)
    (kx ky kz fuel : nat) :
  currentObject w = Some object ->
  cloneable object ->
  scene_ids_allocated w ->
  float_is_finite (voxelsPerUnit w) = true ->
  PrimFloat.eqb (Vector3.x (size_of object)) (of_nat 0) = true
  \/ PrimFloat.eqb (Vector3.y (size_of object)) (of_nat 0) = true
  \/ PrimFloat.eqb (Vector3.z (size_of object)) (of_nat 0) = true ->
  trip_count (extent (Vector3.x (size_of object)) (voxelsPerUnit w)) kx ->
  trip_count (extent (Vector3.y (size_of object)) (voxelsPerUnit w)) ky ->
  trip_count (extent (Vector3.z (size_of object)) (voxelsPerUnit w)) kz ->
  (kx < fuel)%nat -> (ky < fuel)%nat -> (kz < fuel)%nat ->
  exists (w' w1 : World float) (grid : Grid float),
    voxelize fuel w = Ok (tt, w')
    /\ calculateGrid fuel
         (extent (Vector3.x (size_of object)) (voxelsPerUnit w))
         (extent (Vector3.y (size_of object)) (voxelsPerUnit w))
         (extent (Vector3.z (size_of object)) (voxelsPerUnit w)) w
       = Ok (grid, w1)
    /\ length (grid_cells grid) = (kx * ky * kz)%nat
    /\ (PrimFloat.eqb (Vector3.x (size_of object)) (of_nat 0) = true -> kx = 1%nat)
    /\ (PrimFloat.eqb (Vector3.y (size_of object)) (of_nat 0) = true -> ky = 1%nat)
    /\ (PrimFloat.eqb (Vector3.z (size_of object)) (of_nat 0) = true -> kz = 1%nat).
Proof.
  intros Hcur Hclone Hids Hd _ Hx Hy Hz Hfx Hfy Hfz.
  destruct (voxelize_run Box3_setFromObject Raycaster_intersectObject object w
              kx ky kz fuel Hcur Hclone Hids Hx Hy Hz Hfx Hfy Hfz)
    as (n & m & w2 & grid & Hgrid & Hlen & _ & Hrun).
  eexists _, _, grid. split; [exact Hrun|]. split; [exact Hgrid|].
  split; [exact Hlen|].
  split; [|split]; intros H0.
  - exact (trip_count_unique _ _ _ Hx (float_zero_extent _ _ H0 Hd)).
  - exact (trip_count_unique _ _ _ Hy (float_zero_extent _ _ H0 Hd)).
  - exact (trip_count_unique _ _ _ Hz (float_zero_extent _ _ H0 Hd)).
Qed.

End Degenerate.

(** ** Witnesses and counterexamples *)

Section ScenarioFacts.
Context {num : Type} {NUM : Number num}.

Lemma box_first_hit_nearest_first (lo hi : Vector3.t num) :
  nearest_first (box_first_hit lo hi).
Proof.
  intros origin direction object hit rest. unfold box_first_hit.
  repeat match goal with
         | |- context [if ?c then _ else _] => destruct c
         end;
    intros [= <- <-] h [].
Qed.

Lemma model_cloneable : cloneable model.
Proof.
  split; [discriminate|]. repeat constructor. eexists. reflexivity.
Qed.

Lemma model_world_ids (density : num) : scene_ids_allocated (model_world density).
Proof. repeat constructor. Qed.

End ScenarioFacts.

Lemma doesVoxelIntersectObject_twelve_rays_witness :
  nearest_first (box_first_hit unit_cube_lo unit_cube_hi)
  /\ leb_transitive (num := float)
  /\ currentObject (model_world 1%float) = Some model
  /\ exists (occupied : bool) (w' : World float),
       doesVoxelIntersectObject (box_first_hit unit_cube_lo unit_cube_hi)
         0%float 0%float 0%float 1%float (model_world 1%float)
       = Ok (occupied, w')
       /\ (occupied = true
           <-> twelve_rays_hit (box_first_hit unit_cube_lo unit_cube_hi) model
                 0%float 0%float 0%float 1%float)
       /\ (occupied = false
           <-> ~ twelve_rays_hit (box_first_hit unit_cube_lo unit_cube_hi) model
                   0%float 0%float 0%float 1%float).
Proof.
  split; [apply box_first_hit_nearest_first|].
  split; [exact float_leb_transitive|].
  split; [reflexivity|].
  exact (doesVoxelIntersectObject_twelve_rays
           (box_first_hit unit_cube_lo unit_cube_hi) model
           0%float 0%float 0%float 1%float (model_world 1%float)
           (box_first_hit_nearest_first unit_cube_lo unit_cube_hi)
           float_leb_transitive eq_refl).
Defined.

Lemma calculateGrid_dense_witness :
  currentObject (model_world 1%float) = Some model
  /\ trip_count (of_nat (num := float) 1) 2
  /\ exists (grid : Grid float) (w' : World float),
       calculateGrid (box_first_hit unit_cube_lo unit_cube_hi) 5
         (of_nat 1) (of_nat 1) (of_nat 1) (model_world 1%float)
       = Ok (grid, w')
       /\ length (grid_cells grid) = 8.
Proof.
  split; [reflexivity|].
  assert (H1 : trip_count (of_nat (num := float) 1) 2) by (apply float_trip_count; lia).
  split; [exact H1|].
  destruct (calculateGrid_dense (box_first_hit unit_cube_lo unit_cube_hi) model
              (model_world 1%float) 1 1 1 5 eq_refl H1 H1 H1
              ltac:(lia) ltac:(lia) ltac:(lia))
    as (grid & w' & Hrun & Hlen & _).
  exists grid, w'. split; [exact Hrun | exact Hlen].
Defined.

(** In exact arithmetic every subtraction is exact. *)
Lemma Qc_exact_difference (lo hi : Qc) : exact_difference lo hi.
Proof.
  intros a b Ha Hb. injection Ha as <-. injection Hb as <-.
  eexists. split; [reflexivity|].
  change (Qred (this hi + Qred (- this lo)) == this hi - this lo)%Q.
  rewrite (Qred_correct (this hi + Qred (- this lo))).
  apply Qplus_comp; [reflexivity | apply Qred_correct].
Qed.

Lemma block_exact_difference :
  exact_difference (Vector3.x block_lo) (Vector3.x block_hi).
Proof.
  intros a b Ha Hb. vm_compute in Ha, Hb. injection Ha as <-. injection Hb as <-.
  eexists. split; [vm_compute; reflexivity|]. reflexivity.
Qed.

Lemma getDimensions_ceiling_witness :
  ceil_exact float
  /\ Box3_isEmpty (box_of block_lo block_hi model) = false
  /\ exists dims : Dimensions.t float,
       getDimensions (box_of block_lo block_hi) model (model_world 6%float)
       = Ok (dims, model_world 6%float)
       /\ ceiling_of (1.5 - 0)%float (Dimensions.x dims)
       /\ ceiling_of (1 - 0)%float (Dimensions.y dims)
       /\ ceiling_of (0.25 - 0)%float (Dimensions.z dims)
       /\ covers_extent 0%float 1.5%float (Dimensions.x dims).
Proof.
  split; [exact float_ceil_is_exact|].
  split; [reflexivity|].
  destruct (getDimensions_ceiling (box_of block_lo block_hi) model (model_world 6%float)
              float_ceil_is_exact eq_refl)
    as (dims & Hrun & Hx & Hy & Hz & Hcx & _).
  exists dims. split; [exact Hrun|]. split; [exact Hx|]. split; [exact Hy|].
  split; [exact Hz|]. exact (Hcx block_exact_difference).
Defined.

(** C5 does not hold of the doubles of the program with the true extent
    read as the difference of the two bounds: for a box from [x = 0.1]
    to [x = 3.1] the subtraction rounds [3 + 3/2^55] to [3], and the
    dimension returned on that axis, [3], is below the extent. *)
Lemma getDimensions_below_true_extent :
  Box3_isEmpty (box_of bar_lo bar_hi model) = false
  /\ getDimensions (box_of bar_lo bar_hi) model (model_world 6%float)
     = Ok (Dimensions.mk 3%float 1%float 1%float, model_world 6%float)
  /\ (exists a b r : Q,
        to_Q (Vector3.x bar_lo) = Some a
        /\ to_Q (Vector3.x bar_hi) = Some b
        /\ to_Q 3%float = Some r
        /\ (r == 3)%Q
        /\ (b - a == 3 + (3 # 36028797018963968))%Q
        /\ (r < b - a)%Q)
  /\ ~ covers_extent (Vector3.x bar_lo) (Vector3.x bar_hi) 3%float.
Proof.
  split; [vm_compute; reflexivity|]. split; [vm_compute; reflexivity|]. split.
  - eexists _, _, _. split; [vm_compute; reflexivity|].
    split; [vm_compute; reflexivity|]. split; [vm_compute; reflexivity|].
    split; [vm_compute; reflexivity|]. split; vm_compute; reflexivity.
  - intros Hcover.
    destruct (Hcover _ _ ltac:(vm_compute; reflexivity) ltac:(vm_compute; reflexivity))
      as (r & Hr & Hle).
    vm_compute in Hr. injection Hr as <-. vm_compute in Hle. apply Hle. reflexivity.
Qed.

Lemma drawGrid_one_cube_per_occupied_cell_witness :
  trip_count (of_nat (num := float) 0) 1
  /\ trip_count (of_nat (num := float) 1) 2
  /\ (forall i j k, i < 1 -> j < 1 -> k < 2 -> arr_get3 two_cells i j k <> None)
  /\ scene_ids_allocated (model_world 1%float)
  /\ exists (w' : World float) (voxels : list (Object3D float)),
       drawGrid 5 (of_nat 0) (of_nat 0) (of_nat 1) two_cells
         (Some {| material_id := 4 |}) (model_world 1%float) = Ok (tt, w')
       /\ scene_children w' = scene_children (model_world 1%float) ++ voxels
       /\ length voxels = 1.
Proof.
  assert (H0 : trip_count (of_nat (num := float) 0) 1) by (apply float_trip_count; lia).
  assert (H1 : trip_count (of_nat (num := float) 1) 2) by (apply float_trip_count; lia).
  assert (Hgrid : forall i j k, i < 1 -> j < 1 -> k < 2 -> arr_get3 two_cells i j k <> None).
  { intros i j k Hi Hj Hk.
    destruct i as [|i]; [|lia]. destruct j as [|j]; [|lia].
    destruct k as [|[|k]]; [discriminate | discriminate | lia]. }
  split; [exact H0|]. split; [exact H1|]. split; [exact Hgrid|].
  split; [apply model_world_ids|].
  destruct (drawGrid_one_cube_per_occupied_cell two_cells {| material_id := 4 |}
              (model_world 1%float) (of_nat 0) (of_nat 0) (of_nat 1) 1 1 2 5
              H0 H0 H1 ltac:(lia) ltac:(lia) ltac:(lia) Hgrid (model_world_ids 1%float))
    as (w' & voxels & Hrun & Hscene & Hlen & _).
  exists w', voxels. split; [exact Hrun|]. split; [exact Hscene | exact Hlen].
Defined.

Lemma voxelize_nonpositive_density_witness :
  currentObject (model_world (-6)%float) = Some model
  /\ (voxelsPerUnit (model_world (-6)%float) <=? of_nat 0)%num = true
  /\ exists (w' w1 : World float) (grid : Grid float),
       voxelize (box_of unit_cube_lo unit_cube_hi)
         (box_first_hit unit_cube_lo unit_cube_hi) 5 (model_world (-6)%float)
       = Ok (tt, w')
       /\ calculateGrid (box_first_hit unit_cube_lo unit_cube_hi) 5
            (extent (Vector3.x (Box3_getSize (box_of unit_cube_lo unit_cube_hi model)))
               (-6)%float)
            (extent (Vector3.y (Box3_getSize (box_of unit_cube_lo unit_cube_hi model)))
               (-6)%float)
            (extent (Vector3.z (Box3_getSize (box_of unit_cube_lo unit_cube_hi model)))
               (-6)%float)
            (model_world (-6)%float)
          = Ok (grid, w1)
       /\ length (grid_cells grid) <= 1.
Proof.
  split; [reflexivity|]. split; [reflexivity|].
  destruct (voxelize_nonpositive_density (box_of unit_cube_lo unit_cube_hi)
              (box_first_hit unit_cube_lo unit_cube_hi) model (model_world (-6)%float) 5
              eq_refl model_cloneable (model_world_ids (-6)%float)
              eq_refl ltac:(lia))
    as (w' & w1 & grid & Hrun & Hgrid & Hlen & _).
  exists w', w1, grid. split; [exact Hrun|]. split; [exact Hgrid | exact Hlen].
Defined.

(** C8 fails: no error is raised.  With density 0 the pass on the unit
    cube returns normally; the cell size it has used is [1/0], an
    infinity, and the coordinate of its single cell is not a number.
    With density -6 it returns normally as well. *)
Lemma voxelize_zero_density_no_error :
  (voxelsPerUnit (model_world 0%float) <=? of_nat 0)%num = true
  /\ (exists w' : World float,
        voxelize (box_of unit_cube_lo unit_cube_hi)
          (box_first_hit unit_cube_lo unit_cube_hi) 5 (model_world 0%float)
        = Ok (tt, w'))
  /\ (of_nat 1 / voxelsPerUnit (model_world 0%float))%num = infinity
  /\ (exists c : float,
        eval (calculateCoordinates (of_nat 0) (of_nat 0)) (model_world 0%float) = Some c
        /\ PrimFloat.eqb c c = false)
  /\ (exists w' : World float,
        voxelize (box_of unit_cube_lo unit_cube_hi)
          (box_first_hit unit_cube_lo unit_cube_hi) 5 (model_world (-6)%float)
        = Ok (tt, w')).
Proof.
  split; [reflexivity|].
  split; [eexists; vm_compute; reflexivity|].
  split; [reflexivity|].
  split; [eexists; split; [reflexivity | vm_compute; reflexivity]|].
  eexists; vm_compute; reflexivity.
Qed.

Lemma voxelize_zero_volume_witness :
  float_is_finite (voxelsPerUnit (model_world 1%float)) = true
  /\ PrimFloat.eqb (Vector3.z (Box3_getSize (box_of plate_lo plate_hi model)))
       (of_nat 0) = true
  /\ exists (w' w1 : World float) (grid : Grid float),
       voxelize (box_of plate_lo plate_hi) (box_first_hit plate_lo plate_hi)
         5 (model_world 1%float) = Ok (tt, w')
       /\ calculateGrid (box_first_hit plate_lo plate_hi) 5
            (extent (Vector3.x (Box3_getSize (box_of plate_lo plate_hi model))) 1%float)
            (extent (Vector3.y (Box3_getSize (box_of plate_lo plate_hi model))) 1%float)
            (extent (Vector3.z (Box3_getSize (box_of plate_lo plate_hi model))) 1%float)
            (model_world 1%float)
          = Ok (grid, w1)
       /\ length (grid_cells grid) = 2 * 2 * 1.
Proof.
  split; [reflexivity|]. split; [reflexivity|].
  assert (H0 : trip_count (of_nat (num := float) 0) 1) by (apply float_trip_count; lia).
  assert (H1 : trip_count (of_nat (num := float) 1) 2) by (apply float_trip_count; lia).
  assert (Ex : extent (Vector3.x (Box3_getSize (box_of plate_lo plate_hi model)))
                 (voxelsPerUnit (model_world 1%float)) = of_nat 1)
    by (vm_compute; reflexivity).
  assert (Ey : extent (Vector3.y (Box3_getSize (box_of plate_lo plate_hi model)))
                 (voxelsPerUnit (model_world 1%float)) = of_nat 1)
    by (vm_compute; reflexivity).
  assert (Ez : extent (Vector3.z (Box3_getSize (box_of plate_lo plate_hi model)))
                 (voxelsPerUnit (model_world 1%float)) = of_nat 0)
    by (vm_compute; reflexivity).
  rewrite <- Ex in H1 at 1. rewrite <- Ez in H0.
  destruct (voxelize_zero_volume (box_of plate_lo plate_hi)
              (box_first_hit plate_lo plate_hi) model (model_world 1%float) 2 2 1 5
              eq_refl model_cloneable (model_world_ids 1%float) eq_refl
              (or_intror (or_intror eq_refl)) H1 H1 H0
              ltac:(lia) ltac:(lia) ltac:(lia))
    as (w' & w1 & grid & Hrun & Hgrid & Hlen & _).
  exists w', w1, grid. split; [exact Hrun|]. split; [exact Hgrid | exact Hlen].
Defined.

(** C9 fails: no error is raised.  For the plate of zero thickness at
    density 1 the pass returns normally, having built a grid of four
    cells and added four cubes to the scene. *)
Lemma voxelize_plate_no_error :
  PrimFloat.eqb (Vector3.z (Box3_getSize (box_of plate_lo plate_hi model)))
    (of_nat 0) = true
  /\ exists w' : World float,
       voxelize (box_of plate_lo plate_hi) (box_first_hit plate_lo plate_hi)
         5 (model_world 1%float) = Ok (tt, w')
       /\ length (scene_children w') = 5
       /\ (exists grid w1,
             calculateGrid (box_first_hit plate_lo plate_hi) 5
               (of_nat 1) (of_nat 1) (of_nat 0) (model_world 1%float) = Ok (grid, w1)
             /\ length (grid_cells grid) = 4).
Proof.
  split; [reflexivity|].
  eexists. split; [vm_compute; reflexivity|].
  split; [reflexivity|].
  eexists _, _. split; [vm_compute; reflexivity | reflexivity].
Qed.

(** ** Further properties of the code *)

(** *** Clearing the scene *)

Section Clearing.
Context {num : Type} {NUM : Number num}.
Local Open Scope num_scope.

Lemma remove_child_filter (u : nat) (cs : list (Object3D num)) :
  NoDup (map (@uuid num) cs) ->
  remove_child u cs = filter (fun c => negb (Nat.eqb (uuid c) u)) cs.
Proof.
  induction cs as [|c cs IH]; intros Hnd; simpl; [reflexivity|].
  inversion Hnd as [|? ? Hnotin Hnd']; subst.
  destruct (Nat.eqb_spec (uuid c) u) as [Heq | Hne]; simpl.
  - symmetry. apply forallb_filter_id. apply forallb_forall. intros x Hx.
    apply negb_true_iff, Nat.eqb_neq. intros Hxu. apply Hnotin.
    rewrite Heq, <- Hxu. apply in_map. exact Hx.
  - rewrite IH by exact Hnd'. reflexivity.
Qed.

(** Keys that are distinct stay distinct when elements are dropped. *)
Lemma filter_keeps_distinct {Elt Key : Type} (key : Elt -> Key) (keep : Elt -> bool) :
  forall elts : list Elt,
    NoDup (map key elts) -> NoDup (map key (filter keep elts)).
Proof.
  intros elts. induction elts as [|e elts IH]; intros Hnd; simpl; [constructor|].
  inversion Hnd as [|? ? Hnotin Hnd']; subst.
  destruct (keep e); [|apply IH; exact Hnd'].
  simpl. constructor; [|apply IH; exact Hnd'].
  intros Hin. apply Hnotin. apply in_map_iff in Hin as (x & Hx & Hxin).
  apply filter_In in Hxin as [Hxin _]. rewrite <- Hx. apply in_map. exact Hxin.
Qed.

Lemma filter_filter {A : Type} (p q : A -> bool) (l : list A) :
  filter p (filter q l) = filter (fun a => q a && p a) l.
Proof.
  induction l as [|a l IH]; simpl; [reflexivity|].
  destruct (q a); simpl; [destruct (p a)|]; rewrite IH; reflexivity.
Qed.

(** Removing the meshes of a snapshot one by one removes the children
    that a mesh of the snapshot names. *)
Lemma cleared_children_filter (snapshot : list (Object3D num)) :
  forall cs : list (Object3D num),
    NoDup (map (@uuid num) cs) ->
    cleared_children snapshot cs
    = filter (fun c => negb (existsb (fun s => isMesh s && Nat.eqb (uuid c) (uuid s))
                                     snapshot)) cs.
Proof.
  unfold cleared_children.
  induction snapshot as [|s snapshot IH]; intros cs Hnd; simpl.
  - symmetry. apply forallb_filter_id. apply forallb_forall. reflexivity.
  - destruct (isMesh s) eqn:Hmesh; simpl.
    + rewrite IH by (rewrite remove_child_filter by exact Hnd;
                     apply filter_keeps_distinct; exact Hnd).
      rewrite remove_child_filter by exact Hnd. rewrite filter_filter.
      apply filter_ext. intros c. rewrite negb_orb. reflexivity.
    + apply IH. exact Hnd.
Qed.

Lemma cleared_children_not_meshes (cs : list (Object3D num)) :
  NoDup (map (@uuid num) cs) -> cleared_children cs cs = not_meshes cs.
Proof.
  intros Hnd. rewrite cleared_children_filter by exact Hnd. unfold not_meshes.
  apply filter_ext_in. intros c Hc. f_equal.
  destruct (isMesh c) eqn:Hmesh.
  - apply existsb_exists. exists c. split; [exact Hc|].
    rewrite Hmesh, Nat.eqb_refl. reflexivity.
  - apply not_true_is_false. intros Hex.
    apply existsb_exists in Hex as (s & Hs & Hsc).
    apply andb_true_iff in Hsc as [Hsm Heq]. apply Nat.eqb_eq in Heq.
    assert (s = c); [|subst s; congruence].
    clear Hsm Hmesh. induction cs as [|a cs IH]; [contradiction|].
    simpl in Hnd. inversion Hnd as [|? ? Hnotin Hnd']; subst.
    destruct Hc as [-> | Hc], Hs as [-> | Hs].
    + reflexivity.
    + exfalso. apply Hnotin. rewrite Heq. apply in_map. exact Hs.
    + exfalso. apply Hnotin. rewrite <- Heq. apply in_map. exact Hc.
    + apply IH; assumption.
Qed.

Lemma clear_events_not_meshes (cs : list (Object3D num)) :
  Forall (fun c => isMesh c = false) cs -> flat_map clear_events cs = [].
Proof.
  induction 1 as [|c cs Hc _ IH]; simpl; [reflexivity|].
  unfold clear_events at 1. rewrite Hc, IH. reflexivity.
Qed.

Lemma not_meshes_Forall (cs : list (Object3D num)) :
  Forall (fun c => isMesh c = false) (not_meshes cs).
Proof.
  apply Forall_forall. intros c Hc. apply filter_In in Hc as [_ Hc].
  apply negb_true_iff. exact Hc.
Qed.

Lemma not_meshes_id (cs : list (Object3D num)) :
  Forall (fun c => isMesh c = false) cs -> not_meshes cs = cs.
Proof.
  intros Hcs. apply forallb_filter_id. apply forallb_forall. intros c Hc.
  rewrite Forall_forall in Hcs. rewrite (Hcs c Hc). reflexivity.
Qed.

Lemma clearScene_run (w : World num) :
  clearScene w
  = Ok (tt, {| scene_children := cleared_children (scene_children w) (scene_children w);
               currentObject := currentObject w;
               voxelsPerUnit := voxelsPerUnit w;
               next_id := next_id w;
               log := log w ++ flat_map clear_events (scene_children w) |}).
Proof.
  unfold clearScene, bind at 1, gets at 1. apply clearScene_forEach.
Qed.

(** [clearScene] removes the meshes that are direct children of the
    scene, and only them: the lights and groups stay, in their order.
    Each removed mesh has its geometry disposed, and its material or the
    materials of its array.  The variables of the program and the
    allocator are left as they were. *)
Theorem clearScene_removes_direct_meshes (w : World num) :
  distinct_children w ->
  exists w' : World num,
    clearScene w = Ok (tt, w')
    /\ scene_children w' = not_meshes (scene_children w)
    /\ currentObject w' = currentObject w
    /\ voxelsPerUnit w' = voxelsPerUnit w
    /\ next_id w' = next_id w
    /\ log w' = log w ++ flat_map clear_events (scene_children w).
Proof.
  intros Hnd. eexists. split; [apply clearScene_run|]. simpl.
  split; [apply cleared_children_not_meshes; exact Hnd|].
  repeat split.
Qed.

(** Clearing a cleared scene does nothing: a second [clearScene] finds
    no mesh, removes nothing and disposes nothing. *)
Theorem clearScene_idempotent (w : World num) :
  distinct_children w ->
  (clearScene ;;; clearScene) w = clearScene w.
Proof.
  intros Hnd. unfold bind. rewrite (clearScene_run w).
  rewrite clearScene_run. simpl.
  rewrite (cleared_children_not_meshes _ Hnd).
  rewrite cleared_children_not_meshes
    by (apply filter_keeps_distinct; exact Hnd).
  rewrite (not_meshes_id _ (not_meshes_Forall _)).
  rewrite (clear_events_not_meshes _ (not_meshes_Forall _)), app_nil_r.
  reflexivity.
Qed.

(** [clearScene] does not look below the direct children of the scene.
    A scene whose children are lights and groups is left exactly as it
    is, whatever meshes the groups hold: nothing is removed and no
    geometry or material of a nested mesh is disposed. *)
Theorem clearScene_keeps_nested_meshes (w : World num) :
  Forall (fun c => isMesh c = false) (scene_children w) ->
  clearScene w = Ok (tt, w).
Proof.
  intros Hcs. rewrite clearScene_run.
  rewrite (clear_events_not_meshes _ Hcs), app_nil_r.
  assert (Hkeep : forall snapshot cs : list (Object3D num),
             Forall (fun c => isMesh c = false) snapshot ->
             cleared_children snapshot cs = cs).
  { unfold cleared_children. induction snapshot as [|c snapshot IH]; intros cs Hs.
    - reflexivity.
    - inversion Hs as [|? ? Hc Hs']; subst. simpl. rewrite Hc. apply IH. exact Hs'. }
  rewrite (Hkeep _ _ Hcs). destruct w; reflexivity.
Qed.

End Clearing.

Lemma clearScene_removes_direct_meshes_witness :
  distinct_children (cubes_world 6%float)
  /\ exists w' : World float,
       clearScene (cubes_world 6%float) = Ok (tt, w')
       /\ scene_children w' = [light]
       /\ log w' = [EvSceneRemove 7; EvDisposeGeometry 6; EvDisposeMaterial 5;
                    EvSceneRemove 9; EvDisposeGeometry 8; EvDisposeMaterial 5].
Proof.
  assert (Hnd : distinct_children (cubes_world 6%float)).
  { unfold distinct_children. simpl. repeat constructor; simpl; intuition discriminate. }
  split; [exact Hnd|].
  destruct (clearScene_removes_direct_meshes (cubes_world 6%float) Hnd)
    as (w' & Hrun & Hscene & _ & _ & _ & Hlog).
  exists w'. split; [exact Hrun|]. split; [exact Hscene | exact Hlog].
Defined.

Lemma clearScene_idempotent_witness :
  distinct_children (cubes_world 6%float)
  /\ (clearScene ;;; clearScene) (cubes_world 6%float) = clearScene (cubes_world 6%float).
Proof.
  assert (Hnd : distinct_children (cubes_world 6%float)).
  { unfold distinct_children. simpl. repeat constructor; simpl; intuition discriminate. }
  split; [exact Hnd|].
  exact (clearScene_idempotent (cubes_world 6%float) Hnd).
Defined.

Lemma clearScene_keeps_nested_meshes_witness :
  Forall (fun c => isMesh c = false) (scene_children (model_world 6%float))
  /\ mesh_materials (num := float) model = [OneMaterial {| material_id := 4 |}]
  /\ clearScene (model_world 6%float) = Ok (tt, model_world 6%float).
Proof.
  assert (H : Forall (fun c : Object3D float => isMesh c = false)
                (scene_children (model_world 6%float))).
  { repeat constructor. }
  split; [exact H|]. split; [reflexivity|].
  exact (clearScene_keeps_nested_meshes (model_world 6%float) H).
Defined.

(** *** Loops that throw, and loops that do not end *)

Section LoopOutcomes.
Context {num : Type} {NUM : Number num}.
Local Open Scope num_scope.

(** A loop whose body keeps an invariant and never throws under it does
    not throw: it returns in a state of the invariant, or it is still
    running when the fuel is spent. *)
Lemma for_le_safe {A : Type} (P : A -> World num -> Prop)
    (bound : num) (body : nat -> A -> M num A) :
  (forall i a w, P a w ->
     match body i a w with
     | Ok (a', w') => P a' w'
     | TypeError => False
     | OutOfFuel => True
     end) ->
  forall fuel i a w, P a w ->
    match for_le fuel i bound body a w with
    | Ok (a', w') => P a' w'
    | TypeError => False
    | OutOfFuel => True
    end.
Proof.
  intros Hbody. induction fuel as [|fuel IH]; intros i a w HP; simpl; [exact I|].
  destruct (of_nat i <=? bound); [|exact HP].
  unfold bind. specialize (Hbody i a w HP).
  destruct (body i a w) as [[a1 w1]| |]; [|contradiction|exact I].
  apply IH. exact Hbody.
Qed.

(** A loop whose test never fails does not return. *)
Lemma for_le_unbounded {A : Type} (bound : num) (body : nat -> A -> M num A) :
  (forall i, (of_nat i <=? bound) = true) ->
  forall fuel i a w a' w', for_le fuel i bound body a w <> Ok (a', w').
Proof.
  intros Htest. induction fuel as [|fuel IH]; intros i a w a' w'; simpl; [discriminate|].
  rewrite Htest. unfold bind.
  destruct (body i a w) as [[a1 w1]| |]; [apply IH | discriminate | discriminate].
Qed.

(** Given fuel for its rounds, a loop whose body does not run out of
    fuel does not either. *)
Lemma for_le_fuel {A : Type} (bound : num) (k : nat) (body : nat -> A -> M num A) :
  trip_count bound k ->
  (forall i a w, (i < k)%nat -> body i a w <> OutOfFuel) ->
  forall fuel i a w, (i <= k)%nat -> (k - i < fuel)%nat ->
    for_le fuel i bound body a w <> OutOfFuel.
Proof.
  intros [Hin Hout] Hbody. induction fuel as [|fuel IH]; intros i a w Hik Hfuel.
  - lia.
  - simpl. destruct (Nat.eq_dec i k) as [-> | Hne].
    + rewrite Hout. discriminate.
    + rewrite Hin by lia. unfold bind.
      specialize (Hbody i a w ltac:(lia)).
      destruct (body i a w) as [[a1 w1]| |]; [|discriminate|contradiction].
      apply IH; lia.
Qed.

(** A loop throws when one of its rounds does, whatever the rounds
    before it have done. *)
Lemma for_le_throws {A : Type} (bound : num) (k i0 : nat) (body : nat -> A -> M num A) :
  trip_count bound k -> (i0 < k)%nat ->
  (forall a w, body i0 a w = TypeError) ->
  (forall i a w, (i < i0)%nat -> body i a w <> OutOfFuel) ->
  forall fuel i a w, (i <= i0)%nat -> (i0 - i < fuel)%nat ->
    for_le fuel i bound body a w = TypeError.
Proof.
  intros [Hin Hout] Hi0 Hthrow Hbody.
  induction fuel as [|fuel IH]; intros i a w Hi Hfuel.
  - lia.
  - simpl. rewrite Hin by lia. unfold bind.
    destruct (Nat.eq_dec i i0) as [-> | Hne].
    + rewrite Hthrow. reflexivity.
    + specialize (Hbody i a w ltac:(lia)).
      destruct (body i a w) as [[a1 w1]| |]; [|reflexivity|contradiction].
      apply IH; lia.
Qed.

End LoopOutcomes.

(** *** The Grid Builder, whatever its extents *)

Lemma arr_get_set {A : Type} (i : nat) (v : A) :
  forall a : Array A, arr_get (arr_set i v a) i = Some v.
Proof.
  induction i as [|i IH]; intros [|h t]; simpl; try reflexivity.
  - exact (IH []).
  - exact (IH t).
Qed.

Lemma outcome_weaken {num A : Type} (P Q : A -> World num -> Prop)
    (r : Result (A * World num)) :
  (forall a w, P a w -> Q a w) ->
  match r with Ok (a, w) => P a w | TypeError => False | OutOfFuel => True end ->
  match r with Ok (a, w) => Q a w | TypeError => False | OutOfFuel => True end.
Proof. intros HPQ. destruct r as [[a w]| |]; auto. Qed.

Section GridOutcomes.
Context {num : Type} {NUM : Number num}.
Local Open Scope num_scope.

Variable Raycaster_intersectObject :
  Vector3.t num -> Vector3.t num -> Object3D num -> list (Intersection num).

Notation doesVoxelIntersectObject := (doesVoxelIntersectObject Raycaster_intersectObject).
Notation calculateGrid := (calculateGrid Raycaster_intersectObject).

(** With an object loaded the Grid Builder does not throw: every array
    it reads it has written before. *)
Lemma calculateGrid_safe (object : Object3D num) (fuel : nat)
    (sizeX sizeY sizeZ : num) (w : World num) :
  currentObject w = Some object ->
  match calculateGrid fuel sizeX sizeY sizeZ w with
  | Ok (_, w') => currentObject w' = Some object
  | TypeError => False
  | OutOfFuel => True
  end.
Proof.
  intros Hcur. unfold calculateGrid.
  apply (for_le_safe (fun (_ : Grid num) w => currentObject w = Some object));
    [|exact Hcur].
  intros i grid0 w0 H0. cbv zeta.
  apply (outcome_weaken
           (fun (g : Grid num) w => currentObject w = Some object /\ arr_get g i <> None));
    [intros g w1 [H _]; exact H|].
  apply (for_le_safe
           (fun (g : Grid num) w => currentObject w = Some object /\ arr_get g i <> None));
    [|split; [exact H0 | rewrite arr_get_set; discriminate]].
  intros j grid1 w1 [H1 Hi].
  unfold deref at 1.
  match goal with
  | |- context [match ?e with Some _ => _ | None => _ end] =>
      destruct e as [grid_i|] eqn:Hgi;
        [clear Hi | first [exact (Hi Hgi) | exact (Hi eq_refl)]]
  end.
  unfold bind at 1, ret at 1. cbv zeta.
  apply (outcome_weaken
           (fun (g : Grid num) w =>
              currentObject w = Some object
              /\ exists gi, arr_get g i = Some gi /\ arr_get gi j <> None)).
  { intros g w2 (H & gi & Hg & _). split; [exact H|]. rewrite Hg. discriminate. }
  apply for_le_safe.
  - intros k grid2 w2 (H2 & gi & Hg & Hj).
    rewrite !(bind_Ok _ (calculateCoordinates_run _ _ _)).
    unfold deref at 1.
    match goal with
    | |- context [match ?e with Some _ => _ | None => _ end] =>
        replace e with (Some gi) by (symmetry; exact Hg)
    end.
    unfold bind at 1, ret at 1.
    unfold deref at 1.
    match goal with
    | |- context [match ?e with Some _ => _ | None => _ end] =>
        destruct e as [gij|] eqn:Hgij;
          [clear Hj | first [exact (Hj Hgij) | exact (Hj eq_refl)]]
    end.
    unfold bind at 1, ret at 1.
    unfold bind at 1, gets at 1.
    destruct (doesVoxelIntersectObject_run Raycaster_intersectObject object
                (coordinate_formula (of_nat i) sizeX (voxelsPerUnit w2))
                (coordinate_formula (of_nat j) sizeY (voxelsPerUnit w2))
                (coordinate_formula (of_nat k) sizeZ (voxelsPerUnit w2))
                (of_nat 1 / voxelsPerUnit w2) w2 H2) as [n Hn].
    rewrite (bind_Ok _ Hn). unfold ret.
    split; [exact H2|]. eexists. split; [apply arr_get_set|].
    rewrite arr_get_set. discriminate.
  - split; [exact H1|]. eexists. split; [apply arr_get_set|].
    rewrite arr_get_set. discriminate.
Qed.

Lemma doesVoxelIntersectObject_no_object (x y z size : num) (w : World num) :
  currentObject w = None -> doesVoxelIntersectObject x y z size w = TypeError.
Proof.
  intros Hcur. unfold doesVoxelIntersectObject, leftFaceCorners. cbv zeta.
  cbn [cast_from_corners]. unfold bind, intersectObject, gets, bind.
  rewrite Hcur. reflexivity.
Qed.

(** With an object loaded the Grid Builder never throws, whatever its
    extents are (negative, not a number, infinite); and when it returns
    it has cast rays at the current object and done nothing else. *)
Theorem calculateGrid_never_throws (object : Object3D num) (fuel : nat)
    (sizeX sizeY sizeZ : num) (w : World num) :
  currentObject w = Some object ->
  calculateGrid fuel sizeX sizeY sizeZ w <> TypeError
  /\ forall (grid : Grid num) (w' : World num),
       calculateGrid fuel sizeX sizeY sizeZ w = Ok (grid, w') ->
       exists n, w' = after_raycasts object n w.
Proof.
  intros Hcur. split.
  - pose proof (calculateGrid_safe object fuel sizeX sizeY sizeZ w Hcur) as H.
    intros Hthrow. rewrite Hthrow in H. exact H.
  - intros grid w' Hrun. apply calculateGrid_keeps in Hrun as [n ->].
    rewrite Hcur. exists n. reflexivity.
Qed.

(** With no object loaded the Grid Builder throws at the first cell it
    samples, since the ray caster dereferences the object; when the
    first loop does not run at all it returns the empty grid. *)
Theorem calculateGrid_without_object (fuel : nat) (sizeX sizeY sizeZ : num)
    (w : World num) :
  currentObject w = None ->
  ((of_nat 0 <=? sizeX) = false ->
   calculateGrid (S fuel) sizeX sizeY sizeZ w = Ok ([], w))
  /\ ((of_nat 0 <=? sizeX) = true -> (of_nat 0 <=? sizeY) = true ->
      (of_nat 0 <=? sizeZ) = true ->
      calculateGrid (S fuel) sizeX sizeY sizeZ w = TypeError).
Proof.
  intros Hcur. split.
  - intros Hx. unfold calculateGrid. cbn [for_le]. rewrite Hx. reflexivity.
  - intros Hx Hy Hz. unfold calculateGrid. cbn [for_le]. rewrite Hx.
    unfold bind at 1. cbv zeta. rewrite Hy.
    unfold bind at 1, deref at 1. cbn [arr_set arr_get nth_error]. unfold ret at 1.
    unfold bind at 1. cbv zeta. rewrite Hz.
    unfold bind at 1.
    rewrite !(bind_Ok _ (calculateCoordinates_run _ _ _)).
    unfold deref at 1. cbn [arr_set arr_get nth_error]. unfold bind at 1, ret at 1.
    unfold deref at 1. cbn [arr_set arr_get nth_error]. unfold bind at 1, ret at 1.
    unfold bind at 1, gets at 1.
    unfold bind at 1. rewrite (doesVoxelIntersectObject_no_object _ _ _ _ _ Hcur).
    reflexivity.
Qed.

End GridOutcomes.

(** *** Doubles that are not numbers, and infinite ones *)

Lemma shr_1_not_negative (mrs : shr_record) :
  (0 <= shr_m mrs)%Z -> (0 <= shr_m (shr_1 mrs))%Z.
Proof.
  destruct mrs as [m r s]. simpl. intros Hm.
  destruct m as [|[p|p|]|[p|p|]]; simpl; lia.
Qed.

Lemma iter_shr_1_not_negative (p : positive) (mrs : shr_record) :
  (0 <= shr_m mrs)%Z -> (0 <= shr_m (iter_pos shr_1 p mrs))%Z.
Proof.
  revert mrs. induction p as [p IH|p IH|]; intros mrs Hm; simpl.
  - apply IH, IH, shr_1_not_negative. exact Hm.
  - apply IH, IH. exact Hm.
  - apply shr_1_not_negative. exact Hm.
Qed.

Lemma shr_fexp_not_negative (m e : Z) (l : location) :
  (0 <= m)%Z -> (0 <= shr_m (fst (shr_fexp prec emax m e l)))%Z.
Proof.
  intros Hm. unfold shr_fexp, shr.
  assert (H0 : (0 <= shr_m (shr_record_of_loc m l))%Z).
  { destruct l as [|[| |]]; exact Hm. }
  destruct (fexp prec emax (Zdigits2 m + e) - e)%Z as [|p|p]; simpl;
    [exact H0 | apply iter_shr_1_not_negative; exact H0 | exact H0].
Qed.

(** Rounding a magnitude gives a number. *)
Lemma binary_round_aux_number (s : bool) (mx ex : Z) (lx : location) :
  (0 <= mx)%Z -> binary_round_aux prec emax s mx ex lx <> S754_nan.
Proof.
  intros Hm. unfold binary_round_aux.
  pose proof (shr_fexp_not_negative mx ex lx Hm) as H1.
  destruct (shr_fexp prec emax mx ex lx) as [mrs' e']. simpl in H1.
  assert (H2 : (0 <= round_nearest_even (shr_m mrs') (loc_of_shr_record mrs'))%Z).
  { unfold round_nearest_even.
    destruct (loc_of_shr_record mrs') as [|[| |]];
      try destruct (Z.even (shr_m mrs')); lia. }
  pose proof (shr_fexp_not_negative _ e' loc_Exact H2) as H3.
  destruct (shr_fexp prec emax _ e' loc_Exact) as [mrs'' e'']. simpl in H3.
  destruct (shr_m mrs'') as [|p|p]; [discriminate | | lia].
  destruct (Z.leb e'' (emax - prec)); discriminate.
Qed.

(** A loop counter is a number, and not negative. *)
Lemma float_of_nat_number (n : nat) :
  exists x, Prim2SF (float_of_nat n) = x
            /\ x <> S754_nan /\ SFltb x (S754_zero false) = false.
Proof.
  eexists. split; [reflexivity|]. unfold float_of_nat. rewrite of_uint63_spec.
  pose proof (Uint63.to_Z_bounded (Uint63.of_Z (Z.of_nat n))) as [Hlo _].
  split; [|apply binary_normalize_not_negative; exact Hlo].
  unfold binary_normalize.
  destruct (Uint63.to_Z (Uint63.of_Z (Z.of_nat n))) as [|p|p]; [discriminate | | lia].
  unfold binary_round. destruct (shl_align p 0 _) as [mz ez].
  apply binary_round_aux_number. lia.
Qed.

(** No counter is above [Infinity]. *)
Lemma float_leb_infinity (bound : float) (i : nat) :
  Prim2SF bound = S754_infinity false ->
  PrimFloat.leb (float_of_nat i) bound = true.
Proof.
  intros Hb. rewrite FloatAxioms.leb_spec, Hb.
  destruct (float_of_nat_number i) as (x & -> & Hnan & _).
  destruct x as [s|s| |s m e]; [reflexivity | destruct s; reflexivity | congruence |].
  destruct s; reflexivity.
Qed.

(** Every comparison with [NaN] fails. *)
Lemma float_leb_nan (bound x : float) :
  Prim2SF bound = S754_nan -> PrimFloat.leb x bound = false.
Proof.
  intros Hb. rewrite FloatAxioms.leb_spec, Hb.
  destruct (Prim2SF x) as [s|s| |s m e]; reflexivity.
Qed.

Lemma float_mul_nan (a d : float) :
  Prim2SF d = S754_nan -> Prim2SF (PrimFloat.mul a d) = S754_nan.
Proof.
  intros Hd. rewrite FloatAxioms.mul_spec, Hd.
  destruct (Prim2SF a) as [s|s| |s m e]; reflexivity.
Qed.

(** A positive number times [Infinity] is [Infinity]. *)
Lemma float_mul_infinity (a d : float) :
  PrimFloat.ltb (float_of_nat 0) a = true ->
  Prim2SF d = S754_infinity false ->
  Prim2SF (PrimFloat.mul a d) = S754_infinity false.
Proof.
  rewrite FloatAxioms.ltb_spec, Prim2SF_zero, FloatAxioms.mul_spec.
  intros Ha ->.
  destruct (Prim2SF a) as [s|s| |s m e]; try destruct s; try discriminate Ha;
    reflexivity.
Qed.

Section NotNumbers.
Local Open Scope num_scope.

Variable Box3_setFromObject : Object3D float -> Box3.t float.
Variable Raycaster_intersectObject :
  Vector3.t float -> Vector3.t float -> Object3D float -> list (Intersection float).

Notation calculateGrid := (calculateGrid Raycaster_intersectObject).
Notation voxelize := (voxelize Box3_setFromObject Raycaster_intersectObject).
Notation size_of object := (Box3_getSize (Box3_setFromObject object)).

Lemma calculateGrid_infinite (object : Object3D float) (w : World float)
    (sizeX sizeY sizeZ : float) (fuel : nat) :
  currentObject w = Some object ->
  Prim2SF sizeX = S754_infinity false ->
  calculateGrid fuel sizeX sizeY sizeZ w = OutOfFuel.
Proof.
  intros Hcur Hx.
  pose proof (calculateGrid_safe Raycaster_intersectObject object fuel
                sizeX sizeY sizeZ w Hcur) as Hsafe.
  destruct (calculateGrid fuel sizeX sizeY sizeZ w) as [[grid w']| |] eqn:Hrun;
    [|contradiction|reflexivity].
  exfalso. revert Hrun. unfold calculateGrid. apply for_le_unbounded.
  intros i. apply float_leb_infinity. exact Hx.
Qed.

(** With the density [Infinity] and an object whose size along x is
    positive the first extent is [Infinity]: the loop of the Grid
    Builder has no end, and no amount of fuel lets the pass return or
    throw. *)
Theorem voxelize_infinite_density (object : Object3D float) (w : World float)
    (fuel : nat) :
  currentObject w = Some object ->
  Prim2SF (voxelsPerUnit w) = S754_infinity false ->
  (of_nat 0 <? Math_ceil (Vector3.x (size_of object))) = true ->
  Prim2SF (extent (Vector3.x (size_of object)) (voxelsPerUnit w)) = S754_infinity false
  /\ (forall i : nat,
        (of_nat i <=? extent (Vector3.x (size_of object)) (voxelsPerUnit w)) = true)
  /\ voxelize fuel w = OutOfFuel.
Proof.
  intros Hcur Hd Hsize.
  assert (Hx : Prim2SF (extent (Vector3.x (size_of object)) (voxelsPerUnit w))
               = S754_infinity false).
  { unfold extent. apply float_mul_infinity; assumption. }
  split; [exact Hx|]. split; [intros i; apply float_leb_infinity; exact Hx|].
  unfold voxelize.
  unfold bind at 1, gets at 1. rewrite Hcur.
  unfold bind at 1, getDimensions at 1, ret at 1.
  unfold bind at 1, gets at 1. cbv zeta.
  cbn [Dimensions.x Dimensions.y Dimensions.z].
  fold (extent (Vector3.x (size_of object)) (voxelsPerUnit w)).
  unfold bind at 1. rewrite (calculateGrid_infinite object w _ _ _ fuel Hcur Hx).
  reflexivity.
Qed.

(** With a density that is not a number every extent is [NaN], no loop
    runs: the pass casts no ray and draws no cube, and yet it clones the
    materials, removes the object from the scene and clears the scene. *)
Theorem voxelize_nan_density (object : Object3D float) (w : World float) (fuel : nat) :
  currentObject w = Some object ->
  cloneable object ->
  scene_ids_allocated w ->
  Prim2SF (voxelsPerUnit w) = S754_nan ->
  (1 <= fuel)%nat ->
  exists (w' : World float) (clones : list Event),
    voxelize fuel w = Ok (tt, w')
    /\ scene_children w'
       = cleared_children (remove_child (uuid object) (scene_children w))
           (remove_child (uuid object) (scene_children w))
    /\ log w' = (log w ++ clones)
                 ++ EvSceneRemove (uuid object)
                      :: flat_map clear_events
                           (remove_child (uuid object) (scene_children w))
    /\ clones <> [] /\ Forall is_clone clones.
Proof.
  intros Hcur Hclone Hids Hd Hfuel.
  assert (Htrip : forall s, trip_count (extent s (voxelsPerUnit w)) 0).
  { intros s. split; [intros i Hi; lia|].
    apply float_leb_nan. unfold extent. apply float_mul_nan. exact Hd. }
  destruct (voxelize_run Box3_setFromObject Raycaster_intersectObject object w
              0 0 0 fuel Hcur Hclone Hids (Htrip _) (Htrip _) (Htrip _)
              ltac:(lia) ltac:(lia) ltac:(lia))
    as (n & m & w2 & grid & Hgrid & _ & Hcap & Hrun).
  assert (Hempty : calculateGrid fuel
             (extent (Vector3.x (size_of object)) (voxelsPerUnit w))
             (extent (Vector3.y (size_of object)) (voxelsPerUnit w))
             (extent (Vector3.z (size_of object)) (voxelsPerUnit w)) w
           = Ok ([], w)).
  { destruct fuel as [|fuel]; [lia|]. unfold calculateGrid. cbn [for_le].
    rewrite (proj2 (Htrip _)). reflexivity. }
  rewrite Hempty in Hgrid. injection Hgrid as <- Hw. rewrite <- Hw in Hcap.
  pose proof (capture_slots_Ok _ _ _ _ _ Hcap) as (Hs & _ & _ & _ & clones & Hl & Hclones).
  exists (drawn m (cells_in [] 0 0 0) (cleared_world object w2)), clones.
  split; [exact Hrun|]. simpl. rewrite !app_nil_r, Hs, Hl.
  split; [reflexivity|]. split; [rewrite <- app_assoc; reflexivity|].
  split; [|exact Hclones].
  intros ->. rewrite app_nil_r in Hl.
  destruct Hclone as [Hne Hone].
  destruct (mesh_materials object) as [|slot slots]; [congruence|].
  inversion Hone as [|? ? [m0 ->] _]; subst. simpl in Hcap.
  apply capture_slots_Ok in Hcap as (_ & _ & _ & _ & evs & Hevs & _).
  simpl in Hevs. rewrite <- app_assoc in Hevs.
  rewrite Hl in Hevs. apply (f_equal (@length Event)) in Hevs.
  rewrite !length_app in Hevs. simpl in Hevs. lia.
Qed.

End NotNumbers.

(** *** The Voxel Renderer on a grid that is too small *)

Section RendererOutcomes.
Context {num : Type} {NUM : Number num}.
Local Open Scope num_scope.

(** What the Voxel Renderer does at one index: it returns or throws. *)
Lemma drawGrid_body_outcome (grid : Grid num) (material : option Material)
    (i j k : nat) (w : World num) :
  (grid_i <- deref grid i ;;
   grid_ij <- deref grid_i j ;;
   cell <- deref grid_ij k ;;
   if Cell.value cell then
     vpu <- gets (@voxelsPerUnit num) ;;
     geometry <- new_BoxGeometry (of_nat 1 / vpu) (of_nat 1 / vpu) (of_nat 1 / vpu) ;;
     voxel <- new_Mesh geometry material ;;
     scene_add voxel ;;;
     position_set voxel (Vector3.new (Cell.x cell) (Cell.y cell) (Cell.z cell))
   else ret tt) w
  = match arr_get3 grid i j k with
    | None => TypeError
    | Some cell =>
        (if Cell.value cell then
           vpu <- gets (@voxelsPerUnit num) ;;
           geometry <- new_BoxGeometry (of_nat 1 / vpu) (of_nat 1 / vpu) (of_nat 1 / vpu) ;;
           voxel <- new_Mesh geometry material ;;
           scene_add voxel ;;;
           position_set voxel (Vector3.new (Cell.x cell) (Cell.y cell) (Cell.z cell))
         else ret tt) w
    end.
Proof.
  unfold arr_get3, deref.
  destruct (arr_get grid i) as [grid_i|]; [|reflexivity].
  unfold bind at 1, ret at 1.
  destruct (arr_get grid_i j) as [grid_ij|]; [|reflexivity].
  unfold bind at 1, ret at 1.
  destruct (arr_get grid_ij k) as [cell|]; reflexivity.
Qed.

Lemma drawGrid_body_fuel (grid : Grid num) (material : option Material)
    (i j k : nat) (w : World num) :
  (grid_i <- deref grid i ;;
   grid_ij <- deref grid_i j ;;
   cell <- deref grid_ij k ;;
   if Cell.value cell then
     vpu <- gets (@voxelsPerUnit num) ;;
     geometry <- new_BoxGeometry (of_nat 1 / vpu) (of_nat 1 / vpu) (of_nat 1 / vpu) ;;
     voxel <- new_Mesh geometry material ;;
     scene_add voxel ;;;
     position_set voxel (Vector3.new (Cell.x cell) (Cell.y cell) (Cell.z cell))
   else ret tt) w
  <> OutOfFuel.
Proof.
  rewrite drawGrid_body_outcome.
  destruct (arr_get3 grid i j k) as [cell|]; [|discriminate].
  destruct (Cell.value cell); [|discriminate].
  destruct material; discriminate.
Qed.

(** With a cell at every index that its loops reach, the Voxel Renderer
    returns, whatever the material is ([undefined] included). *)
Lemma drawGrid_returns (grid : Grid num) (material : option Material)
    (w : World num) (sizeX sizeY sizeZ : num) (kx ky kz fuel : nat) :
  trip_count sizeX kx -> trip_count sizeY ky -> trip_count sizeZ kz ->
  (kx < fuel)%nat -> (ky < fuel)%nat -> (kz < fuel)%nat ->
  (forall i j k, (i < kx)%nat -> (j < ky)%nat -> (k < kz)%nat ->
     arr_get3 grid i j k <> None) ->
  exists w' : World num,
    drawGrid fuel sizeX sizeY sizeZ grid material w = Ok (tt, w').
Proof.
  intros Hx Hy Hz Hfx Hfy Hfz Hcells. unfold drawGrid.
  destruct (for_le_inv (fun (_ : nat) (_ : unit) (_ : World num) => True)
              sizeX kx fuel
              (fun i _ =>
                 for_le fuel 0 sizeY (fun j _ =>
                   for_le fuel 0 sizeZ (fun k _ =>
                     grid_i <- deref grid i ;;
                     grid_ij <- deref grid_i j ;;
                     cell <- deref grid_ij k ;;
                     if Cell.value cell then
                       vpu <- gets (@voxelsPerUnit num) ;;
                       geometry <- new_BoxGeometry (of_nat 1 / vpu) (of_nat 1 / vpu)
                                     (of_nat 1 / vpu) ;;
                       voxel <- new_Mesh geometry material ;;
                       scene_add voxel ;;;
                       position_set voxel
                         (Vector3.new (Cell.x cell) (Cell.y cell) (Cell.z cell))
                     else ret tt)
                     tt)
                   tt)
              tt w Hx Hfx I) as ([] & w' & Hrun & _).
  - intros i [] w1 Hi _.
    refine (for_le_inv (fun (_ : nat) (_ : unit) (_ : World num) => True)
              sizeY ky fuel _ tt w1 Hy Hfy I _).
    intros j [] w2 Hj _.
    refine (for_le_inv (fun (_ : nat) (_ : unit) (_ : World num) => True)
              sizeZ kz fuel _ tt w2 Hz Hfz I _).
    intros k [] w3 Hk _.
    rewrite drawGrid_body_outcome.
    destruct (arr_get3 grid i j k) as [cell|] eqn:Hcell;
      [|exfalso; exact (Hcells i j k Hi Hj Hk Hcell)].
    destruct (Cell.value cell); [|exists tt, w3; split; [reflexivity | exact I]].
    destruct material as [m|]; eexists tt, _; (split; [reflexivity | exact I]).
  - exists w'. exact Hrun.
Qed.

(** The Voxel Renderer reads [grid[i][j][k].value] at every index that
    its loops reach: when the grid holds no cell at one of them, because
    it was built for smaller extents, the pass throws. *)
Theorem drawGrid_missing_cell (grid : Grid num) (material : option Material)
    (w : World num) (sizeX sizeY sizeZ : num) (kx ky kz fuel i j k : nat) :
  trip_count sizeX kx -> trip_count sizeY ky -> trip_count sizeZ kz ->
  (kx < fuel)%nat -> (ky < fuel)%nat -> (kz < fuel)%nat ->
  (i < kx)%nat -> (j < ky)%nat -> (k < kz)%nat ->
  arr_get3 grid i j k = None ->
  drawGrid fuel sizeX sizeY sizeZ grid material w = TypeError.
Proof.
  intros Hx Hy Hz Hfx Hfy Hfz Hi Hj Hk Hnone. unfold drawGrid.
  assert (Hrow : forall i' j' a w',
             for_le fuel 0 sizeZ (fun k _ =>
               grid_i <- deref grid i' ;;
               grid_ij <- deref grid_i j' ;;
               cell <- deref grid_ij k ;;
               if Cell.value cell then
                 vpu <- gets (@voxelsPerUnit num) ;;
                 geometry <- new_BoxGeometry (of_nat 1 / vpu) (of_nat 1 / vpu)
                               (of_nat 1 / vpu) ;;
                 voxel <- new_Mesh geometry material ;;
                 scene_add voxel ;;;
                 position_set voxel
                   (Vector3.new (Cell.x cell) (Cell.y cell) (Cell.z cell))
               else ret tt) a w' <> OutOfFuel).
  { intros i' j' a w'. apply (for_le_fuel sizeZ kz); [exact Hz | | lia | lia].
    intros k' _ w'' _. apply drawGrid_body_fuel. }
  apply (for_le_throws sizeX kx i); [exact Hx | exact Hi | | | lia | lia].
  - intros a w1.
    apply (for_le_throws sizeY ky j); [exact Hy | exact Hj | | | lia | lia].
    + intros a1 w2.
      apply (for_le_throws sizeZ kz k); [exact Hz | exact Hk | | | lia | lia].
      * intros a2 w3. rewrite drawGrid_body_outcome, Hnone. reflexivity.
      * intros k' a2 w3 _. apply drawGrid_body_fuel.
    + intros j' a1 w2 _. apply Hrow.
  - intros i' a w1 _. apply (for_le_fuel sizeY ky); [exact Hy | | lia | lia].
    intros j' a1 w2 _. apply Hrow.
Qed.

End RendererOutcomes.

(** *** The material of the cubes *)

Section Capture.
Context {num : Type} {NUM : Number num}.
Local Open Scope num_scope.

Variable Box3_setFromObject : Object3D num -> Box3.t num.
Variable Raycaster_intersectObject :
  Vector3.t num -> Vector3.t num -> Object3D num -> list (Intersection num).

Notation calculateGrid := (calculateGrid Raycaster_intersectObject).
Notation voxelize := (voxelize Box3_setFromObject Raycaster_intersectObject).
Notation size_of object := (Box3_getSize (Box3_setFromObject object)).

Lemma capture_slots_clones (ms : list Material) :
  forall (captured : option Material) (w : World num),
    capture_slots (map OneMaterial ms) captured w
    = Ok (match ms with
          | [] => captured
          | _ :: _ => Some {| material_id := next_id w + length ms - 1 |}
          end,
          {| scene_children := scene_children w;
             currentObject := currentObject w;
             voxelsPerUnit := voxelsPerUnit w;
             next_id := next_id w + length ms;
             log := log w ++ clone_events (next_id w) ms |}).
Proof.
  induction ms as [|m ms IH]; intros captured w.
  - simpl. rewrite Nat.add_0_r, app_nil_r. destruct w; reflexivity.
  - cbn [map capture_slots]. rewrite IH. cbn [next_id log scene_children currentObject
      voxelsPerUnit length clone_events].
    rewrite <- app_assoc. cbn [app].
    replace (S (next_id w) + length ms)%nat with (next_id w + S (length ms))%nat by lia.
    destruct ms as [|m' ms]; [|reflexivity]. cbn [length].
    replace (next_id w + 1 - 1)%nat with (next_id w) by lia. reflexivity.
Qed.


(** The traversal of [voxelize] clones the material of every mesh it
    visits, in the order of the visit, and keeps the last clone only:
    with [n] meshes, [n] materials are made and [n - 1] of them are
    dropped at once.  Nothing else changes. *)
Theorem traverse_clones_every_material (object : Object3D num) (ms : list Material)
    (w : World num) :
  mesh_materials object = map OneMaterial ms ->
  traverse capture_material object None w
  = Ok (match ms with
        | [] => None
        | _ :: _ => Some {| material_id := next_id w + length ms - 1 |}
        end,
        {| scene_children := scene_children w;
           currentObject := currentObject w;
           voxelsPerUnit := voxelsPerUnit w;
           next_id := next_id w + length ms;
           log := log w ++ clone_events (next_id w) ms |}).
Proof.
  intros Hms. rewrite traverse_capture, Hms. apply capture_slots_clones.
Qed.


End Capture.

(** *** The cost of sampling *)

Section RayBudget.
Context {num : Type} {NUM : Number num}.
Local Open Scope num_scope.

Variable Raycaster_intersectObject :
  Vector3.t num -> Vector3.t num -> Object3D num -> list (Intersection num).

Notation doesVoxelIntersectObject := (doesVoxelIntersectObject Raycaster_intersectObject).
Notation calculateGrid := (calculateGrid Raycaster_intersectObject).
Notation cell_at := (cell_at Raycaster_intersectObject).
Notation sampled := (sampled Raycaster_intersectObject).
Notation any_first_hit := (any_first_hit Raycaster_intersectObject).
Notation rays_until_hit := (rays_until_hit Raycaster_intersectObject).
Notation rays_cast := (rays_cast Raycaster_intersectObject).

Lemma cast_from_corners_count (object : Object3D num) (corners : list (Vector3.t num))
    (direction : Vector3.t num) (size : num) :
  forall w : World num,
    currentObject w = Some object ->
    cast_from_corners Raycaster_intersectObject corners direction size w
    = Ok (any_first_hit object corners direction size,
          after_raycasts object (rays_until_hit object corners direction size) w).
Proof.
  induction corners as [|corner rest IH]; intros w Hcur.
  - simpl. rewrite after_raycasts_0. reflexivity.
  - simpl. unfold bind at 1. unfold intersectObject, bind, gets.
    rewrite Hcur. simpl.
    destruct (first_hit_within _ size) eqn:Hfirst.
    + reflexivity.
    + pose proof (IH (with_log (log w ++ [EvRaycast (uuid object)]) w) Hcur) as Hn.
      unfold after_raycasts, with_log in Hn |- *. simpl in Hn. simpl.
      rewrite Hn. rewrite <- app_assoc. reflexivity.
Qed.

Lemma rays_until_hit_bounds (object : Object3D num) (corners : list (Vector3.t num))
    (direction : Vector3.t num) (size : num) :
  (rays_until_hit object corners direction size <= length corners)%nat
  /\ (corners <> [] -> 1 <= rays_until_hit object corners direction size)%nat
  /\ (any_first_hit object corners direction size = false ->
      rays_until_hit object corners direction size = length corners).
Proof.
  induction corners as [|corner rest (IH1 & IH2 & IH3)]; simpl.
  - split; [lia|]. split; [congruence | reflexivity].
  - destruct (first_hit_within _ size); simpl.
    + split; [lia|]. split; [lia | discriminate].
    + split; [lia|]. split; [lia|]. intros H. rewrite (IH3 H). reflexivity.
Qed.

Lemma doesVoxelIntersectObject_count (object : Object3D num) (x y z size : num)
    (w : World num) :
  currentObject w = Some object ->
  doesVoxelIntersectObject x y z size w
  = Ok (sampled object x y z size, after_raycasts object (rays_cast object x y z size) w)
  /\ (1 <= rays_cast object x y z size <= 12)%nat
  /\ (sampled object x y z size = false -> rays_cast object x y z size = 12%nat).
Proof.
  intros Hcur.
  pose proof (rays_until_hit_bounds object (leftFaceCorners x y z (size / of_nat 2))
                xVector size) as (Hl1 & Hl2 & Hl3).
  pose proof (rays_until_hit_bounds object (bottomFaceCorners x y z (size / of_nat 2))
                yVector size) as (Hb1 & Hb2 & Hb3).
  pose proof (rays_until_hit_bounds object (backFaceCorners x y z (size / of_nat 2))
                zVector size) as (Hk1 & Hk2 & Hk3).
  specialize (Hl2 ltac:(discriminate)). specialize (Hb2 ltac:(discriminate)).
  specialize (Hk2 ltac:(discriminate)).
  change (length (leftFaceCorners x y z (size / of_nat 2))) with 4%nat in *.
  change (length (bottomFaceCorners x y z (size / of_nat 2))) with 4%nat in *.
  change (length (backFaceCorners x y z (size / of_nat 2))) with 4%nat in *.
  unfold doesVoxelIntersectObject, sampled, rays_cast. cbv zeta.
  unfold bind at 1. rewrite (cast_from_corners_count _ _ _ _ _ Hcur).
  destruct (any_first_hit object (leftFaceCorners _ _ _ _) _ _).
  { rewrite Nat.add_0_r. split; [reflexivity|]. split; [lia | discriminate]. }
  specialize (Hl3 eq_refl).
  unfold bind at 1.
  rewrite (cast_from_corners_count object _ _ _ (after_raycasts object _ w) Hcur).
  rewrite after_raycasts_add.
  destruct (any_first_hit object (bottomFaceCorners _ _ _ _) _ _).
  { rewrite Nat.add_0_r. split; [reflexivity|]. split; [lia | discriminate]. }
  specialize (Hb3 eq_refl).
  unfold bind at 1.
  rewrite (cast_from_corners_count object _ _ _ (after_raycasts object _ w) Hcur).
  rewrite after_raycasts_add, Nat.add_assoc.
  destruct (any_first_hit object (backFaceCorners _ _ _ _) _ _);
    (split; [reflexivity|]); (split; [lia|]); [discriminate|].
  intros _. rewrite (Hk3 eq_refl). lia.
Qed.

(** The sampler stops at the first ray that finds the surface within
    [size]: it casts at least one ray and at most twelve, all twelve when
    it answers [false]; and it changes nothing but the call log. *)
Theorem doesVoxelIntersectObject_ray_count (object : Object3D num) (x y z size : num)
    (w : World num) :
  currentObject w = Some object ->
  exists n : nat,
    doesVoxelIntersectObject x y z size w
    = Ok (sampled object x y z size, after_raycasts object n w)
    /\ n = rays_cast object x y z size
    /\ (1 <= n <= 12)%nat
    /\ (sampled object x y z size = false -> n = 12%nat)
    /\ scene_children (after_raycasts object n w) = scene_children w
    /\ log (after_raycasts object n w) = log w ++ repeat (EvRaycast (uuid object)) n.
Proof.
  intros Hcur.
  destruct (doesVoxelIntersectObject_count object x y z size w Hcur) as (Hrun & Hn & Hall).
  exists (rays_cast object x y z size).
  split; [exact Hrun|]. split; [reflexivity|]. split; [exact Hn|].
  split; [exact Hall|]. split; reflexivity.
Qed.

(** The Grid Builder casts at least one ray and at most twelve for each
    cell of the grid it returns. *)
Theorem calculateGrid_ray_budget (object : Object3D num) (w : World num)
    (sizeX sizeY sizeZ : num) (kx ky kz fuel : nat) :
  currentObject w = Some object ->
  trip_count sizeX kx -> trip_count sizeY ky -> trip_count sizeZ kz ->
  (kx < fuel)%nat -> (ky < fuel)%nat -> (kz < fuel)%nat ->
  exists (grid : Grid num) (n : nat),
    calculateGrid fuel sizeX sizeY sizeZ w = Ok (grid, after_raycasts object n w)
    /\ length (grid_cells grid) = (kx * ky * kz)%nat
    /\ (kx * ky * kz <= n <= 12 * (kx * ky * kz))%nat.
Proof.
  intros Hcur Hx Hy Hz Hfx Hfy Hfz.
  set (cell := cell_at object (voxelsPerUnit w) sizeX sizeY sizeZ).
  set (plane := fun i => dense ky (fun j => dense kz (cell i j))).
  set (within := fun c n : nat => (c <= n <= 12 * c)%nat).
  unfold calculateGrid.
  destruct (for_le_inv
              (fun i grid w' => grid = dense i plane
                                /\ exists n, w' = after_raycasts object n w
                                             /\ within (i * ky * kz)%nat n)
              sizeX kx fuel
              (fun i grid =>
                 let grid := arr_set i [] grid in
                 for_le fuel 0 sizeY (fun j grid =>
                   grid_i <- deref grid i ;;
                   let grid := arr_set i (arr_set j [] grid_i) grid in
                   for_le fuel 0 sizeZ (fun k grid =>
                     x <- calculateCoordinates (of_nat i) sizeX ;;
                     y <- calculateCoordinates (of_nat j) sizeY ;;
                     z <- calculateCoordinates (of_nat k) sizeZ ;;
                     grid_i <- deref grid i ;;
                     grid_ij <- deref grid_i j ;;
                     vpu <- gets (@voxelsPerUnit num) ;;
                     value <- doesVoxelIntersectObject x y z (of_nat 1 / vpu) ;;
                     ret (arr_set i (arr_set j (arr_set k (Cell.mk value x y z) grid_ij)
                                       grid_i) grid))
                     grid)
                   grid)
              [] w Hx Hfx) as (grid & w' & Hrun & -> & n & -> & Hn).
  - split; [reflexivity|]. exists 0%nat. split; [symmetry; apply after_raycasts_0|].
    unfold within. lia.
  - (* one round of the loop on [i] *)
    intros i grid0 w0 Hi (-> & n0 & -> & Hn0). cbv zeta.
    rewrite (arr_set_append_at _ _ (dense_length i plane)).
    set (D := dense i plane).
    assert (HD : length D = i) by apply dense_length.
    destruct (for_le_inv
                (fun j grid w' =>
                   grid = D ++ [Some (dense j (fun j => dense kz (cell i j)))]
                   /\ exists n, w' = after_raycasts object n w
                                /\ within ((i * ky + j) * kz)%nat n)
                sizeY ky fuel
                (fun j grid =>
                   grid_i <- deref grid i ;;
                   let grid := arr_set i (arr_set j [] grid_i) grid in
                   for_le fuel 0 sizeZ (fun k grid =>
                     x <- calculateCoordinates (of_nat i) sizeX ;;
                     y <- calculateCoordinates (of_nat j) sizeY ;;
                     z <- calculateCoordinates (of_nat k) sizeZ ;;
                     grid_i <- deref grid i ;;
                     grid_ij <- deref grid_i j ;;
                     vpu <- gets (@voxelsPerUnit num) ;;
                     value <- doesVoxelIntersectObject x y z (of_nat 1 / vpu) ;;
                     ret (arr_set i (arr_set j (arr_set k (Cell.mk value x y z) grid_ij)
                                       grid_i) grid))
                     grid)
                (D ++ [Some []]) (after_raycasts object n0 w) Hy Hfy)
      as (grid1 & w1 & Hrun1 & -> & n1 & -> & Hn1).
    + split; [reflexivity|]. exists n0. split; [reflexivity|].
      rewrite Nat.add_0_r. exact Hn0.
    + (* one round of the loop on [j] *)
      intros j grid1 w1 Hj (-> & n1 & -> & Hn1).
      set (R := dense j (fun j => dense kz (cell i j))).
      assert (HR : length R = j) by apply dense_length.
      unfold deref at 1. rewrite (arr_get_last_at _ _ HD).
      unfold bind at 1, ret at 1. cbv zeta.
      rewrite (arr_set_append_at _ _ HR), (arr_set_last_at _ _ _ HD).
      destruct (for_le_inv
                  (fun k grid w' =>
                     grid = D ++ [Some (R ++ [Some (dense k (cell i j))])]
                     /\ exists n, w' = after_raycasts object n w
                                  /\ within ((i * ky + j) * kz + k)%nat n)
                  sizeZ kz fuel
                  (fun k grid =>
                     x <- calculateCoordinates (of_nat i) sizeX ;;
                     y <- calculateCoordinates (of_nat j) sizeY ;;
                     z <- calculateCoordinates (of_nat k) sizeZ ;;
                     grid_i <- deref grid i ;;
                     grid_ij <- deref grid_i j ;;
                     vpu <- gets (@voxelsPerUnit num) ;;
                     value <- doesVoxelIntersectObject x y z (of_nat 1 / vpu) ;;
                     ret (arr_set i (arr_set j (arr_set k (Cell.mk value x y z) grid_ij)
                                       grid_i) grid))
                  (D ++ [Some (R ++ [Some []])]) (after_raycasts object n1 w) Hz Hfz)
        as (grid2 & w2 & Hrun2 & -> & n2 & -> & Hn2).
      * split; [reflexivity|]. exists n1. split; [reflexivity|].
        rewrite Nat.add_0_r. exact Hn1.
      * (* one round of the loop on [k] *)
        intros k grid2 w2 Hk (-> & n2 & -> & Hn2).
        set (C := dense k (cell i j)).
        assert (HC : length C = k) by apply dense_length.
        rewrite !(bind_Ok _ (calculateCoordinates_run _ _ _)).
        unfold deref at 1. rewrite (arr_get_last_at _ _ HD).
        unfold bind at 1, ret at 1.
        unfold deref at 1. rewrite (arr_get_last_at _ _ HR).
        unfold bind at 1, ret at 1.
        unfold bind at 1, gets at 1.
        destruct (doesVoxelIntersectObject_count object
                    (coordinate_formula (of_nat i) sizeX
                       (voxelsPerUnit (after_raycasts object n2 w)))
                    (coordinate_formula (of_nat j) sizeY
                       (voxelsPerUnit (after_raycasts object n2 w)))
                    (coordinate_formula (of_nat k) sizeZ
                       (voxelsPerUnit (after_raycasts object n2 w)))
                    (of_nat 1 / voxelsPerUnit (after_raycasts object n2 w))
                    (after_raycasts object n2 w) Hcur) as (Hn3 & Hrays & _).
        rewrite (bind_Ok _ Hn3). unfold ret.
        eexists _, _. split; [reflexivity|]. split.
        -- rewrite (arr_set_append_at _ _ HC), (arr_set_last_at _ _ _ HR),
             (arr_set_last_at _ _ _ HD).
           subst C. rewrite dense_S. reflexivity.
        -- eexists. split; [apply after_raycasts_add|].
           unfold within in Hn2 |- *. lia.
      * eexists _, _. split; [exact Hrun2|]. split.
        -- subst R. rewrite dense_S. reflexivity.
        -- exists n2. split; [reflexivity|].
           replace ((i * ky + S j) * kz)%nat with ((i * ky + j) * kz + kz)%nat by ring.
           exact Hn2.
    + eexists _, _. split; [exact Hrun1|]. split.
      * subst D. rewrite dense_S. reflexivity.
      * exists n1. split; [reflexivity|].
        replace (S i * ky * kz)%nat with ((i * ky + ky) * kz)%nat by ring.
        exact Hn1.
  - exists (dense kx plane), n. split; [exact Hrun|].
    split; [apply (grid_cells_dense3_length kx ky kz cell)|]. exact Hn.
Qed.

End RayBudget.

(** *** The cells and the bounding box, in exact arithmetic *)

Lemma Qc_formula_left_face (i g d dimension : Qc) :
  d <> Q2Qc 0 -> g = (dimension * d)%num ->
  (coordinate_formula i g d - of_nat 1 / d / of_nat 2
   = i / d - dimension / of_nat 2)%num.
Proof.
  intros Hd ->. unfold coordinate_formula. simpl.
  change (Qc_of_Z 1) with 1%Qc. change (Qc_of_Z 2) with (1 + 1)%Qc.
  field. repeat match goal with |- _ /\ _ => split end; first [exact Hd | discriminate].
Qed.

Lemma Qc_formula_faces_meet (i g d : Qc) :
  d <> Q2Qc 0 ->
  (coordinate_formula i g d + of_nat 1 / d / of_nat 2
   = coordinate_formula (i + of_nat 1) g d - of_nat 1 / d / of_nat 2)%num.
Proof.
  intros Hd. unfold coordinate_formula. simpl.
  change (Qc_of_Z 1) with 1%Qc. change (Qc_of_Z 2) with (1 + 1)%Qc.
  field. repeat match goal with |- _ /\ _ => split end; first [exact Hd | discriminate].
Qed.

Lemma Qc_extent_over_density (d dimension : Qc) :
  d <> Q2Qc 0 ->
  (dimension * d / d - dimension / of_nat 2 = dimension / of_nat 2)%num.
Proof.
  intros Hd. simpl. change (Qc_of_Z 2) with (1 + 1)%Qc.
  field. repeat match goal with |- _ /\ _ => split end; first [exact Hd | discriminate].
Qed.

(** A cell is the cube of edge [1/density] about its centre.  With a
    positive density and the extent [n = dimension * density] of
    [voxelize], in exact arithmetic: the left face of the cell [i] is at
    [i/density - dimension/2]; the right face of a cell is the left face
    of the next; so the cells [0 .. n-1] tile [[-dimension/2,
    dimension/2]], and the cell [n], which the inclusive bound of the
    loops adds, begins at [dimension/2], where that box ends. *)
Theorem calculateCoordinates_tiles_box (w : World Qc) (dimension n : nat) :
  (of_nat 0 <? voxelsPerUnit w)%num = true ->
  of_nat n = (of_nat dimension * voxelsPerUnit w)%num ->
  (forall i : nat, exists c c' : Qc,
      eval (calculateCoordinates (of_nat i) (of_nat n)) w = Some c
      /\ eval (calculateCoordinates (of_nat (S i)) (of_nat n)) w = Some c'
      /\ (c - of_nat 1 / voxelsPerUnit w / of_nat 2
          = of_nat i / voxelsPerUnit w - of_nat dimension / of_nat 2)%num
      /\ (c + of_nat 1 / voxelsPerUnit w / of_nat 2
          = c' - of_nat 1 / voxelsPerUnit w / of_nat 2)%num)
  /\ exists c0 cn : Qc,
       eval (calculateCoordinates (of_nat 0) (of_nat n)) w = Some c0
       /\ eval (calculateCoordinates (of_nat n) (of_nat n)) w = Some cn
       /\ (c0 - of_nat 1 / voxelsPerUnit w / of_nat 2
           = of_nat 0 - of_nat dimension / of_nat 2)%num
       /\ (cn - of_nat 1 / voxelsPerUnit w / of_nat 2
           = of_nat dimension / of_nat 2)%num.
Proof.
  intros Hpos Hn. apply Qc_ltb_lt in Hpos.
  pose proof (Qc_pos_nonzero _ Hpos) as Hd.
  split.
  - intros i. eexists _, _. rewrite !eval_calculateCoordinates.
    split; [reflexivity|]. split; [reflexivity|]. split.
    + apply Qc_formula_left_face; assumption.
    + rewrite (Qc_of_nat_S i). apply Qc_formula_faces_meet. exact Hd.
  - eexists _, _. rewrite !eval_calculateCoordinates.
    split; [reflexivity|]. split; [reflexivity|]. split.
    + rewrite (Qc_formula_left_face _ _ _ (of_nat dimension) Hd Hn).
      simpl. change (Qc_of_Z 0) with (Q2Qc 0). change (Qc_of_Z 2) with (1 + 1)%Qc.
      field. repeat match goal with |- _ /\ _ => split end; first [exact Hd | discriminate].
    + rewrite (Qc_formula_left_face _ _ _ (of_nat dimension) Hd Hn).
      rewrite Hn. apply Qc_extent_over_density. exact Hd.
Qed.

Lemma calculateCoordinates_tiles_box_witness :
  (of_nat 0 <? voxelsPerUnit (empty_world (Qc_of_Z 6)))%num = true
  /\ of_nat (num := Qc) 12 = (of_nat 2 * Qc_of_Z 6)%num
  /\ exists c0 cn : Qc,
       eval (calculateCoordinates (of_nat 0) (of_nat 12)) (empty_world (Qc_of_Z 6)) = Some c0
       /\ eval (calculateCoordinates (of_nat 12) (of_nat 12)) (empty_world (Qc_of_Z 6))
          = Some cn
       /\ (c0 - of_nat 1 / Qc_of_Z 6 / of_nat 2 = of_nat 0 - of_nat 2 / of_nat 2)%num
       /\ (cn - of_nat 1 / Qc_of_Z 6 / of_nat 2 = of_nat 2 / of_nat 2)%num.
Proof.
  assert (Hn : of_nat (num := Qc) 12 = (of_nat 2 * Qc_of_Z 6)%num).
  { apply Qc_is_canon. reflexivity. }
  split; [reflexivity|]. split; [exact Hn|].
  exact (proj2 (calculateCoordinates_tiles_box (empty_world (Qc_of_Z 6)) 2 12 eq_refl Hn)).
Defined.

(** *** Degenerate inputs, continued *)

Lemma Prim2SF_two : Prim2SF (float_of_nat 2) = S754_finite false 4503599627370496 (-51).
Proof. vm_compute. reflexivity. Qed.

(** With the density zero the cell size is an infinity, and no
    coordinate is a finite number: the Coordinate Mapper returns
    [Infinity], [-Infinity] or [NaN] for every index and grid size. *)
Theorem calculateCoordinates_zero_density (w : World float) (index gridSize : float) :
  PrimFloat.eqb (voxelsPerUnit w) (float_of_nat 0) = true ->
  exists c : float,
    calculateCoordinates index gridSize w = Ok (c, w)
    /\ float_is_finite (of_nat 1 / voxelsPerUnit w)%num = false
    /\ float_is_finite c = false.
Proof.
  intros Hd. exists (coordinate_formula index gridSize (voxelsPerUnit w)).
  split; [apply calculateCoordinates_run|].
  split; [apply float_div_zero; exact Hd|].
  unfold float_is_finite, coordinate_formula. simpl.
  rewrite FloatAxioms.add_spec, FloatAxioms.mul_spec, !FloatAxioms.div_spec.
  rewrite Prim2SF_one, Prim2SF_two.
  rewrite FloatAxioms.eqb_spec, Prim2SF_zero in Hd.
  destruct (Prim2SF (voxelsPerUnit w)) as [sd|sd| |sd md ed];
    try discriminate Hd; try (destruct sd; discriminate Hd).
  destruct (Prim2SF (PrimFloat.sub index (PrimFloat.div gridSize (float_of_nat 2))))
    as [st|st| |st mt et]; destruct sd; try destruct st; reflexivity.
Qed.

Lemma calculateCoordinates_zero_density_witness :
  PrimFloat.eqb (voxelsPerUnit (empty_world 0%float)) (float_of_nat 0) = true
  /\ exists c : float,
       calculateCoordinates (of_nat 3) (of_nat 6) (empty_world 0%float)
       = Ok (c, empty_world 0%float)
       /\ float_is_finite c = false.
Proof.
  split; [reflexivity|].
  destruct (calculateCoordinates_zero_density (empty_world 0%float) (of_nat 3) (of_nat 6)
              eq_refl) as (c & Hrun & _ & Hc).
  exists c. split; [exact Hrun | exact Hc].
Defined.

(** *** Loading a model *)

Section Loading.
Context {num : Type} {NUM : Number num}.
Local Open Scope num_scope.

Variable Box3_setFromObject : Object3D num -> Box3.t num.

Notation centerObject := (centerObject Box3_setFromObject).
Notation loadModel_onLoad := (loadModel_onLoad Box3_setFromObject).
Notation centered := (centered Box3_setFromObject).

Lemma uuid_with_position (p : Vector3.t num) (o : Object3D num) :
  uuid (with_position p o) = uuid o.
Proof. destruct o; reflexivity. Qed.

Lemma position_with_position (p : Vector3.t num) (o : Object3D num) :
  position (with_position p o) = p.
Proof. destruct o; reflexivity. Qed.

Lemma with_position_twice (p q : Vector3.t num) (o : Object3D num) :
  with_position q (with_position p o) = with_position q o.
Proof. destruct o; reflexivity. Qed.

Lemma isMesh_with_position (p : Vector3.t num) (o : Object3D num) :
  isMesh (with_position p o) = isMesh o.
Proof. destruct o; reflexivity. Qed.

Lemma position_set_fresh (u : nat) (p : Vector3.t num) (cs : list (Object3D num)) :
  ~ In u (map (@uuid num) cs) ->
  map (fun c => if Nat.eqb (uuid c) u then with_position p c else c) cs = cs.
Proof.
  induction cs as [|c cs IH]; intros Hnotin; simpl; [reflexivity|].
  rewrite IH by (intros H; apply Hnotin; right; exact H).
  destruct (Nat.eqb_spec (uuid c) u) as [Heq | _]; [|reflexivity].
  exfalso. apply Hnotin. left. exact Heq.
Qed.

(** What [centerObject] does to the world: the object moves by the
    centre of its bounding box, wherever it is referenced. *)
Lemma centerObject_run (object : Object3D num) (w : World num) :
  centerObject object w
  = Ok (tt, {| scene_children :=
                 map (fun c => if Nat.eqb (uuid c) (uuid object)
                               then with_position (position (centered object)) c
                               else c) (scene_children w);
               currentObject :=
                 match currentObject w with
                 | Some c => if Nat.eqb (uuid c) (uuid object)
                             then Some (with_position (position (centered object)) c)
                             else Some c
                 | None => None
                 end;
               voxelsPerUnit := voxelsPerUnit w;
               next_id := next_id w;
               log := log w |}).
Proof.
  unfold centerObject, position_sub, centered. rewrite position_with_position.
  unfold position_set, gets, set_scene_children, set_currentObject, modify, ret, bind.
  cbn [currentObject scene_children voxelsPerUnit next_id log].
  destruct (currentObject w) as [c|]; [|reflexivity].
  destruct (Nat.eqb (uuid c) (uuid object)); reflexivity.
Qed.

Lemma centered_position (object : Object3D num) :
  with_position (position (centered object)) object = centered object.
Proof. unfold centered. rewrite position_with_position. reflexivity. Qed.

Lemma uuid_centered (object : Object3D num) : uuid (centered object) = uuid object.
Proof. apply uuid_with_position. Qed.

Lemma isMesh_centered (object : Object3D num) : isMesh (centered object) = isMesh object.
Proof. apply isMesh_with_position. Qed.

Lemma loadModel_onLoad_run (gltf_scene : Object3D num) (w : World num) :
  ~ In (uuid gltf_scene) (map (@uuid num) (scene_children w)) ->
  loadModel_onLoad gltf_scene w
  = Ok (tt, {| scene_children := scene_children w ++ [centered gltf_scene];
               currentObject := Some (centered gltf_scene);
               voxelsPerUnit := voxelsPerUnit w;
               next_id := next_id w;
               log := log w ++ [EvSceneAdd (uuid gltf_scene)] |}).
Proof.
  intros Hfresh. unfold loadModel_onLoad.
  unfold bind at 1, set_currentObject at 1, modify at 1.
  unfold bind at 1, gets at 1. cbn [currentObject].
  unfold bind at 1. rewrite centerObject_run.
  cbn [currentObject scene_children voxelsPerUnit next_id log].
  rewrite Nat.eqb_refl, (position_set_fresh _ _ _ Hfresh), centered_position.
  unfold bind at 1, gets at 1. cbn [currentObject].
  unfold scene_add, bind, gets, set_scene_children, log_event, modify.
  cbn [currentObject scene_children voxelsPerUnit next_id log].
  unfold centered at 3. rewrite uuid_with_position. reflexivity.
Qed.

Lemma loadModel_run (name : String.string) (w : World num) :
  loadModel name w
  = match models_get name models with
    | Some path => Ok (path,
                       match currentObject w with
                       | Some o => cleared_world o w
                       | None => w
                       end)
    | None => TypeError
    end.
Proof.
  unfold loadModel. cbv zeta. unfold bind at 1, gets at 1.
  destruct (currentObject w) as [o|].
  - unfold bind at 1. rewrite remove_then_clear.
    destruct (models_get name models); reflexivity.
  - destruct (models_get name models); reflexivity.
Qed.

Lemma remove_child_distinct (u : nat) (cs : list (Object3D num)) :
  NoDup (map (@uuid num) cs) -> NoDup (map (@uuid num) (remove_child u cs)).
Proof.
  intros Hnd. rewrite remove_child_filter by exact Hnd.
  apply filter_keeps_distinct. exact Hnd.
Qed.

Lemma remove_child_app (u : nat) (l1 l2 : list (Object3D num)) :
  ~ In u (map (@uuid num) l1) ->
  remove_child u (l1 ++ l2) = l1 ++ remove_child u l2.
Proof.
  induction l1 as [|c l1 IH]; intros Hnotin; simpl; [reflexivity|].
  destruct (Nat.eqb_spec (uuid c) u) as [Heq | _].
  - exfalso. apply Hnotin. left. exact Heq.
  - rewrite IH by (intros H; apply Hnotin; right; exact H). reflexivity.
Qed.

Lemma remove_child_absent (u : nat) (cs : list (Object3D num)) :
  ~ In u (map (@uuid num) cs) -> remove_child u cs = cs.
Proof.
  intros Hnotin. rewrite <- (app_nil_r cs) at 1.
  rewrite remove_child_app by exact Hnotin. simpl. apply app_nil_r.
Qed.

Lemma cleared_children_no_mesh (snapshot cs : list (Object3D num)) :
  Forall (fun c => isMesh c = false) snapshot ->
  cleared_children snapshot cs = cs.
Proof.
  unfold cleared_children. revert cs.
  induction snapshot as [|c snapshot IH]; intros cs Hs; [reflexivity|].
  inversion Hs as [|? ? Hc Hs']; subst. simpl. rewrite Hc. apply IH. exact Hs'.
Qed.

(** When the file has been read the model is moved so that the centre
    of its bounding box comes to the origin, and only then shown: the
    scene gains the moved model as its last child, and [currentObject],
    which [voxelize] samples, is that same object. *)
Theorem loadModel_onLoad_shows_centered (gltf_scene : Object3D num) (w : World num) :
  ~ In (uuid gltf_scene) (map (@uuid num) (scene_children w)) ->
  exists (w' : World num) (shown : Object3D num),
    loadModel_onLoad gltf_scene w = Ok (tt, w')
    /\ scene_children w' = scene_children w ++ [shown]
    /\ currentObject w' = Some shown
    /\ position shown
       = Vector3_sub (position gltf_scene)
           (Box3_getCenter (Box3_setFromObject gltf_scene))
    /\ uuid shown = uuid gltf_scene
    /\ children shown = children gltf_scene
    /\ log w' = log w ++ [EvSceneAdd (uuid gltf_scene)]
    /\ voxelsPerUnit w' = voxelsPerUnit w.
Proof.
  intros Hfresh. eexists _, (centered gltf_scene).
  split; [apply loadModel_onLoad_run; exact Hfresh|].
  cbn [currentObject scene_children voxelsPerUnit next_id log].
  unfold centered. rewrite position_with_position, uuid_with_position.
  destruct gltf_scene; repeat split.
Qed.

(** For a name of the table [loadModel] asks the loader for the path of
    the name.  Before that, with a model loaded, it removes the model
    and every mesh that is a direct child of the scene (the cubes of a
    pass); the lights and groups stay.  It does not reset
    [currentObject]: until the new file has been read the variable
    still holds the model that is no longer shown.  With no model
    loaded it changes nothing.  For a name that the table does not have
    the call throws, in the loader. *)
Theorem loadModel_clears_scene (name : String.string) (w : World num) :
  distinct_children w ->
  (models_get name models = None -> loadModel name w = TypeError)
  /\ forall path : String.string,
       models_get name models = Some path ->
       (currentObject w = None -> loadModel name w = Ok (path, w))
       /\ (forall o : Object3D num,
             currentObject w = Some o ->
             exists w' : World num,
               loadModel name w = Ok (path, w')
               /\ scene_children w'
                  = not_meshes (remove_child (uuid o) (scene_children w))
               /\ currentObject w' = Some o
               /\ voxelsPerUnit w' = voxelsPerUnit w
               /\ log w' = (log w ++ [EvSceneRemove (uuid o)])
                            ++ flat_map clear_events
                                 (remove_child (uuid o) (scene_children w))).
Proof.
  intros Hnd. split.
  - intros Hname. rewrite loadModel_run, Hname. reflexivity.
  - intros path Hname. split.
    + intros Hcur. rewrite loadModel_run, Hname, Hcur. reflexivity.
    + intros o Hcur. eexists. rewrite loadModel_run, Hname, Hcur.
      split; [reflexivity|]. unfold cleared_world.
      cbn [currentObject scene_children voxelsPerUnit next_id log].
      rewrite cleared_children_not_meshes by (apply remove_child_distinct; exact Hnd).
      repeat split. exact Hcur.
Qed.

(** A load is not cancelled by the next one.  When two loads of models
    of the table are started before the first file has been read, both models end up in
    the scene; [currentObject] is the second, and the next load removes
    the second only: the first stays in the scene, where no variable of
    the program refers to it any more. *)
Theorem loadModel_overlapping_loads (first second : Object3D num)
    (name1 name2 name3 path1 path2 path3 : String.string) (w : World num) :
  models_get name1 models = Some path1 ->
  models_get name2 models = Some path2 ->
  models_get name3 models = Some path3 ->
  currentObject w = None ->
  Forall (fun c => isMesh c = false) (scene_children w) ->
  isMesh first = false ->
  ~ In (uuid first) (map (@uuid num) (scene_children w)) ->
  ~ In (uuid second) (map (@uuid num) (scene_children w)) ->
  uuid first <> uuid second ->
  exists w' : World num,
    (loadModel name1 ;;; loadModel name2 ;;;
     loadModel_onLoad first ;;; loadModel_onLoad second ;;;
     loadModel name3) w
    = Ok (path3, w')
    /\ scene_children w' = scene_children w ++ [centered first]
    /\ currentObject w' = Some (centered second)
    /\ log w' = log w ++ [EvSceneAdd (uuid first); EvSceneAdd (uuid second);
                          EvSceneRemove (uuid second)].
Proof.
  intros Hname1 Hname2 Hname3 Hcur Hcs Hmesh Hfirst Hsecond Hne.
  eexists. split.
  - unfold bind at 1. rewrite loadModel_run, Hname1, Hcur.
    unfold bind at 1. rewrite loadModel_run, Hname2, Hcur.
    unfold bind at 1. rewrite (loadModel_onLoad_run _ _ Hfirst).
    unfold bind at 1. rewrite loadModel_onLoad_run.
    + rewrite loadModel_run, Hname3. cbn [currentObject]. reflexivity.
    + cbn [scene_children]. rewrite map_app, in_app_iff. cbn [map In].
      rewrite uuid_centered. intuition congruence.
  - unfold cleared_world. cbn [currentObject scene_children voxelsPerUnit next_id log].
    assert (Hrest : remove_child (uuid (centered second))
                      ((scene_children w ++ [centered first]) ++ [centered second])
                    = scene_children w ++ [centered first]).
    { rewrite uuid_centered, remove_child_app.
      - cbn [remove_child]. rewrite uuid_centered, Nat.eqb_refl. apply app_nil_r.
      - rewrite map_app, in_app_iff. cbn [map In]. rewrite uuid_centered.
        intuition congruence. }
    rewrite Hrest.
    assert (Hno : Forall (fun c => isMesh c = false)
                    (scene_children w ++ [centered first])).
    { apply Forall_app. split; [exact Hcs|]. constructor; [|constructor].
      rewrite isMesh_centered. exact Hmesh. }
    rewrite (cleared_children_no_mesh _ _ Hno), (clear_events_not_meshes _ Hno).
    split; [reflexivity|]. split; [reflexivity|].
    rewrite app_nil_r, <- !app_assoc, uuid_centered. reflexivity.
Qed.

End Loading.

(** *** Centring, in exact arithmetic *)

Lemma Qc_ltb_plus (a b v : Qc) : Qc_ltb (a + v) (b + v) = Qc_ltb a b.
Proof.
  apply eq_true_iff_eq. rewrite !Qc_ltb_lt.
  rewrite (Qclt_minus_iff (a + v)), (Qclt_minus_iff a).
  replace (b + v + - (a + v))%Qc with (b + - a)%Qc by ring. reflexivity.
Qed.

Lemma Qc_isEmpty_translate (v : Vector3.t Qc) (b : Box3.t Qc) :
  Box3_isEmpty (Box3_translate v b) = Box3_isEmpty b.
Proof.
  unfold Box3_isEmpty, Box3_translate, Vector3_add. simpl.
  rewrite !Qc_ltb_plus. reflexivity.
Qed.

Lemma Qc_getSize_translate (v : Vector3.t Qc) (b : Box3.t Qc) :
  Box3_getSize (Box3_translate v b) = Box3_getSize b.
Proof.
  unfold Box3_getSize. rewrite Qc_isEmpty_translate.
  destruct (Box3_isEmpty b); [reflexivity|].
  unfold Box3_translate, Vector3_add. simpl. f_equal; ring.
Qed.

Lemma Qc_getCenter_translate (v : Vector3.t Qc) (b : Box3.t Qc) :
  Box3_isEmpty b = false ->
  Box3_getCenter (Box3_translate v b) = Vector3_add (Box3_getCenter b) v.
Proof.
  intros Hb. unfold Box3_getCenter. rewrite Qc_isEmpty_translate, Hb.
  unfold Box3_translate, Vector3_add, one_half. simpl.
  change (Qc_of_Z 1) with 1%Qc. change (Qc_of_Z 2) with (1 + 1)%Qc.
  f_equal; field; discriminate.
Qed.

Section Centring.
Local Open Scope num_scope.

Variable Box3_setFromObject : Object3D Qc -> Box3.t Qc.

Notation centerObject := (centerObject Box3_setFromObject).
Notation centered := (centered Box3_setFromObject).

Lemma Qc_centered_center (object : Object3D Qc) :
  box_follows_position Box3_setFromObject ->
  Box3_isEmpty (Box3_setFromObject object) = false ->
  Box3_getCenter (Box3_setFromObject (centered object))
  = Vector3.new (of_nat 0) (of_nat 0) (of_nat 0).
Proof.
  intros Hbox Hb. unfold centered. rewrite Hbox.
  rewrite (Qc_getCenter_translate _ _ Hb).
  unfold Vector3_add, Vector3_sub. simpl.
  change (Qc_of_Z 0) with (Q2Qc 0). f_equal; ring.
Qed.

Lemma Qc_centered_twice (object : Object3D Qc) :
  box_follows_position Box3_setFromObject ->
  Box3_isEmpty (Box3_setFromObject object) = false ->
  position (centered (centered object)) = position (centered object).
Proof.
  intros Hbox Hb. unfold centered at 1. rewrite position_with_position.
  rewrite (Qc_centered_center object Hbox Hb).
  unfold Vector3_sub. simpl. change (Qc_of_Z 0) with (Q2Qc 0).
  destruct (position (centered object)) as [px py pz]. simpl. f_equal; ring.
Qed.

(** Over exact numbers, and with a bounding box that follows the
    object: after [centerObject] the bounding box of the object is
    centred at the origin and has the size it had; a second
    [centerObject] moves nothing. *)
Theorem centerObject_centres_box (object : Object3D Qc) (w : World Qc) :
  box_follows_position Box3_setFromObject ->
  Box3_isEmpty (Box3_setFromObject object) = false ->
  currentObject w = Some object ->
  exists (w' : World Qc) (moved : Object3D Qc),
    centerObject object w = Ok (tt, w')
    /\ currentObject w' = Some moved
    /\ Box3_getCenter (Box3_setFromObject moved)
       = Vector3.new (of_nat 0) (of_nat 0) (of_nat 0)
    /\ Box3_getSize (Box3_setFromObject moved)
       = Box3_getSize (Box3_setFromObject object)
    /\ centerObject moved w' = Ok (tt, w').
Proof.
  intros Hbox Hb Hcur. eexists _, (centered object).
  split; [apply centerObject_run|].
  cbn [currentObject]. rewrite Hcur, Nat.eqb_refl, centered_position.
  split; [reflexivity|].
  split; [apply Qc_centered_center; assumption|].
  split; [unfold centered; rewrite Hbox; apply Qc_getSize_translate|].
  rewrite centerObject_run.
  cbn [currentObject scene_children voxelsPerUnit next_id log].
  rewrite uuid_centered, Nat.eqb_refl, (Qc_centered_twice object Hbox Hb).
  rewrite map_map. do 2 f_equal. f_equal.
  - apply map_ext. intros c.
    destruct (Nat.eqb (uuid c) (uuid object)) eqn:Hc.
    + rewrite uuid_with_position, Hc. apply with_position_twice.
    + rewrite Hc. reflexivity.
  - f_equal. unfold centered at 2. rewrite with_position_twice. apply centered_position.
Qed.

End Centring.

(** *** Objects without geometry, in doubles *)

Lemma float_sub_zero (x : float) : PrimFloat.sub x (float_of_nat 0) = x.
Proof.
  apply Prim2SF_inj. rewrite FloatAxioms.sub_spec, Prim2SF_zero.
  destruct (Prim2SF x) as [s|s| |s m e]; try destruct s; reflexivity.
Qed.

Section EmptyBox.
Local Open Scope num_scope.

Variable Box3_setFromObject : Object3D float -> Box3.t float.
Variable Raycaster_intersectObject :
  Vector3.t float -> Vector3.t float -> Object3D float -> list (Intersection float).

Notation calculateGrid := (calculateGrid Raycaster_intersectObject).
Notation voxelize := (voxelize Box3_setFromObject Raycaster_intersectObject).
Notation centerObject := (centerObject Box3_setFromObject).
Notation getDimensions := (getDimensions Box3_setFromObject).
Notation size_of object := (Box3_getSize (Box3_setFromObject object)).

Lemma centered_empty_box (object : Object3D float) :
  Box3_isEmpty (Box3_setFromObject object) = true ->
  centered Box3_setFromObject object = object.
Proof.
  intros Hb. unfold centered, Box3_getCenter. rewrite Hb.
  unfold Vector3_sub. simpl. rewrite !float_sub_zero.
  destruct object as [u b [px py pz] g m cs]. reflexivity.
Qed.

(** An object without geometry has an empty bounding box, in three.js
    the box from [+Infinity] to [-Infinity].  [centerObject] leaves such
    an object exactly where it is, and the world as it was: the centre
    it subtracts is the origin, not the [NaN] that [min + max] is. *)
Theorem centerObject_empty_box (object : Object3D float) (w : World float) :
  Box3_isEmpty (Box3_setFromObject object) = true ->
  currentObject w = Some object ->
  ~ In (uuid object) (map (@uuid float) (scene_children w)) ->
  centerObject object w = Ok (tt, w).
Proof.
  intros Hb Hcur Hfresh. rewrite centerObject_run.
  rewrite (centered_empty_box object Hb), (position_set_fresh _ _ _ Hfresh).
  rewrite Hcur, Nat.eqb_refl.
  pose proof (centered_position Box3_setFromObject object) as Hpos.
  rewrite (centered_empty_box object Hb) in Hpos. rewrite Hpos, <- Hcur.
  destruct w; reflexivity.
Qed.

(** For an empty bounding box [getDimensions] returns zero on every
    axis, not the negative or infinite difference [max - min].  When no
    mesh of the object has an array of materials (an object without
    meshes, whose box is empty in three.js, is such an object) and the
    density is finite, [voxelize] then returns, having built a grid of
    exactly one cell. *)
Theorem voxelize_empty_box (object : Object3D float) (w : World float) (fuel : nat) :
  currentObject w = Some object ->
  Forall (fun slot => exists m, slot = OneMaterial m) (mesh_materials object) ->
  Box3_isEmpty (Box3_setFromObject object) = true ->
  float_is_finite (voxelsPerUnit w) = true ->
  (2 <= fuel)%nat ->
  getDimensions object w = Ok (Dimensions.mk (of_nat 0) (of_nat 0) (of_nat 0), w)
  /\ exists (w' w1 : World float) (grid : Grid float),
       voxelize fuel w = Ok (tt, w')
       /\ calculateGrid fuel
            (extent (Vector3.x (size_of object)) (voxelsPerUnit w))
            (extent (Vector3.y (size_of object)) (voxelsPerUnit w))
            (extent (Vector3.z (size_of object)) (voxelsPerUnit w)) w
          = Ok (grid, w1)
       /\ length (grid_cells grid) = 1%nat.
Proof.
  intros Hcur Hone Hb Hd Hfuel.
  assert (Hsize : size_of object = Vector3.new (of_nat 0) (of_nat 0) (of_nat 0)).
  { unfold Box3_getSize. rewrite Hb. reflexivity. }
  split.
  - unfold getDimensions. rewrite Hsize. reflexivity.
  - assert (Htrip : trip_count (extent (float_of_nat 0) (voxelsPerUnit w)) 1).
    { apply float_zero_extent; [reflexivity | exact Hd]. }
    assert (Hx : trip_count (extent (Vector3.x (size_of object)) (voxelsPerUnit w)) 1)
      by (rewrite Hsize; exact Htrip).
    assert (Hy : trip_count (extent (Vector3.y (size_of object)) (voxelsPerUnit w)) 1)
      by (rewrite Hsize; exact Htrip).
    assert (Hz : trip_count (extent (Vector3.z (size_of object)) (voxelsPerUnit w)) 1)
      by (rewrite Hsize; exact Htrip).
    destruct (calculateGrid_run Raycaster_intersectObject object w _ _ _ 1 1 1 fuel
                Hcur Hx Hy Hz ltac:(lia) ltac:(lia) ltac:(lia)) as [n Hgrid].
    destruct (capture_slots_cloneable _ Hone None (after_raycasts object n w))
      as (captured & w2 & Hcap & _).
    pose proof (capture_slots_Ok _ _ _ _ _ Hcap) as (_ & Hc & _).
    cbn [currentObject after_raycasts with_log] in Hc.
    destruct (drawGrid_returns
                (dense3 1 1 1
                   (cell_at Raycaster_intersectObject object (voxelsPerUnit w)
                      (extent (Vector3.x (size_of object)) (voxelsPerUnit w))
                      (extent (Vector3.y (size_of object)) (voxelsPerUnit w))
                      (extent (Vector3.z (size_of object)) (voxelsPerUnit w))))
                captured (cleared_world object w2) _ _ _ 1 1 1 fuel Hx Hy Hz
                ltac:(lia) ltac:(lia) ltac:(lia)) as [w' Hdraw].
    { intros i j k Hi Hj Hk. rewrite arr_get3_dense3.
      rewrite (proj2 (Nat.ltb_lt i 1) Hi), (proj2 (Nat.ltb_lt j 1) Hj),
        (proj2 (Nat.ltb_lt k 1) Hk). discriminate. }
    exists w'. eexists _, _. split; [|split; [exact Hgrid|]].
    + unfold voxelize.
      unfold bind at 1, gets at 1. rewrite Hcur.
      unfold bind at 1, getDimensions at 1, ret at 1.
      unfold bind at 1, gets at 1. cbv zeta.
      cbn [Dimensions.x Dimensions.y Dimensions.z].
      fold (extent (Vector3.x (size_of object)) (voxelsPerUnit w)).
      fold (extent (Vector3.y (size_of object)) (voxelsPerUnit w)).
      fold (extent (Vector3.z (size_of object)) (voxelsPerUnit w)).
      rewrite (bind_Ok _ Hgrid).
      unfold bind at 1, gets at 1. simpl currentObject. rewrite Hcur.
      unfold bind at 1. rewrite traverse_capture, Hcap.
      unfold bind at 1, gets at 1. rewrite Hc, Hcur.
      unfold bind at 1. rewrite remove_then_clear. exact Hdraw.
    + apply grid_cells_dense3_length.
Qed.

End EmptyBox.

(** *** One pass after another *)

Section Passes.
Context {num : Type} {NUM : Number num}.
Local Open Scope num_scope.

Lemma voxels_from_uuid_above (d : num) (m : Material) (cells : list (Cell.t num)) :
  forall id : nat, Forall (fun o => (id < uuid o)%nat) (voxels_from d m id cells).
Proof.
  induction cells as [|cell cells IH]; intros id; simpl; constructor.
  - simpl. lia.
  - eapply Forall_impl; [|apply IH]. cbv beta. intros o Ho. lia.
Qed.

Lemma voxels_from_distinct (d : num) (m : Material) (cells : list (Cell.t num)) :
  forall id : nat, NoDup (map (@uuid num) (voxels_from d m id cells)).
Proof.
  induction cells as [|cell cells IH]; intros id; simpl; constructor.
  - intros Hin. apply in_map_iff in Hin as (o & Ho & Hin).
    pose proof (voxels_from_uuid_above d m cells (id + 2)) as Habove.
    rewrite Forall_forall in Habove. specialize (Habove o Hin). simpl in Ho. lia.
  - apply IH.
Qed.

Lemma voxels_from_meshes (d : num) (m : Material) (cells : list (Cell.t num)) :
  forall id : nat, Forall (fun o => isMesh o = true) (voxels_from d m id cells).
Proof.
  induction cells as [|cell cells IH]; intros id; simpl; constructor;
    [reflexivity | apply IH].
Qed.

Lemma not_meshes_app (l1 l2 : list (Object3D num)) :
  not_meshes (l1 ++ l2) = not_meshes l1 ++ not_meshes l2.
Proof. apply filter_app. Qed.

Lemma not_meshes_meshes (l : list (Object3D num)) :
  Forall (fun o => isMesh o = true) l -> not_meshes l = [].
Proof.
  induction 1 as [|o l Ho _ IH]; simpl; [reflexivity|]. rewrite Ho. exact IH.
Qed.

Lemma not_meshes_twice (l : list (Object3D num)) : not_meshes (not_meshes l) = not_meshes l.
Proof. apply not_meshes_id, not_meshes_Forall. Qed.

(** What [clearScene] does to the cubes of a pass. *)
Lemma clear_events_voxels (d : num) (m : Material) (cells : list (Cell.t num)) :
  forall id : nat,
    flat_map clear_events (voxels_from d m id cells)
    = flat_map (fun voxel => [EvSceneRemove (uuid voxel);
                              EvDisposeGeometry (Nat.pred (uuid voxel));
                              EvDisposeMaterial (material_id m)])
               (voxels_from d m id cells).
Proof.
  induction cells as [|cell cells IH]; intros id; simpl; [reflexivity|].
  rewrite IH. reflexivity.
Qed.

(** The scene with the cubes of a pass added holds distinct objects. *)
Lemma drawn_distinct (cs : list (Object3D num)) (d : num) (m : Material)
    (id : nat) (cells : list (Cell.t num)) :
  NoDup (map (@uuid num) cs) ->
  Forall (fun o => (uuid o < id)%nat) cs ->
  NoDup (map (@uuid num) (cs ++ voxels_from d m id cells)).
Proof.
  intros Hnd Hids. rewrite map_app.
  induction cs as [|c cs IH]; simpl.
  - apply voxels_from_distinct.
  - inversion Hnd as [|? ? Hnotin Hnd']; subst.
    inversion Hids as [|? ? Hc Hids']; subst.
    constructor; [|apply IH; assumption].
    rewrite in_app_iff. intros [Hin | Hin]; [exact (Hnotin Hin)|].
    apply in_map_iff in Hin as (o & Ho & Hin).
    pose proof (voxels_from_uuid_above d m cells id) as Habove.
    rewrite Forall_forall in Habove. specialize (Habove o Hin). lia.
Qed.

Lemma uuid_absent_below (u id : nat) (d : num) (m : Material) (cells : list (Cell.t num)) :
  (u < id)%nat -> ~ In u (map (@uuid num) (voxels_from d m id cells)).
Proof.
  intros Hu Hin. apply in_map_iff in Hin as (o & Ho & Hin).
  pose proof (voxels_from_uuid_above d m cells id) as Habove.
  rewrite Forall_forall in Habove. specialize (Habove o Hin). lia.
Qed.

Lemma remove_child_gone (u : nat) (cs : list (Object3D num)) :
  NoDup (map (@uuid num) cs) -> ~ In u (map (@uuid num) (remove_child u cs)).
Proof.
  intros Hnd Hin. rewrite remove_child_filter in Hin by exact Hnd.
  apply in_map_iff in Hin as (o & Ho & Hin).
  apply filter_In in Hin as [_ Hneq].
  apply negb_true_iff, Nat.eqb_neq in Hneq. contradiction.
Qed.

Lemma not_meshes_absent (u : nat) (cs : list (Object3D num)) :
  ~ In u (map (@uuid num) cs) -> ~ In u (map (@uuid num) (not_meshes cs)).
Proof.
  intros Hnotin Hin. apply Hnotin.
  apply in_map_iff in Hin as (o & Ho & Hin).
  apply filter_In in Hin as [Hin _]. rewrite <- Ho. apply in_map. exact Hin.
Qed.

(** The cubes that [drawGrid] adds are what a following [clearScene]
    removes: the scene is left with the objects it had that are no
    meshes.  Every cube has its geometry disposed once, and the one
    material that the cubes share is disposed once for every cube. *)
Theorem drawGrid_then_clearScene (grid : Grid num) (m : Material) (w : World num)
    (sizeX sizeY sizeZ : num) (kx ky kz fuel : nat) :
  trip_count sizeX kx -> trip_count sizeY ky -> trip_count sizeZ kz ->
  (kx < fuel)%nat -> (ky < fuel)%nat -> (kz < fuel)%nat ->
  (forall i j k, (i < kx)%nat -> (j < ky)%nat -> (k < kz)%nat ->
                 arr_get3 grid i j k <> None) ->
  scene_ids_allocated w ->
  distinct_children w ->
  exists w' : World num,
    (drawGrid fuel sizeX sizeY sizeZ grid (Some m) ;;; clearScene) w = Ok (tt, w')
    /\ scene_children w' = not_meshes (scene_children w)
    /\ log w'
       = log w
         ++ map (fun voxel => EvSceneAdd (uuid voxel))
              (voxels_from (voxelsPerUnit w) m (next_id w)
                 (filter (@Cell.value num) (cells_in grid kx ky kz)))
         ++ flat_map clear_events (scene_children w)
         ++ flat_map (fun voxel => [EvSceneRemove (uuid voxel);
                                    EvDisposeGeometry (Nat.pred (uuid voxel));
                                    EvDisposeMaterial (material_id m)])
              (voxels_from (voxelsPerUnit w) m (next_id w)
                 (filter (@Cell.value num) (cells_in grid kx ky kz))).
Proof.
  intros Hx Hy Hz Hfx Hfy Hfz Hgrid Hids Hnd.
  eexists. unfold bind.
  rewrite (drawGrid_run grid m w sizeX sizeY sizeZ kx ky kz fuel) by assumption.
  rewrite clearScene_run. split; [reflexivity|].
  cbn [drawn scene_children currentObject voxelsPerUnit next_id log].
  rewrite cleared_children_not_meshes by (apply drawn_distinct; assumption).
  rewrite not_meshes_app, (not_meshes_meshes _ (voxels_from_meshes _ _ _ _)), app_nil_r.
  split; [reflexivity|].
  rewrite flat_map_app, clear_events_voxels, <- !app_assoc. reflexivity.
Qed.

End Passes.

Section Repeat.
Context {num : Type} {NUM : Number num}.
Local Open Scope num_scope.

Variable Box3_setFromObject : Object3D num -> Box3.t num.
Variable Raycaster_intersectObject :
  Vector3.t num -> Vector3.t num -> Object3D num -> list (Intersection num).

Notation calculateGrid := (calculateGrid Raycaster_intersectObject).
Notation voxelize := (voxelize Box3_setFromObject Raycaster_intersectObject).
Notation cell_at := (cell_at Raycaster_intersectObject).
Notation size_of object := (Box3_getSize (Box3_setFromObject object)).
Notation occupied_cells object d kx ky kz :=
  (filter (@Cell.value num)
     (cells_in (dense3 kx ky kz
                  (cell_at object d
                     (extent (Vector3.x (size_of object)) d)
                     (extent (Vector3.y (size_of object)) d)
                     (extent (Vector3.z (size_of object)) d)))
        kx ky kz)).

(** The world that a pass leaves: the scene without the object and
    without meshes, then the cubes of the occupied cells. *)
Lemma voxelize_pass (object : Object3D num) (w : World num) (kx ky kz fuel : nat) :
  currentObject w = Some object ->
  cloneable object ->
  scene_ids_allocated w ->
  distinct_children w ->
  trip_count (extent (Vector3.x (size_of object)) (voxelsPerUnit w)) kx ->
  trip_count (extent (Vector3.y (size_of object)) (voxelsPerUnit w)) ky ->
  trip_count (extent (Vector3.z (size_of object)) (voxelsPerUnit w)) kz ->
  (kx < fuel)%nat -> (ky < fuel)%nat -> (kz < fuel)%nat ->
  exists (w' : World num) (m : Material) (id : nat),
    voxelize fuel w = Ok (tt, w')
    /\ scene_children w'
       = not_meshes (remove_child (uuid object) (scene_children w))
         ++ voxels_from (voxelsPerUnit w) m id
              (occupied_cells object (voxelsPerUnit w) kx ky kz)
    /\ currentObject w' = Some object
    /\ voxelsPerUnit w' = voxelsPerUnit w
    /\ (next_id w < id)%nat
    /\ (next_id w <= material_id m < id)%nat
    /\ next_id w'
       = (id + 2 * length (occupied_cells object (voxelsPerUnit w) kx ky kz))%nat.
Proof.
  intros Hcur Hclone Hids Hnd Hx Hy Hz Hfx Hfy Hfz.
  destruct (voxelize_run Box3_setFromObject Raycaster_intersectObject object w
              kx ky kz fuel Hcur Hclone Hids Hx Hy Hz Hfx Hfy Hfz)
    as (n & m & w2 & grid & Hgrid & _ & Hcap & Hrun).
  destruct (calculateGrid_run Raycaster_intersectObject object w _ _ _ kx ky kz fuel
              Hcur Hx Hy Hz Hfx Hfy Hfz) as [n' Hgrid'].
  rewrite Hgrid' in Hgrid. injection Hgrid as <- _.
  destruct Hclone as [Hne Hone].
  assert (Hms : exists ms, mesh_materials object = map OneMaterial ms /\ ms <> []).
  { clear Hcap. revert Hne Hone. generalize (mesh_materials object) as slots.
    induction slots as [|slot slots IH]; intros Hne Hone; [congruence|].
    inversion Hone as [|? ? [m0 ->] Hone']; subst.
    destruct slots as [|slot' slots].
    - exists [m0]. split; [reflexivity | discriminate].
    - destruct (IH ltac:(discriminate) Hone') as (ms & Hms & _).
      exists (m0 :: ms). split; [simpl; rewrite Hms; reflexivity | discriminate]. }
  destruct Hms as (ms & Hms & Hmsne).
  rewrite Hms, capture_slots_clones in Hcap.
  destruct ms as [|m0 ms]; [congruence|].
  injection Hcap as <- <-.
  eexists _, _, (next_id w + length (m0 :: ms))%nat.
  split; [exact Hrun|].
  cbn [drawn cleared_world after_raycasts with_log
       scene_children currentObject voxelsPerUnit next_id log material_id].
  rewrite cleared_children_not_meshes by (apply remove_child_distinct; exact Hnd).
  split; [reflexivity|]. split; [exact Hcur|]. split; [reflexivity|].
  cbn [length material_id]. split; [lia|]. split; [lia|]. reflexivity.
Qed.

Lemma base_ids (u id : nat) (cs : list (Object3D num)) :
  Forall (fun o => (uuid o < id)%nat) cs ->
  Forall (fun o => (uuid o < id)%nat) (not_meshes (remove_child u cs)).
Proof.
  intros Hids. apply Forall_forall. intros o Ho.
  apply filter_In in Ho as [Ho _].
  pose proof (remove_child_Forall _ u cs Hids) as Hrest.
  rewrite Forall_forall in Hrest. exact (Hrest o Ho).
Qed.

Lemma base_distinct (u : nat) (cs : list (Object3D num)) :
  NoDup (map (@uuid num) cs) ->
  NoDup (map (@uuid num) (not_meshes (remove_child u cs))).
Proof.
  intros Hnd. apply filter_keeps_distinct, remove_child_distinct. exact Hnd.
Qed.

(** Removing the object again and clearing the scene of a pass gives
    back the scene without the object and without meshes. *)
Lemma cleared_after_pass (u id : nat) (cs : list (Object3D num)) (d : num)
    (m : Material) (cells : list (Cell.t num)) :
  NoDup (map (@uuid num) cs) ->
  Forall (fun o => (uuid o < id)%nat) cs ->
  (u < id)%nat ->
  remove_child u (not_meshes (remove_child u cs) ++ voxels_from d m id cells)
  = not_meshes (remove_child u cs) ++ voxels_from d m id cells
  /\ cleared_children
       (not_meshes (remove_child u cs) ++ voxels_from d m id cells)
       (not_meshes (remove_child u cs) ++ voxels_from d m id cells)
     = not_meshes (remove_child u cs).
Proof.
  intros Hnd Hids Hu. split.
  - apply remove_child_absent. rewrite map_app, in_app_iff. intros [Hin | Hin].
    + exact (not_meshes_absent u _ (remove_child_gone u cs Hnd) Hin).
    + exact (uuid_absent_below u id d m cells Hu Hin).
  - rewrite cleared_children_not_meshes
      by (apply drawn_distinct; [apply base_distinct; exact Hnd
                                | apply base_ids; exact Hids]).
    rewrite not_meshes_app, not_meshes_twice,
      (not_meshes_meshes _ (voxels_from_meshes _ _ _ _)).
    apply app_nil_r.
Qed.

(** A pass can be repeated.  The object stays the current object after
    it has left the scene, so a second pass samples it again: it clears
    the cubes of the first pass and draws cubes for the same cells, at
    the same places, as new objects with a new clone of the material. *)
Theorem voxelize_twice (object : Object3D num) (w : World num) (kx ky kz fuel : nat) :
  currentObject w = Some object ->
  cloneable object ->
  scene_ids_allocated w ->
  distinct_children w ->
  (uuid object < next_id w)%nat ->
  trip_count (extent (Vector3.x (size_of object)) (voxelsPerUnit w)) kx ->
  trip_count (extent (Vector3.y (size_of object)) (voxelsPerUnit w)) ky ->
  trip_count (extent (Vector3.z (size_of object)) (voxelsPerUnit w)) kz ->
  (kx < fuel)%nat -> (ky < fuel)%nat -> (kz < fuel)%nat ->
  exists (w1 w2 : World num) (m1 m2 : Material) (id1 id2 : nat),
    voxelize fuel w = Ok (tt, w1)
    /\ voxelize fuel w1 = Ok (tt, w2)
    /\ scene_children w1
       = not_meshes (remove_child (uuid object) (scene_children w))
         ++ voxels_from (voxelsPerUnit w) m1 id1
              (occupied_cells object (voxelsPerUnit w) kx ky kz)
    /\ scene_children w2
       = not_meshes (remove_child (uuid object) (scene_children w))
         ++ voxels_from (voxelsPerUnit w) m2 id2
              (occupied_cells object (voxelsPerUnit w) kx ky kz)
    /\ (material_id m1 < material_id m2)%nat
    /\ (id1 + 2 * length (occupied_cells object (voxelsPerUnit w) kx ky kz) < id2)%nat.
Proof.
  intros Hcur Hclone Hids Hnd Hobj Hx Hy Hz Hfx Hfy Hfz.
  destruct (voxelize_pass object w kx ky kz fuel Hcur Hclone Hids Hnd Hx Hy Hz
              Hfx Hfy Hfz)
    as (w1 & m1 & id1 & Hrun1 & Hs1 & Hc1 & Hv1 & Hid1 & Hm1 & Hn1).
  assert (Hbelow : Forall (fun o => (uuid o < id1)%nat) (scene_children w)).
  { eapply Forall_impl; [|exact Hids]. cbv beta. intros o Ho. lia. }
  assert (Hids1 : scene_ids_allocated w1).
  { unfold scene_ids_allocated. rewrite Hs1, Hn1. apply Forall_app. split.
    - eapply Forall_impl; [|apply base_ids; exact Hbelow]. cbv beta. intros o Ho. lia.
    - apply voxels_from_ids. }
  assert (Hnd1 : distinct_children w1).
  { unfold distinct_children. rewrite Hs1.
    apply drawn_distinct; [apply base_distinct; exact Hnd | apply base_ids; exact Hbelow]. }
  rewrite <- Hv1 in Hx, Hy, Hz.
  destruct (voxelize_pass object w1 kx ky kz fuel Hc1 Hclone Hids1 Hnd1 Hx Hy Hz
              Hfx Hfy Hfz)
    as (w2 & m2 & id2 & Hrun2 & Hs2 & _ & _ & Hid2 & Hm2 & _).
  rewrite Hv1 in Hs2. rewrite Hs1 in Hs2.
  destruct (cleared_after_pass (uuid object) id1 (scene_children w) (voxelsPerUnit w) m1
              (occupied_cells object (voxelsPerUnit w) kx ky kz) Hnd Hbelow
              ltac:(lia)) as [Hrest Hclear].
  rewrite Hrest in Hs2.
  rewrite not_meshes_app, not_meshes_twice,
    (not_meshes_meshes _ (voxels_from_meshes _ _ _ _)), app_nil_r in Hs2.
  exists w1, w2, m1, m2, id1, id2.
  split; [exact Hrun1|]. split; [exact Hrun2|]. split; [exact Hs1|].
  split; [exact Hs2|]. split; lia.
Qed.

(** Loading another model of the table after a pass removes every cube
    of the pass: the scene is left with the objects that were beside the
    model and are no meshes.  The model just voxelized stays the current
    object until the new file has been read. *)
Theorem voxelize_then_loadModel (object : Object3D num) (name path : String.string)
    (w : World num) (kx ky kz fuel : nat) :
  models_get name models = Some path ->
  currentObject w = Some object ->
  cloneable object ->
  scene_ids_allocated w ->
  distinct_children w ->
  (uuid object < next_id w)%nat ->
  trip_count (extent (Vector3.x (size_of object)) (voxelsPerUnit w)) kx ->
  trip_count (extent (Vector3.y (size_of object)) (voxelsPerUnit w)) ky ->
  trip_count (extent (Vector3.z (size_of object)) (voxelsPerUnit w)) kz ->
  (kx < fuel)%nat -> (ky < fuel)%nat -> (kz < fuel)%nat ->
  exists w1 w2 : World num,
    voxelize fuel w = Ok (tt, w1)
    /\ loadModel name w1 = Ok (path, w2)
    /\ scene_children w2 = not_meshes (remove_child (uuid object) (scene_children w))
    /\ currentObject w2 = Some object.
Proof.
  intros Hname Hcur Hclone Hids Hnd Hobj Hx Hy Hz Hfx Hfy Hfz.
  destruct (voxelize_pass object w kx ky kz fuel Hcur Hclone Hids Hnd Hx Hy Hz
              Hfx Hfy Hfz)
    as (w1 & m1 & id1 & Hrun1 & Hs1 & Hc1 & Hv1 & Hid1 & Hm1 & Hn1).
  assert (Hbelow : Forall (fun o => (uuid o < id1)%nat) (scene_children w)).
  { eapply Forall_impl; [|exact Hids]. cbv beta. intros o Ho. lia. }
  destruct (cleared_after_pass (uuid object) id1 (scene_children w) (voxelsPerUnit w) m1
              (occupied_cells object (voxelsPerUnit w) kx ky kz) Hnd Hbelow
              ltac:(lia)) as [Hrest Hclear].
  exists w1. eexists. split; [exact Hrun1|].
  rewrite loadModel_run, Hname, Hc1. split; [reflexivity|].
  unfold cleared_world. cbn [scene_children currentObject].
  rewrite Hs1, Hrest, Hclear. split; [reflexivity | exact Hc1].
Qed.

End Repeat.

(** *** Witnesses of the further properties *)

Lemma unit_cube_trips (w : World float) (o : Object3D float) :
  voxelsPerUnit w = 1%float ->
  trip_count (extent (Vector3.x (Box3_getSize (box_of unit_cube_lo unit_cube_hi o)))
                (voxelsPerUnit w)) 2
  /\ trip_count (extent (Vector3.y (Box3_getSize (box_of unit_cube_lo unit_cube_hi o)))
                   (voxelsPerUnit w)) 2
  /\ trip_count (extent (Vector3.z (Box3_getSize (box_of unit_cube_lo unit_cube_hi o)))
                   (voxelsPerUnit w)) 2.
Proof.
  intros ->.
  assert (H1 : trip_count (of_nat (num := float) 1) 2) by (apply float_trip_count; lia).
  assert (Ex : extent (Vector3.x (Box3_getSize (box_of unit_cube_lo unit_cube_hi o)))
                 1%float = of_nat 1) by (vm_compute; reflexivity).
  assert (Ey : extent (Vector3.y (Box3_getSize (box_of unit_cube_lo unit_cube_hi o)))
                 1%float = of_nat 1) by (vm_compute; reflexivity).
  assert (Ez : extent (Vector3.z (Box3_getSize (box_of unit_cube_lo unit_cube_hi o)))
                 1%float = of_nat 1) by (vm_compute; reflexivity).
  rewrite Ex, Ey, Ez. repeat split; apply H1.
Qed.

Lemma model_world_distinct (density : float) : distinct_children (model_world density).
Proof.
  unfold distinct_children. simpl. repeat constructor; simpl; intuition discriminate.
Qed.

Lemma calculateGrid_never_throws_witness :
  currentObject (model_world 1%float) = Some model
  /\ calculateGrid (box_first_hit unit_cube_lo unit_cube_hi) 5
       (-1)%float nan infinity (model_world 1%float) <> TypeError.
Proof.
  split; [reflexivity|].
  exact (proj1 (calculateGrid_never_throws (box_first_hit unit_cube_lo unit_cube_hi)
                  model 5 (-1)%float nan infinity (model_world 1%float) eq_refl)).
Defined.

Lemma calculateGrid_without_object_witness :
  currentObject (start_world 1%float) = None
  /\ calculateGrid (box_first_hit unit_cube_lo unit_cube_hi) 1
       1%float 1%float 1%float (start_world 1%float) = TypeError
  /\ calculateGrid (box_first_hit unit_cube_lo unit_cube_hi) 1
       (-1)%float 1%float 1%float (start_world 1%float) = Ok ([], start_world 1%float).
Proof.
  split; [reflexivity|]. split.
  - exact (proj2 (calculateGrid_without_object (box_first_hit unit_cube_lo unit_cube_hi)
                    0 1%float 1%float 1%float (start_world 1%float) eq_refl)
             eq_refl eq_refl eq_refl).
  - exact (proj1 (calculateGrid_without_object (box_first_hit unit_cube_lo unit_cube_hi)
                    0 (-1)%float 1%float 1%float (start_world 1%float) eq_refl)
             eq_refl).
Defined.

Lemma voxelize_infinite_density_witness :
  currentObject (model_world infinity) = Some model
  /\ Prim2SF (voxelsPerUnit (model_world infinity)) = S754_infinity false
  /\ voxelize (box_of unit_cube_lo unit_cube_hi) (box_first_hit unit_cube_lo unit_cube_hi)
       1000 (model_world infinity) = OutOfFuel.
Proof.
  split; [reflexivity|]. split; [reflexivity|].
  exact (proj2 (proj2 (voxelize_infinite_density (box_of unit_cube_lo unit_cube_hi)
                         (box_first_hit unit_cube_lo unit_cube_hi) model
                         (model_world infinity) 1000 eq_refl eq_refl eq_refl))).
Defined.

Lemma voxelize_nan_density_witness :
  Prim2SF (voxelsPerUnit (model_world nan)) = S754_nan
  /\ exists w' : World float,
       voxelize (box_of unit_cube_lo unit_cube_hi) (box_first_hit unit_cube_lo unit_cube_hi)
         5 (model_world nan) = Ok (tt, w')
       /\ scene_children w' = [light].
Proof.
  split; [reflexivity|].
  destruct (voxelize_nan_density (box_of unit_cube_lo unit_cube_hi)
              (box_first_hit unit_cube_lo unit_cube_hi) model (model_world nan) 5
              eq_refl model_cloneable (model_world_ids nan) eq_refl ltac:(lia))
    as (w' & clones & Hrun & Hscene & _).
  exists w'. split; [exact Hrun | exact Hscene].
Defined.

Lemma drawGrid_missing_cell_witness :
  trip_count (of_nat (num := float) 2) 3
  /\ arr_get3 two_cells 0 0 2 = None
  /\ drawGrid 5 (of_nat 0) (of_nat 0) (of_nat 2) two_cells
       (Some {| material_id := 4 |}) (model_world 1%float) = TypeError.
Proof.
  assert (H0 : trip_count (of_nat (num := float) 0) 1) by (apply float_trip_count; lia).
  assert (H2 : trip_count (of_nat (num := float) 2) 3) by (apply float_trip_count; lia).
  split; [exact H2|]. split; [reflexivity|].
  exact (drawGrid_missing_cell two_cells (Some {| material_id := 4 |})
           (model_world 1%float) (of_nat 0) (of_nat 0) (of_nat 2) 1 1 3 5 0 0 2
           H0 H0 H2 ltac:(lia) ltac:(lia) ltac:(lia) ltac:(lia) ltac:(lia) ltac:(lia)
           eq_refl).
Defined.

Lemma traverse_clones_every_material_witness :
  mesh_materials (num := float) two_mesh_model
  = map OneMaterial [ {| material_id := 4 |}; {| material_id := 7 |} ]
  /\ exists w' : World float,
       traverse capture_material two_mesh_model None (world_of two_mesh_model 6%float)
       = Ok (Some {| material_id := 11 |}, w')
       /\ log w' = [EvClone 4 10; EvClone 7 11].
Proof.
  split; [reflexivity|]. eexists. split.
  - exact (traverse_clones_every_material two_mesh_model
             [ {| material_id := 4 |}; {| material_id := 7 |} ]
             (world_of two_mesh_model 6%float) eq_refl).
  - reflexivity.
Defined.


Lemma doesVoxelIntersectObject_ray_count_witness :
  currentObject (model_world 1%float) = Some model
  /\ exists n : nat,
       doesVoxelIntersectObject (box_first_hit unit_cube_lo unit_cube_hi)
         0%float 0%float 0%float 1%float (model_world 1%float)
       = Ok (sampled (box_first_hit unit_cube_lo unit_cube_hi) model
               0%float 0%float 0%float 1%float,
             after_raycasts model n (model_world 1%float))
       /\ 1 <= n <= 12.
Proof.
  split; [reflexivity|].
  destruct (doesVoxelIntersectObject_ray_count (box_first_hit unit_cube_lo unit_cube_hi)
              model 0%float 0%float 0%float 1%float (model_world 1%float) eq_refl)
    as (n & Hrun & _ & Hn & _).
  exists n. split; [exact Hrun | exact Hn].
Defined.

Lemma calculateGrid_ray_budget_witness :
  currentObject (model_world 1%float) = Some model
  /\ trip_count (of_nat (num := float) 1) 2
  /\ exists (grid : Grid float) (n : nat),
       calculateGrid (box_first_hit unit_cube_lo unit_cube_hi) 5
         (of_nat 1) (of_nat 1) (of_nat 1) (model_world 1%float)
       = Ok (grid, after_raycasts model n (model_world 1%float))
       /\ 8 <= n <= 96.
Proof.
  split; [reflexivity|].
  assert (H1 : trip_count (of_nat (num := float) 1) 2) by (apply float_trip_count; lia).
  split; [exact H1|].
  destruct (calculateGrid_ray_budget (box_first_hit unit_cube_lo unit_cube_hi) model
              (model_world 1%float) (of_nat 1) (of_nat 1) (of_nat 1) 2 2 2 5
              eq_refl H1 H1 H1 ltac:(lia) ltac:(lia) ltac:(lia))
    as (grid & n & Hrun & _ & Hn).
  exists grid, n. split; [exact Hrun | exact Hn].
Defined.

Lemma start_world_fresh (density : float) (u : nat) :
  u <> 0 -> ~ In u (map (@uuid float) (scene_children (start_world density))).
Proof. intros Hu [H | []]. apply Hu. symmetry. exact H. Qed.

Lemma loadModel_onLoad_shows_centered_witness :
  ~ In (uuid (num := float) model) (map (@uuid float) (scene_children (start_world 6%float)))
  /\ exists (w' : World float) (shown : Object3D float),
       loadModel_onLoad (box_of block_lo block_hi) model (start_world 6%float) = Ok (tt, w')
       /\ scene_children w' = [light; shown]
       /\ currentObject w' = Some shown
       /\ position shown = Vector3.new (-0.75)%float (-0.5)%float (-0.125)%float.
Proof.
  assert (Hfresh : ~ In (uuid (num := float) model)
                     (map (@uuid float) (scene_children (start_world 6%float)))).
  { apply start_world_fresh. discriminate. }
  split; [exact Hfresh|].
  destruct (loadModel_onLoad_shows_centered (box_of block_lo block_hi) model
              (start_world 6%float) Hfresh)
    as (w' & shown & Hrun & Hscene & Hcur & Hpos & _).
  exists w', shown. split; [exact Hrun|]. split; [exact Hscene|].
  split; [exact Hcur|]. rewrite Hpos. vm_compute. reflexivity.
Defined.

Lemma cubes_world_distinct (density : float) : distinct_children (cubes_world density).
Proof.
  unfold distinct_children. simpl. repeat constructor; simpl; intuition discriminate.
Qed.

Lemma loadModel_clears_scene_witness :
  distinct_children (cubes_world 6%float)
  /\ loadModel "toString"%string (cubes_world 6%float) = TypeError
  /\ exists w' : World float,
       loadModel "ring"%string (cubes_world 6%float)
       = Ok ("/voxelize/models/ring.glb"%string, w')
       /\ scene_children w' = [light]
       /\ currentObject w' = Some model.
Proof.
  split; [apply cubes_world_distinct|]. split.
  - exact (proj1 (loadModel_clears_scene "toString"%string (cubes_world 6%float)
                    (cubes_world_distinct 6%float)) eq_refl).
  - destruct (proj2 (proj2 (loadModel_clears_scene "ring"%string (cubes_world 6%float)
                              (cubes_world_distinct 6%float))
                       "/voxelize/models/ring.glb"%string eq_refl) model eq_refl)
      as (w' & Hrun & Hscene & Hcur & _).
    exists w'. split; [exact Hrun|]. split; [exact Hscene | exact Hcur].
Defined.

Lemma loadModel_overlapping_loads_witness :
  currentObject (start_world 6%float) = None
  /\ exists w' : World float,
       (loadModel "heart"%string ;;; loadModel "cone"%string ;;;
        loadModel_onLoad (box_of unit_cube_lo unit_cube_hi) model ;;;
        loadModel_onLoad (box_of unit_cube_lo unit_cube_hi) other_model ;;;
        loadModel "ring"%string) (start_world 6%float)
       = Ok ("/voxelize/models/ring.glb"%string, w')
       /\ scene_children w'
          = [light; centered (box_of unit_cube_lo unit_cube_hi) model]
       /\ currentObject w'
          = Some (centered (box_of unit_cube_lo unit_cube_hi) other_model).
Proof.
  split; [reflexivity|].
  destruct (loadModel_overlapping_loads (box_of unit_cube_lo unit_cube_hi)
              model other_model "heart"%string "cone"%string "ring"%string
              "/voxelize/models/heart.glb"%string "/voxelize/models/cone.glb"%string
              "/voxelize/models/ring.glb"%string
              (start_world 6%float) eq_refl eq_refl eq_refl eq_refl
              ltac:(repeat constructor) eq_refl
              (start_world_fresh 6%float 1 ltac:(discriminate))
              (start_world_fresh 6%float 5 ltac:(discriminate))
              ltac:(discriminate))
    as (w' & Hrun & Hscene & Hcur & _).
  exists w'. split; [exact Hrun|]. split; [exact Hscene | exact Hcur].
Defined.

Lemma Qc_box_about_follows (lo hi : Vector3.t Qc) : box_follows_position (box_about lo hi).
Proof.
  intros o p. unfold box_about, Box3_translate, Vector3_add, Vector3_sub.
  rewrite position_with_position. simpl. f_equal; f_equal; ring.
Qed.

Lemma centerObject_centres_box_witness :
  box_follows_position (num := Qc) (box_about (corner 0 0 0) (corner 2 1 1))
  /\ Box3_isEmpty (box_about (corner 0 0 0) (corner 2 1 1) (model (num := Qc))) = false
  /\ exists (w' : World Qc) (moved : Object3D Qc),
       centerObject (box_about (corner 0 0 0) (corner 2 1 1)) model
         (detached_world (Qc_of_Z 6)) = Ok (tt, w')
       /\ currentObject w' = Some moved
       /\ Box3_getCenter (box_about (corner 0 0 0) (corner 2 1 1) moved)
          = Vector3.new (of_nat 0) (of_nat 0) (of_nat 0).
Proof.
  assert (Hbox : Box3_isEmpty (box_about (corner 0 0 0) (corner 2 1 1)
                                 (model (num := Qc))) = false) by reflexivity.
  split; [apply Qc_box_about_follows|]. split; [exact Hbox|].
  destruct (centerObject_centres_box (box_about (corner 0 0 0) (corner 2 1 1)) model
              (detached_world (Qc_of_Z 6)) (Qc_box_about_follows _ _) Hbox eq_refl)
    as (w' & moved & Hrun & Hcur & Hcenter & _).
  exists w', moved. split; [exact Hrun|]. split; [exact Hcur | exact Hcenter].
Defined.

Lemma centerObject_empty_box_witness :
  Box3_isEmpty (box_of unit_cube_hi unit_cube_lo model) = true
  /\ centerObject (box_of unit_cube_hi unit_cube_lo) model (detached_world 6%float)
     = Ok (tt, detached_world 6%float).
Proof.
  split; [reflexivity|].
  exact (centerObject_empty_box (box_of unit_cube_hi unit_cube_lo) model
           (detached_world 6%float) eq_refl eq_refl
           (start_world_fresh 6%float 1 ltac:(discriminate))).
Defined.

Lemma voxelize_empty_box_witness :
  Box3_isEmpty (empty_box empty_group) = true
  /\ getDimensions empty_box empty_group (world_of empty_group 6%float)
     = Ok (Dimensions.mk (of_nat 0) (of_nat 0) (of_nat 0), world_of empty_group 6%float)
  /\ exists w' : World float,
       voxelize empty_box no_hit 5 (world_of empty_group 6%float) = Ok (tt, w').
Proof.
  split; [reflexivity|].
  destruct (voxelize_empty_box empty_box no_hit empty_group
              (world_of empty_group 6%float) 5 eq_refl ltac:(constructor)
              eq_refl eq_refl ltac:(lia))
    as (Hdims & w' & _ & _ & Hrun & _).
  split; [exact Hdims|]. exists w'. exact Hrun.
Defined.

Lemma drawGrid_then_clearScene_witness :
  distinct_children (model_world 1%float)
  /\ exists w' : World float,
       (drawGrid 5 (of_nat 0) (of_nat 0) (of_nat 1) two_cells (Some {| material_id := 4 |})
        ;;; clearScene) (model_world 1%float) = Ok (tt, w')
       /\ scene_children w' = [light; model]
       /\ log w' = [EvSceneAdd 6; EvSceneRemove 6; EvDisposeGeometry 5; EvDisposeMaterial 4].
Proof.
  split; [apply model_world_distinct|].
  assert (H0 : trip_count (of_nat (num := float) 0) 1) by (apply float_trip_count; lia).
  assert (H1 : trip_count (of_nat (num := float) 1) 2) by (apply float_trip_count; lia).
  assert (Hgrid : forall i j k, i < 1 -> j < 1 -> k < 2 -> arr_get3 two_cells i j k <> None).
  { intros i j k Hi Hj Hk.
    destruct i as [|i]; [|lia]. destruct j as [|j]; [|lia].
    destruct k as [|[|k]]; [discriminate | discriminate | lia]. }
  destruct (drawGrid_then_clearScene two_cells {| material_id := 4 |}
              (model_world 1%float) (of_nat 0) (of_nat 0) (of_nat 1) 1 1 2 5
              H0 H0 H1 ltac:(lia) ltac:(lia) ltac:(lia) Hgrid (model_world_ids 1%float)
              (model_world_distinct 1%float))
    as (w' & Hrun & Hscene & Hlog).
  exists w'. split; [exact Hrun|]. split; [exact Hscene | exact Hlog].
Defined.

Lemma voxelize_twice_witness :
  currentObject (model_world 1%float) = Some model
  /\ distinct_children (model_world 1%float)
  /\ exists w1 w2 : World float,
       voxelize (box_of unit_cube_lo unit_cube_hi) (box_first_hit unit_cube_lo unit_cube_hi)
         5 (model_world 1%float) = Ok (tt, w1)
       /\ voxelize (box_of unit_cube_lo unit_cube_hi)
            (box_first_hit unit_cube_lo unit_cube_hi) 5 w1 = Ok (tt, w2)
       /\ length (scene_children w2) = length (scene_children w1).
Proof.
  split; [reflexivity|]. split; [apply model_world_distinct|].
  destruct (unit_cube_trips (model_world 1%float) model ltac:(vm_compute; reflexivity))
    as (Hx & Hy & Hz).
  destruct (voxelize_twice (box_of unit_cube_lo unit_cube_hi)
              (box_first_hit unit_cube_lo unit_cube_hi) model (model_world 1%float)
              2 2 2 5 eq_refl model_cloneable (model_world_ids 1%float)
              (model_world_distinct 1%float) ltac:(simpl; lia) Hx Hy Hz
              ltac:(lia) ltac:(lia) ltac:(lia))
    as (w1 & w2 & m1 & m2 & id1 & id2 & Hrun1 & Hrun2 & Hs1 & Hs2 & _).
  exists w1, w2. split; [exact Hrun1|]. split; [exact Hrun2|].
  rewrite Hs1, Hs2, !length_app, !voxels_from_length. reflexivity.
Defined.

Lemma voxelize_then_loadModel_witness :
  currentObject (model_world 1%float) = Some model
  /\ exists w1 w2 : World float,
       voxelize (box_of unit_cube_lo unit_cube_hi) (box_first_hit unit_cube_lo unit_cube_hi)
         5 (model_world 1%float) = Ok (tt, w1)
       /\ loadModel "sphere"%string w1 = Ok ("/voxelize/models/sphere.glb"%string, w2)
       /\ scene_children w2 = [light].
Proof.
  split; [reflexivity|].
  destruct (unit_cube_trips (model_world 1%float) model ltac:(vm_compute; reflexivity))
    as (Hx & Hy & Hz).
  destruct (voxelize_then_loadModel (box_of unit_cube_lo unit_cube_hi)
              (box_first_hit unit_cube_lo unit_cube_hi) model "sphere"%string
              "/voxelize/models/sphere.glb"%string
              (model_world 1%float) 2 2 2 5 eq_refl eq_refl model_cloneable
              (model_world_ids 1%float) (model_world_distinct 1%float)
              ltac:(simpl; lia) Hx Hy Hz ltac:(lia) ltac:(lia) ltac:(lia))
    as (w1 & w2 & Hrun1 & Hrun2 & Hscene & _).
  exists w1, w2. split; [exact Hrun1|]. split; [exact Hrun2 | exact Hscene].
Defined.

(** *** A pass never throws on a well-formed model *)

Section LoopRuns.
Context {num : Type} {NUM : Number num}.
Local Open Scope num_scope.

(** A loop that has returned has run a number of rounds. *)
Lemma for_le_Ok_trip {A : Type} (bound : num) (body : nat -> A -> M num A) :
  forall (fuel i : nat) (a : A) (w : World num) (r : A * World num),
    (forall j, (j < i)%nat -> (of_nat j <=? bound) = true) ->
    for_le fuel i bound body a w = Ok r ->
    exists k, (i <= k)%nat /\ (k - i < fuel)%nat /\ trip_count bound k.
Proof.
  induction fuel as [|fuel IH]; intros i a w r Hbelow Hrun; [discriminate Hrun|].
  simpl in Hrun. destruct (of_nat i <=? bound) eqn:Htest.
  - unfold bind in Hrun. destruct (body i a w) as [[a1 w1]| |]; try discriminate Hrun.
    destruct (IH (S i) a1 w1 r) as (k & Hk & Hfuel & Htrip); [|exact Hrun|].
    + intros j Hj. destruct (Nat.eq_dec j i) as [-> | Hne]; [exact Htest|].
      apply Hbelow. lia.
    + exists k. split; [lia|]. split; [lia | exact Htrip].
  - exists i. split; [lia|]. split; [lia|]. split; [exact Hbelow | exact Htest].
Qed.

(** A loop that has returned after a first round has run its body. *)
Lemma for_le_Ok_first {A : Type} (bound : num) (body : nat -> A -> M num A)
    (fuel : nat) (a : A) (w : World num) (r : A * World num) :
  for_le fuel 0 bound body a w = Ok r ->
  (of_nat 0 <=? bound) = true ->
  exists a1 w1, body 0%nat a w = Ok (a1, w1).
Proof.
  intros Hrun Htest. destruct fuel as [|fuel]; [discriminate Hrun|].
  simpl in Hrun. rewrite Htest in Hrun. unfold bind in Hrun.
  destruct (body 0%nat a w) as [[a1 w1]| |]; try discriminate Hrun.
  exists a1, w1. reflexivity.
Qed.

End LoopRuns.

Section Safety.
Context {num : Type} {NUM : Number num}.
Local Open Scope num_scope.

Variable Box3_setFromObject : Object3D num -> Box3.t num.
Variable Raycaster_intersectObject :
  Vector3.t num -> Vector3.t num -> Object3D num -> list (Intersection num).

Notation calculateGrid := (calculateGrid Raycaster_intersectObject).
Notation voxelize := (voxelize Box3_setFromObject Raycaster_intersectObject).
Notation size_of object := (Box3_getSize (Box3_setFromObject object)).

(** The pass up to the Grid Builder. *)
Lemma voxelize_from_grid (object : Object3D num) (w : World num) (fuel : nat) :
  currentObject w = Some object ->
  voxelize fuel w
  = match calculateGrid fuel
            (extent (Vector3.x (size_of object)) (voxelsPerUnit w))
            (extent (Vector3.y (size_of object)) (voxelsPerUnit w))
            (extent (Vector3.z (size_of object)) (voxelsPerUnit w)) w with
    | Ok (grid, w1) =>
        match traverse capture_material object None w1 with
        | Ok (material, w2) =>
            drawGrid fuel
              (extent (Vector3.x (size_of object)) (voxelsPerUnit w))
              (extent (Vector3.y (size_of object)) (voxelsPerUnit w))
              (extent (Vector3.z (size_of object)) (voxelsPerUnit w)) grid material
              (cleared_world object w2)
        | TypeError => TypeError
        | OutOfFuel => OutOfFuel
        end
    | TypeError => TypeError
    | OutOfFuel => OutOfFuel
    end.
Proof.
  intros Hcur. unfold voxelize.
  unfold bind at 1, gets at 1. rewrite Hcur.
  unfold bind at 1, getDimensions at 1, ret at 1.
  unfold bind at 1, gets at 1. cbv zeta.
  cbn [Dimensions.x Dimensions.y Dimensions.z].
  fold (extent (Vector3.x (size_of object)) (voxelsPerUnit w)).
  fold (extent (Vector3.y (size_of object)) (voxelsPerUnit w)).
  fold (extent (Vector3.z (size_of object)) (voxelsPerUnit w)).
  unfold bind at 1.
  destruct (calculateGrid fuel _ _ _ w) as [[grid w1]| |] eqn:Hgrid;
    [|reflexivity|reflexivity].
  apply calculateGrid_keeps in Hgrid as [n ->]. rewrite Hcur.
  unfold bind at 1, gets at 1. cbn [currentObject with_log]. rewrite Hcur.
  unfold bind at 1.
  destruct (traverse capture_material object None _) as [[material w2]| |] eqn:Hcap;
    [|reflexivity|reflexivity].
  rewrite traverse_capture in Hcap.
  apply capture_slots_Ok in Hcap as (_ & Hc & _). cbn [currentObject with_log] in Hc.
  unfold bind at 1, gets at 1. rewrite Hc, Hcur.
  unfold bind at 1. rewrite remove_then_clear. reflexivity.
Qed.

(** A loop of the Voxel Renderer that does not run leaves the world. *)
Lemma for_le_no_round {A : Type} (bound : num) (body : nat -> A -> M num A)
    (fuel : nat) (a : A) (w : World num) :
  trip_count bound 0 -> (0 < fuel)%nat ->
  for_le fuel 0 bound body a w = Ok (a, w).
Proof.
  intros [_ Hout] Hfuel. destruct fuel as [|fuel]; [lia|].
  simpl. rewrite Hout. reflexivity.
Qed.

(** The Voxel Renderer returns on the grid that the Grid Builder has
    returned for the same extents. *)
Lemma drawGrid_after_calculateGrid (object : Object3D num) (fuel : nat)
    (sizeX sizeY sizeZ : num) (w w1 w' : World num) (grid : Grid num) (m : Material) :
  currentObject w = Some object ->
  calculateGrid fuel sizeX sizeY sizeZ w = Ok (grid, w1) ->
  scene_ids_allocated w' ->
  exists w'', drawGrid fuel sizeX sizeY sizeZ grid (Some m) w' = Ok (tt, w'').
Proof.
  intros Hcur Hgrid Hids. pose proof Hgrid as Hrun. unfold calculateGrid in Hrun.
  destruct (for_le_Ok_trip _ _ _ 0%nat _ _ _ ltac:(intros j Hj; lia) Hrun)
    as (kx & _ & Hfx & Hx).
  rewrite Nat.sub_0_r in Hfx.
  destruct kx as [|kx].
  { eexists. unfold drawGrid. apply for_le_no_round; [exact Hx | lia]. }
  destruct (for_le_Ok_first _ _ _ _ _ _ Hrun (proj1 Hx 0%nat ltac:(lia)))
    as (g1 & w2 & Hrow). cbv zeta in Hrow.
  destruct (for_le_Ok_trip _ _ _ 0%nat _ _ _ ltac:(intros j Hj; lia) Hrow)
    as (ky & _ & Hfy & Hy).
  rewrite Nat.sub_0_r in Hfy.
  destruct ky as [|ky].
  { unfold drawGrid.
    destruct (for_le_inv (fun (_ : nat) (_ : unit) (v : World num) => v = w')
                sizeX (S kx) fuel
                (fun i _ =>
                   for_le fuel 0 sizeY (fun j _ =>
                     for_le fuel 0 sizeZ (fun k _ =>
                       grid_i <- deref grid i ;;
                       grid_ij <- deref grid_i j ;;
                       cell <- deref grid_ij k ;;
                       if Cell.value cell then
                         vpu <- gets (@voxelsPerUnit num) ;;
                         geometry <- new_BoxGeometry (of_nat 1 / vpu) (of_nat 1 / vpu)
                                       (of_nat 1 / vpu) ;;
                         voxel <- new_Mesh geometry (Some m) ;;
                         scene_add voxel ;;;
                         position_set voxel
                           (Vector3.new (Cell.x cell) (Cell.y cell) (Cell.z cell))
                       else ret tt)
                       tt)
                     tt)
                tt w' Hx Hfx eq_refl) as ([] & w'' & Hdraw & _).
    - intros i a v _ ->. exists tt, w'. split; [|reflexivity].
      apply for_le_no_round; [exact Hy | lia].
    - exists w''. exact Hdraw. }
  destruct (for_le_Ok_first _ _ _ _ _ _ Hrow (proj1 Hy 0%nat ltac:(lia)))
    as (g2 & w3 & Hcol).
  unfold bind at 1 in Hcol.
  match type of Hcol with
  | match ?c with Ok _ => _ | TypeError => _ | OutOfFuel => _ end = _ =>
      destruct c as [[gi w4]| |]; try discriminate Hcol
  end.
  cbv zeta in Hcol.
  destruct (for_le_Ok_trip _ _ _ 0%nat _ _ _ ltac:(intros j Hj; lia) Hcol)
    as (kz & _ & Hfz & Hz).
  rewrite Nat.sub_0_r in Hfz.
  destruct (calculateGrid_run Raycaster_intersectObject object w sizeX sizeY sizeZ
              (S kx) (S ky) kz fuel Hcur Hx Hy Hz Hfx Hfy Hfz) as [n Hdense].
  rewrite Hdense in Hgrid. injection Hgrid as <- _.
  eexists. apply (drawGrid_run _ m w' sizeX sizeY sizeZ (S kx) (S ky) kz fuel);
    try assumption.
  intros i j k Hi Hj Hk. rewrite arr_get3_dense3.
  rewrite (proj2 (Nat.ltb_lt i (S kx)) Hi), (proj2 (Nat.ltb_lt j (S ky)) Hj),
    (proj2 (Nat.ltb_lt k kz) Hk). discriminate.
Qed.

(** On a loaded model whose meshes have one material each, [voxelize]
    never throws, whatever the density, the bounding box and the rays
    are: it returns or it is still running when the fuel is spent.  And
    it returns whenever its Grid Builder does. *)
Theorem voxelize_never_throws (object : Object3D num) (w : World num) (fuel : nat) :
  currentObject w = Some object ->
  cloneable object ->
  scene_ids_allocated w ->
  voxelize fuel w <> TypeError
  /\ forall (grid : Grid num) (w1 : World num),
       calculateGrid fuel
         (extent (Vector3.x (size_of object)) (voxelsPerUnit w))
         (extent (Vector3.y (size_of object)) (voxelsPerUnit w))
         (extent (Vector3.z (size_of object)) (voxelsPerUnit w)) w
       = Ok (grid, w1) ->
       exists w' : World num, voxelize fuel w = Ok (tt, w').
Proof.
  intros Hcur [Hne Hone] Hids. rewrite (voxelize_from_grid object w fuel Hcur).
  pose proof (calculateGrid_safe Raycaster_intersectObject object fuel
                (extent (Vector3.x (size_of object)) (voxelsPerUnit w))
                (extent (Vector3.y (size_of object)) (voxelsPerUnit w))
                (extent (Vector3.z (size_of object)) (voxelsPerUnit w)) w Hcur) as Hsafe.
  destruct (calculateGrid fuel _ _ _ w) as [[grid w1]| |] eqn:Hgrid;
    [|contradiction|split; [discriminate | intros g v Heq; discriminate Heq]].
  assert (Hret : exists w' : World num,
             match traverse capture_material object None w1 with
             | Ok (material, w2) =>
                 drawGrid fuel
                   (extent (Vector3.x (size_of object)) (voxelsPerUnit w))
                   (extent (Vector3.y (size_of object)) (voxelsPerUnit w))
                   (extent (Vector3.z (size_of object)) (voxelsPerUnit w)) grid material
                   (cleared_world object w2)
             | TypeError => TypeError
             | OutOfFuel => OutOfFuel
             end = Ok (tt, w')).
  { rewrite traverse_capture.
    destruct (capture_slots_cloneable _ Hone None w1) as (captured & w2 & Hcap & Hsome).
    destruct captured as [m|]; [|exfalso; apply Hsome; [left; exact Hne | reflexivity]].
    rewrite Hcap.
    apply (drawGrid_after_calculateGrid object fuel _ _ _ w w1 _ grid m Hcur Hgrid).
    pose proof (capture_slots_Ok _ _ _ _ _ Hcap) as (Hs & _ & _ & Hn & _).
    pose proof (calculateGrid_keeps _ _ _ _ _ _ _ _ Hgrid) as [n Hw1].
    unfold scene_ids_allocated, cleared_world. simpl.
    apply cleared_children_Forall, remove_child_Forall. rewrite Hs, Hw1. simpl.
    rewrite Hw1 in Hn. simpl in Hn.
    eapply Forall_impl; [|exact Hids]. cbv beta. intros o Ho. lia. }
  destruct Hret as [w' Hret]. split.
  - rewrite Hret. discriminate.
  - intros g v _. exists w'. exact Hret.
Qed.

End Safety.

Lemma voxelize_never_throws_witness :
  currentObject (model_world (-6)%float) = Some model
  /\ voxelize (box_of unit_cube_lo unit_cube_hi) (box_first_hit unit_cube_lo unit_cube_hi)
       0 (model_world (-6)%float) <> TypeError
  /\ voxelize (box_of plate_lo plate_hi) (box_first_hit plate_lo plate_hi)
       7 (model_world nan) <> TypeError.
Proof.
  split; [reflexivity|]. split.
  - exact (proj1 (voxelize_never_throws (box_of unit_cube_lo unit_cube_hi)
                    (box_first_hit unit_cube_lo unit_cube_hi) model
                    (model_world (-6)%float) 0 eq_refl model_cloneable
                    (model_world_ids (-6)%float))).
  - exact (proj1 (voxelize_never_throws (box_of plate_lo plate_hi)
                    (box_first_hit plate_lo plate_hi) model
                    (model_world nan) 7 eq_refl model_cloneable
                    (model_world_ids nan))).
Defined.

(** *** The dimensions are never negative *)

(** Whatever the bounding box is -- empty, inverted, with infinite
    corners -- no dimension that [getDimensions] returns is below zero,
    and the call changes nothing. *)
Theorem getDimensions_not_negative (box : Object3D float -> Box3.t float)
    (object : Object3D float) (w : World float) :
  exists dims : Dimensions.t float,
    getDimensions box object w = Ok (dims, w)
    /\ (Dimensions.x dims <? of_nat 0)%num = false
    /\ (Dimensions.y dims <? of_nat 0)%num = false
    /\ (Dimensions.z dims <? of_nat 0)%num = false.
Proof.
  eexists. split; [reflexivity|].
  cbn [Dimensions.x Dimensions.y Dimensions.z].
  exact (float_size_not_negative (box object)).
Qed.

(** *** The order of a pass *)

Section Order.
Context {num : Type} {NUM : Number num}.
Local Open Scope num_scope.

Variable Box3_setFromObject : Object3D num -> Box3.t num.
Variable Raycaster_intersectObject :
  Vector3.t num -> Vector3.t num -> Object3D num -> list (Intersection num).

Notation calculateGrid := (calculateGrid Raycaster_intersectObject).
Notation voxelize := (voxelize Box3_setFromObject Raycaster_intersectObject).
Notation size_of object := (Box3_getSize (Box3_setFromObject object)).

(** After [scene.remove(object); clearScene()] the object is no child
    of a scene of distinct objects. *)
Lemma cleared_world_without (object : Object3D num) (w : World num) :
  distinct_children w ->
  ~ In (uuid object) (map (@uuid num) (scene_children (cleared_world object w))).
Proof.
  intros Hnd Hin. unfold cleared_world in Hin. cbn [scene_children] in Hin.
  apply in_map_iff in Hin as (o & Ho & Hin).
  assert (Hall : Forall (fun c => uuid c <> uuid object)
                   (cleared_children (remove_child (uuid object) (scene_children w))
                      (remove_child (uuid object) (scene_children w)))).
  { apply cleared_children_Forall. apply Forall_forall. intros c Hc Heq.
    apply (remove_child_gone (uuid object) (scene_children w) Hnd).
    apply in_map_iff. exists c. split; [exact Heq | exact Hc]. }
  rewrite Forall_forall in Hall. exact (Hall o Hin Ho).
Qed.

(** C6, as amended.  Every voxelize pass on a current object runs its
    stages in this order, and stops at the first stage that does not
    return: the Grid Builder; the traversal that captures the material;
    [scene.remove(object)] and [clearScene]; the Voxel Renderer, which
    starts in the world that the removal and the clearing have left.
    The Grid Builder only casts rays at the object and leaves the scene
    as it is, so that an object that is a child of the scene is one
    while it is sampled; the capture only clones materials; the removal
    removes nothing when the object is no child of the scene.  In a
    pass that returns, the calls into three.js are, in this order: the
    ray casts, the clones, the removal of the object, what [clearScene]
    does to the meshes that are still direct children of the scene
    (their removal and the disposal of their geometries and materials),
    and the additions of the renderer.  No ray of the pass is cast
    after its removal; the resources disposed are those of the
    remaining direct mesh children, not those of the source object.
    After such a pass the object is still the current object and, in a
    scene of distinct objects older than the next identity, no child of
    the scene: the Grid Builder of a later pass casts its rays at the
    object that has been removed. *)
Theorem voxelize_order (object : Object3D num) (fuel : nat) (w : World num) :
  currentObject w = Some object ->
  voxelize fuel w
  = match calculateGrid fuel
            (extent (Vector3.x (size_of object)) (voxelsPerUnit w))
            (extent (Vector3.y (size_of object)) (voxelsPerUnit w))
            (extent (Vector3.z (size_of object)) (voxelsPerUnit w)) w with
    | Ok (grid, w1) =>
        match traverse capture_material object None w1 with
        | Ok (material, w2) =>
            drawGrid fuel
              (extent (Vector3.x (size_of object)) (voxelsPerUnit w))
              (extent (Vector3.y (size_of object)) (voxelsPerUnit w))
              (extent (Vector3.z (size_of object)) (voxelsPerUnit w)) grid material
              (cleared_world object w2)
        | TypeError => TypeError
        | OutOfFuel => OutOfFuel
        end
    | TypeError => TypeError
    | OutOfFuel => OutOfFuel
    end
  /\ (forall (fuel' : nat) (sizeX sizeY sizeZ : num) (grid : Grid num) (w1 : World num),
        calculateGrid fuel' sizeX sizeY sizeZ w = Ok (grid, w1) ->
        exists n : nat, w1 = after_raycasts object n w)
  /\ (forall (w1 w2 : World num) (material : option Material),
        traverse capture_material object None w1 = Ok (material, w2) ->
        scene_children w2 = scene_children w1
        /\ currentObject w2 = currentObject w1
        /\ exists captures : list Event,
             log w2 = log w1 ++ captures /\ Forall is_clone captures)
  /\ (~ In (uuid object) (map (@uuid num) (scene_children w)) ->
      remove_child (uuid object) (scene_children w) = scene_children w)
  /\ (forall w' : World num,
        voxelize fuel w = Ok (tt, w') ->
        (exists samples captures adds : list Event,
            log w' = log w ++ samples ++ captures
                     ++ [EvSceneRemove (uuid object)]
                     ++ flat_map clear_events
                          (remove_child (uuid object) (scene_children w))
                     ++ adds
            /\ Forall is_raycast samples
            /\ Forall is_clone captures
            /\ Forall is_add adds)
        /\ currentObject w' = Some object
        /\ (distinct_children w -> (uuid object < next_id w)%nat ->
            ~ In (uuid object) (map (@uuid num) (scene_children w')))
        /\ (forall (fuel' : nat) (sizeX sizeY sizeZ : num) (grid : Grid num)
                   (w1 : World num),
               calculateGrid fuel' sizeX sizeY sizeZ w' = Ok (grid, w1) ->
               exists n : nat, w1 = after_raycasts object n w')).
Proof.
  intros Hcur.
  assert (Hsample : forall (v : World num), currentObject v = Some object ->
            forall (fuel' : nat) (sizeX sizeY sizeZ : num) (grid : Grid num)
                   (w1 : World num),
              calculateGrid fuel' sizeX sizeY sizeZ v = Ok (grid, w1) ->
              exists n : nat, w1 = after_raycasts object n v).
  { intros v Hv fuel' sizeX sizeY sizeZ grid w1 Hgrid.
    apply calculateGrid_keeps in Hgrid as [n ->]. rewrite Hv. exists n. reflexivity. }
  assert (Hcapture : forall (w1 w2 : World num) (material : option Material),
            traverse capture_material object None w1 = Ok (material, w2) ->
            scene_children w2 = scene_children w1
            /\ currentObject w2 = currentObject w1
            /\ (next_id w1 <= next_id w2)%nat
            /\ exists captures : list Event,
                 log w2 = log w1 ++ captures /\ Forall is_clone captures).
  { intros w1 w2 material Hcap. rewrite traverse_capture in Hcap.
    apply capture_slots_Ok in Hcap as (Hs & Hc & _ & Hn & Hlog).
    split; [exact Hs|]. split; [exact Hc|]. split; [exact Hn | exact Hlog]. }
  split; [apply (voxelize_from_grid Box3_setFromObject Raycaster_intersectObject
                   object w fuel Hcur)|].
  split; [exact (Hsample w Hcur)|].
  split.
  { intros w1 w2 material Hcap.
    destruct (Hcapture w1 w2 material Hcap) as (Hs & Hc & _ & Hlog).
    split; [exact Hs|]. split; [exact Hc | exact Hlog]. }
  split; [apply remove_child_absent|].
  intros w' Hrun.
  rewrite (voxelize_from_grid Box3_setFromObject Raycaster_intersectObject
             object w fuel Hcur) in Hrun.
  destruct (calculateGrid fuel _ _ _ w) as [[grid w1]| |] eqn:Hgrid;
    try discriminate Hrun.
  destruct (Hsample w Hcur _ _ _ _ _ _ Hgrid) as [n ->].
  destruct (traverse capture_material object None _) as [[material w2]| |] eqn:Hcap;
    try discriminate Hrun.
  destruct (Hcapture _ _ _ Hcap) as (Hs & Hc & Hn & captures & Hl & Hcaps).
  cbn [after_raycasts with_log scene_children currentObject next_id log] in Hs, Hc, Hn, Hl.
  pose proof (drawGrid_keeps _ _ _ _ _ _ _ _ Hrun) as (adds & Hadds & Hall).
  pose proof (drawGrid_grows _ _ _ _ _ _ _ _ Hrun) as (Hcur' & Hn' & Hnew).
  cbn [cleared_world scene_children currentObject next_id log] in Hadds, Hcur', Hn'.
  assert (Hobj : currentObject w' = Some object).
  { rewrite Hcur', Hc. exact Hcur. }
  split; [|split; [exact Hobj|split; [|exact (Hsample w' Hobj)]]].
  - exists (repeat (EvRaycast (uuid object)) n), captures, adds.
    split; [|split; [|split]].
    + rewrite Hadds, Hl, Hs, <- !app_assoc. reflexivity.
    + apply Forall_forall. intros e He. apply repeat_spec in He. eexists. exact He.
    + exact Hcaps.
    + exact Hall.
  - intros Hnd Hbelow Hin.
    apply in_map_iff in Hin as (o & Ho & Hin).
    rewrite Forall_forall in Hnew. destruct (Hnew o Hin) as [Hold | Hfresh].
    + rewrite Ho in Hold.
      assert (Hnd2 : distinct_children w2).
      { unfold distinct_children. rewrite Hs. exact Hnd. }
      exact (cleared_world_without object w2 Hnd2 Hold).
    + cbn [cleared_world next_id] in Hfresh. lia.
Qed.

End Order.

Lemma voxelize_order_witness :
  currentObject (model_world 1%float) = Some model
  /\ exists w' : World float,
       voxelize (box_of unit_cube_lo unit_cube_hi) (box_first_hit unit_cube_lo unit_cube_hi)
         5 (model_world 1%float) = Ok (tt, w')
       /\ (exists samples captures adds : list Event,
             log w' = log (model_world 1%float) ++ samples ++ captures
                      ++ [EvSceneRemove 1]
                      ++ flat_map clear_events
                           (remove_child 1 (scene_children (model_world 1%float)))
                      ++ adds
             /\ Forall is_raycast samples
             /\ Forall is_clone captures
             /\ Forall is_add adds)
       /\ currentObject w' = Some model
       /\ ~ In 1 (map (@uuid float) (scene_children w')).
Proof.
  split; [reflexivity|].
  assert (H : exists w' : World float,
             voxelize (box_of unit_cube_lo unit_cube_hi)
               (box_first_hit unit_cube_lo unit_cube_hi) 5 (model_world 1%float)
             = Ok (tt, w')) by (eexists; vm_compute; reflexivity).
  destruct H as [w' H]. exists w'. split; [exact H|].
  destruct (voxelize_order (box_of unit_cube_lo unit_cube_hi)
              (box_first_hit unit_cube_lo unit_cube_hi) model 5 (model_world 1%float)
              eq_refl) as (_ & _ & _ & _ & Hpass).
  destruct (Hpass w' H) as (Hlog & Hcur & Hgone & _).
  split; [exact Hlog|]. split; [exact Hcur|].
  apply Hgone; [apply model_world_distinct | simpl; lia].
Defined.

(** C6 fails in three places.  The resources of the source object are
    not released before the renderer runs, nor later: voxelizing the
    unit cube at density 1 adds cubes to the scene (the mesh 7 is the
    first), and the pass ends without having disposed the geometry 3 or
    the material 4 of the mesh of the model, since [clearScene] looks at
    the direct children of the scene only, from which the model has just
    been removed.  The object is sampled after its removal: it stays
    the current object, and a second pass casts its rays at it when it
    is no child of the scene any more.  And not every pass has the
    steps of the claim: with a mesh whose material is an array the pass
    throws in the capture, and with no model loaded it throws at once. *)
Lemma voxelize_keeps_source_resources :
  (exists w' : World float,
      voxelize (box_of unit_cube_lo unit_cube_hi) (box_first_hit unit_cube_lo unit_cube_hi)
        5 (model_world 1%float) = Ok (tt, w')
      /\ mesh_materials (num := float) model = [OneMaterial {| material_id := 4 |}]
      /\ In (EvSceneAdd 7) (log w')
      /\ ~ In (EvDisposeGeometry 3) (log w')
      /\ ~ In (EvDisposeMaterial 4) (log w')
      /\ Forall (fun e => ~ is_dispose e) (log w')
      /\ In (EvSceneRemove 1) (log w')
      /\ ~ In 1 (map (@uuid float) (scene_children w'))
      /\ exists (w'' : World float) (later : list Event),
           voxelize (box_of unit_cube_lo unit_cube_hi)
             (box_first_hit unit_cube_lo unit_cube_hi) 5 w' = Ok (tt, w'')
           /\ log w'' = log w' ++ later
           /\ In (EvRaycast 1) later)
  /\ voxelize (box_of unit_cube_lo unit_cube_hi) (box_first_hit unit_cube_lo unit_cube_hi)
       5 (world_of array_model 1%float) = TypeError
  /\ voxelize (box_of unit_cube_lo unit_cube_hi) (box_first_hit unit_cube_lo unit_cube_hi)
       5 (start_world 1%float) = TypeError.
Proof.
  split; [|split; vm_compute; reflexivity].
  eexists. split; [vm_compute; reflexivity|].
  split; [reflexivity|]. simpl.
  split; [tauto|].
  split; [intros H; repeat (destruct H as [H | H]; [discriminate H|]); exact H|].
  split; [intros H; repeat (destruct H as [H | H]; [discriminate H|]); exact H|].
  split; [repeat constructor; intros [r [H | H]]; discriminate H|].
  split; [tauto|].
  split; [intros H; repeat (destruct H as [H | H]; [discriminate H|]); exact H|].
  eexists _, _. split; [vm_compute; reflexivity|].
  split; [vm_compute; reflexivity|].
  left. reflexivity.
Qed.
